(** * FleetX tracker: polling, change detection and credential reuse

    A shallow embedding of [fleetx_tracker.py] (class [FleetXTracker]) and
    the properties its specification states about it.

    Modelling conventions.
    - JSON documents and Python values are the inductive type [value];
      a Python [dict] is an association list with string keys.
    - Python [int] is [Z]. A Python [float] is a binary64 number: the
      model keeps it by the rational it was written as, and Python holds
      the binary64 number nearest to it ([round64]); the difference of
      two floats is rounded again. Infinities and NaN are outside the
      model. The wall clock is a real number: [time.time()] and the
      [saved_at] it writes are taken as they are written.
    - The tracker object and the outer world it talks to (token file,
      SQLite table, wall clock) form the record [world]; everything the
      outer world decides (answers of the remote API, outcome of the
      browser login, failing database calls, Ctrl-C) is read from an
      oracle record [Env].
    - Python exceptions are explicit: a computation returns [Ok] or
      [Raise], and [try_except] is [try: ... except Exception: ...], which
      lets [KeyboardInterrupt] through. Ctrl-C is taken to arrive during
      the sleeps of the polling loop; a Ctrl-C that arrives while a
      request or a login is under way is outside the model.
    - The table is the list of its rows, oldest first, and a row holds
      its values as they were bound. SQLite converts a value that does
      not have the declared type of its column (a number handed to the
      [TEXT] column [rpm] is kept as text, a numeric string handed to a
      [REAL] column as a number): the properties that read a row back
      into the detector are stated for snapshots that [conforming]
      accepts, whose compared values and vehicle id have the declared
      types. [ORDER BY fetch_timestamp DESC LIMIT 1] is the last row of
      the list: [fetch_timestamp] counts seconds, and records are taken
      to be written more than a second apart, as the pause of two
      seconds after every vehicle makes them.
    - Logging is left out. *)

From Stdlib Require Import List String ZArith QArith Qabs Qround Qpower.
From Stdlib Require Import Bool Lia Lqa Floats.
Import ListNotations.

#[local] Set Warnings "-inexact-float".

Local Open Scope string_scope.
Local Open Scope list_scope.

(** ** Binary64

    A Python [float] is an IEEE 754 binary64 number. The model keeps a
    float by the rational it was written as and lets Python round it:
    [round64 x] is the binary64 number nearest to [x], ties to even, with
    53 significant bits and a last place no finer than [2 ^ -1074].
    Overflow to an infinity, and NaN, are outside the model. *)

Definition pow2 (e : Z) : Q := (2 ^ e)%Q.

(** [floor (log2 x)] for a positive [x]. *)
Definition binade (x : Q) : Z :=
  let e := (Z.log2 (Qnum x) - Z.log2 (Zpos (Qden x)))%Z in
  if Qle_bool (pow2 e) x then e else (e - 1)%Z.

(** The nearest integer, ties to even. *)
Definition round_half_even (y : Q) : Z :=
  match (y - inject_Z (Qfloor y) ?= 1 # 2)%Q with
  | Lt => Qfloor y
  | Gt => (Qfloor y + 1)%Z
  | Eq => if Z.even (Qfloor y) then Qfloor y else (Qfloor y + 1)%Z
  end.

(** The exponent of the last place of the binary64 numbers around a
    positive [x]. *)
Definition last_place (x : Q) : Z := Z.max (binade x - 52) (- 1074).

Definition round64_pos (x : Q) : Q :=
  (inject_Z (round_half_even (x / pow2 (last_place x)))
   * pow2 (last_place x))%Q.

Definition round64 (x : Q) : Q :=
  match (x ?= 0)%Q with
  | Eq => 0%Q
  | Gt => round64_pos x
  | Lt => (- round64_pos (- x))%Q
  end.

(** A positive binary64 number in normal form. *)
Definition binary64 (m e : Z) : Q := (inject_Z m * pow2 e)%Q.

Definition normal64 (m e : Z) : Prop :=
  (2 ^ 52 <= m < 2 ^ 53)%Z /\ (- 1074 <= e)%Z.

(** ** Python values *)

#[local] Set Warnings "-register-all".

Inductive value : Type :=
| VNone
| VBool (b : bool)
| VInt (z : Z)
| VFloat (q : Q)
| VStr (s : string)
| VList (l : list value)
| VDict (kvs : list (string * value)).

Definition dict : Type := list (string * value).

(** [isinstance(v, (int, float))], together with the number the value
    is written as; [bool] is a subclass of [int]. *)
Definition num_of (v : value) : option Q :=
  match v with
  | VBool b => Some (if b then 1%Q else 0%Q)
  | VInt z => Some (inject_Z z)
  | VFloat q => Some q
  | _ => None
  end.

Definition is_float (v : value) : bool :=
  match v with VFloat _ => true | _ => false end.

(** The number Python holds for the value: an [int] exactly, a [float]
    as the binary64 number nearest to what was written. *)
Definition py_num (v : value) : option Q :=
  match v with
  | VFloat q => Some (round64 q)
  | _ => num_of v
  end.

Definition is_number (v : value) : bool :=
  match num_of v with Some _ => true | None => false end.

(** Truth value of an object, as tested by [if data:] and
    [if self.access_token:]. *)
Definition truthy (v : value) : bool :=
  match v with
  | VNone => false
  | VBool b => b
  | VInt z => negb (Z.eqb z 0)
  | VFloat q => negb (Qeq_bool (round64 q) 0)
  | VStr s => negb (String.eqb s EmptyString)
  | VList l => match l with [] => false | _ => true end
  | VDict kvs => match kvs with [] => false | _ => true end
  end.

Fixpoint dict_lookup (k : string) (d : dict) : option value :=
  match d with
  | [] => None
  | (k', v) :: d' => if String.eqb k k' then Some v else dict_lookup k d'
  end.

(** [d.get(k, default)] and [d.get(k)]. *)
Definition get_default (k : string) (default : value) (d : dict) : value :=
  match dict_lookup k d with Some v => v | None => default end.

Definition get (k : string) (d : dict) : value := get_default k VNone d.

(** Python's [==] on values: numbers (booleans included) compare by
    numeric value, lists element by element, dictionaries key by key
    whatever the order of their items (an item hidden by an earlier one
    with the same key does not count: a dictionary has one value per
    key). *)
Fixpoint py_eq (a b : value) {struct a} : bool :=
  match a, b with
  | VNone, VNone => true
  | VStr s, VStr t => String.eqb s t
  | VList l, VList m =>
      (fix list_eq (l : list value) (m : list value) {struct l} : bool :=
         match l, m with
         | [], [] => true
         | x :: l', y :: m' => py_eq x y && list_eq l' m'
         | _, _ => false
         end) l m
  | VDict kvs, VDict kvs' =>
      Nat.eqb (List.length kvs) (List.length kvs') &&
      (fix items_in (seen : list string) (kvs : list (string * value))
           {struct kvs} : bool :=
         match kvs with
         | [] => true
         | (k, v) :: rest =>
             (if existsb (String.eqb k) seen then true
              else match dict_lookup k kvs' with
                   | Some v' => py_eq v v'
                   | None => false
                   end)
             && items_in (k :: seen) rest
         end) [] kvs
  | _, _ =>
      match py_num a, py_num b with
      | Some x, Some y => Qeq_bool x y
      | _, _ => false
      end
  end.

(** ** ChangeDetector: [FleetXTracker._has_data_changed] *)

Definition compare_fields : list string :=
  [ "latitude"; "longitude"; "speed"; "status"; "rpm";
    "currentFuelConsumption"; "totalFuelConsumption";
    "currentOdometer"; "totalOdometer"; "driverId";
    "course"; "address" ].

(** The literal [0.0001]: the binary64 number nearest to one ten
    thousandth, [7378697629483821 * 2 ^ -66]. *)
Definition tolerance : Q := round64 (1 # 10000).

(** The binary64 number that follows it. *)
Definition tolerance_next : Q := binary64 7378697629483822 (- 66).

(** [a < b] on numbers. *)
Definition Qlt_bool (a b : Q) : bool := negb (Qle_bool b a).

(** [new_val - old_val] on two numbers written as [a] and [b]: exact on
    two [int]s; when one of them is a [float] the other becomes one
    too, and the difference of the two floats is rounded. *)
Definition py_sub (new_val old_val : value) (a b : Q) : Q :=
  if is_float new_val || is_float old_val
  then round64 (round64 a - round64 b)
  else a - b.

(** One turn of the loop over [compare_fields]: [true] when the turn
    executes [return True]. The comparison with the literal is exact,
    as Python compares an [int] or a [float] with a [float]. *)
Definition field_changed (new_val old_val : value) : bool :=
  match num_of new_val, num_of old_val with
  | Some a, Some b =>
      Qlt_bool tolerance (Qabs (py_sub new_val old_val a b))
  | _, _ => negb (py_eq new_val old_val)
  end.

(** The same test on two floats by the binary64 arithmetic of the
    kernel, and the rational a float of the kernel stands for: they are
    used to check [round64] and [field_changed] on instances. *)
Definition binary64_changed (new_val old_val : float) : bool :=
  PrimFloat.ltb 0.0001%float (PrimFloat.abs (PrimFloat.sub new_val old_val)).

Definition float_value (f : float) : option Q :=
  match Prim2SF f with
  | S754_zero _ => Some 0%Q
  | S754_finite s m e =>
      Some ((if s then - inject_Z (Zpos m) else inject_Z (Zpos m))
            * pow2 e)%Q
  | _ => None
  end.

(** The float [f] of the kernel is the number [x]. *)
Definition is_float_value (f : float) (x : Q) : bool :=
  match float_value f with
  | Some y => Qeq_bool y x
  | None => false
  end.

Fixpoint any_field_changed (fields : list string) (new_data old_data : dict)
  : bool :=
  match fields with
  | [] => false
  | field :: rest =>
      if field_changed (get field new_data) (get field old_data)
      then true
      else any_field_changed rest new_data old_data
  end.

Definition _has_data_changed (new_data : dict) (old_data : option dict)
  : bool :=
  match old_data with
  | None => true
  | Some old => any_field_changed compare_fields new_data old
  end.

(** ** SQLite values and the table [vehicle_location_history] *)

Inductive sql_value : Type :=
| SNull
| SInteger (z : Z)
| SReal (q : Q)
| SText (s : string).

(** What the [sqlite3] module accepts as a statement parameter: [None],
    [int] (64-bit), [float], [str]; a [bool] is an [int]. A list or a
    dictionary cannot be bound and makes [execute] raise ([None] here). *)
Definition bind_param (v : value) : option sql_value :=
  match v with
  | VNone => Some SNull
  | VBool b => Some (SInteger (if b then 1 else 0))
  | VInt z =>
      if (Z.leb (- 2 ^ 63) z && Z.ltb z (2 ^ 63))%Z
      then Some (SInteger z) else None
  | VFloat q => Some (SReal q)
  | VStr s => Some (SText s)
  | VList _ => None
  | VDict _ => None
  end.

(** The Python object a fetched column comes back as. *)
Definition value_of_sql (c : sql_value) : value :=
  match c with
  | SNull => VNone
  | SInteger z => VInt z
  | SReal q => VFloat q
  | SText s => VStr s
  end.

Definition sql_num (c : sql_value) : option Q :=
  match c with
  | SInteger z => Some (inject_Z z)
  | SReal q => Some (round64 q)
  | _ => None
  end.

(** The SQL comparison [a = b] used by [WHERE vehicle_id = ?]: never
    true when a side is NULL. Values are kept as they were bound (column
    type affinity is not modelled). *)
Definition sql_eq (a b : sql_value) : bool :=
  match a, b with
  | SText s, SText t => String.eqb s t
  | _, _ =>
      match sql_num a, sql_num b with
      | Some x, Some y => Qeq_bool x y
      | _, _ => false
      end
  end.

(** The thirty-nine plain columns, in the order of the [INSERT] and of the
    [SELECT], each with the key of the snapshot it is filled from and read
    back into. The fortieth column, [other_attributes], is kept apart. *)
Definition columns : list (string * string) :=
  [ ("device_id", "deviceId"); ("account_id", "accountId");
    ("vehicle_id", "vehicleId"); ("vehicle_number", "vehicleNumber");
    ("vehicle_name", "vehicleName"); ("vehicle_make", "vehicleMake");
    ("vehicle_model", "vehicleModel"); ("driver_name", "driverName");
    ("vehicle_year", "vehicleYear"); ("group_id", "groupId");
    ("driver_id", "driverId"); ("fuel_type", "fuelType"); ("type", "type");
    ("latitude", "latitude"); ("longitude", "longitude");
    ("current_fuel_consumption", "currentFuelConsumption");
    ("total_fuel_consumption", "totalFuelConsumption");
    ("current_def_consumption", "currentDEFConsumption");
    ("total_def_consumption", "totalDEFConsumption");
    ("trip_ev_battery_consumed", "tripEVBatteryConsumed");
    ("trip_ev_battery_voltage_consumed", "tripEVBatteryVoltageConsumed");
    ("current_odometer", "currentOdometer");
    ("total_odometer", "totalOdometer"); ("speed", "speed");
    ("timestamp", "timeStamp"); ("create_date", "createDate");
    ("rpm", "rpm"); ("status", "status"); ("mileage", "mileage");
    ("mileage_def", "mileageDEF"); ("mileage_ev", "mileageEV");
    ("mileage_ev_voltage", "mileageEVVoltage"); ("last_acc_on", "lastAccOn");
    ("gear", "gear"); ("rpm_slot", "rpmSlot");
    ("duration_engine_on", "durationEngineOn");
    ("server_time", "serverTime"); ("course", "course");
    ("address", "address") ].

Definition column_keys : list string := map snd columns.

(** The text held by [other_attributes]: what [json.dumps] wrote, seen
    through [json.loads]. A table written by someone else may hold text
    that [json.loads] rejects. *)
Inductive attr_text : Type :=
| AttrNull
| AttrJson (v : value)
| AttrGarbled.

(** One row. [id] and [fetch_timestamp] are assigned by SQLite; rows are
    kept oldest first, and [fetch_timestamp] is taken to grow with the
    position in the list (the tracker sleeps two seconds after each
    vehicle, [CURRENT_TIMESTAMP] counts seconds). *)
Record row : Type := mkRow {
  cells : list sql_value;
  other_attributes : attr_text
}.

Definition vehicle_id_of (r : row) : sql_value := nth 2 (cells r) SNull.

(** ** The tracker and its surroundings *)

Inductive file_state : Type :=
| Absent
| Garbled
| Json (content : value).

Record request : Type := mkRequest {
  req_vehicleId : value;
  req_time : Z;
  req_bearer : option value
}.

Record world : Type := mkWorld {
  access_token : value;        (* self.access_token *)
  token_file : file_state;     (* fleetx_token.json *)
  db : list row;               (* vehicle_location_history, oldest first *)
  clock : Q;                   (* time.time() *)
  requests : list request;     (* GET requests sent so far, newest first *)
  logins : nat;                (* calls of login_with_selenium so far *)
  ticks : nat                  (* questions put to the oracles so far *)
}.

Inductive http_result : Type :=
| ConnectionError
| Response (status_code : Z) (json : option value).

(** The outcome of the browser session of a login. [LoginError paused]:
    an exception, or the browser is still on the login page, or nothing
    is in localStorage; [paused] says whether the failure came after
    the [time.sleep(3)] that follows the click on the submit button. *)
Inductive login_result : Type :=
| LoginError (paused : bool)
| LocalStorage (tok : option string).

(** The outcome of writing the token file: written; not opened, the
    file is as it was; or broken off, the file is no JSON. *)
Inductive write_result : Type :=
| Written
| NotOpened
| Truncated.

(** [config.json]: the entries the polling loop reads, when present.
    [vehicle_ids] is taken to be a list. *)
Record Config : Type := mkConfig {
  polling_interval_seconds : option value;
  vehicle_ids : option (list value)
}.

(** Everything decided outside the tracker. [remote r n] answers request
    [r] when [n] requests were sent before it; [browser_login n] is the
    outcome of the login after [n] earlier ones; the three predicates say
    at which tick a [SELECT] raises, an [INSERT] or its commit raises, or
    Ctrl-C arrives during a sleep; [recursion_limit] is the number of
    nested calls the interpreter still allows; [token_write n] is the
    outcome of writing the token file in the [n]-th login. *)
Record Env : Type := mkEnv {
  config : Config;
  remote : request -> nat -> http_result;
  browser_login : nat -> login_result;
  select_raises : nat -> bool;
  insert_raises : nat -> bool;
  interrupted : nat -> bool;
  recursion_limit : nat;
  token_write : nat -> write_result
}.

Definition set_access_token (v : value) (w : world) : world :=
  mkWorld v (token_file w) (db w) (clock w) (requests w) (logins w) (ticks w).

Definition set_token_file (f : file_state) (w : world) : world :=
  mkWorld (access_token w) f (db w) (clock w) (requests w) (logins w)
    (ticks w).

Definition set_db (rows : list row) (w : world) : world :=
  mkWorld (access_token w) (token_file w) rows (clock w) (requests w)
    (logins w) (ticks w).

Definition set_clock (t : Q) (w : world) : world :=
  mkWorld (access_token w) (token_file w) (db w) t (requests w) (logins w)
    (ticks w).

Definition log_request (r : request) (w : world) : world :=
  mkWorld (access_token w) (token_file w) (db w) (clock w) (r :: requests w)
    (logins w) (ticks w).

Definition count_login (w : world) : world :=
  mkWorld (access_token w) (token_file w) (db w) (clock w) (requests w)
    (S (logins w)) (ticks w).

Definition tick (w : world) : world :=
  mkWorld (access_token w) (token_file w) (db w) (clock w) (requests w)
    (logins w) (S (ticks w)).

(** ** Computations that read the oracles, change the world and may raise *)

Inductive exn : Type :=
| Exception (what : string)
| KeyboardInterrupt.

Inductive outcome (A : Type) : Type :=
| Ok (a : A)
| Raise (e : exn).

Arguments Ok {A} a.
Arguments Raise {A} e.

Definition M (A : Type) : Type := Env -> world -> outcome A * world.

Definition ret {A : Type} (a : A) : M A := fun _ w => (Ok a, w).

Definition bind {A B : Type} (c : M A) (k : A -> M B) : M B :=
  fun env w =>
    match c env w with
    | (Ok a, w') => k a env w'
    | (Raise e, w') => (Raise e, w')
    end.

Definition raise {A : Type} (e : exn) : M A := fun _ w => (Raise e, w).

(** [try: body  except Exception: handler]. *)
Definition try_except {A : Type} (body : M A) (handler : M A) : M A :=
  fun env w =>
    match body env w with
    | (Raise (Exception _), w') => handler env w'
    | r => r
    end.

Definition gets {A : Type} (f : world -> A) : M A := fun _ w => (Ok (f w), w).

Definition modify (f : world -> world) : M unit := fun _ w => (Ok tt, f w).

Definition ask {A : Type} (f : Env -> A) : M A := fun env w => (Ok (f env), w).

(** Put a question to an oracle that is indexed by the tick. *)
Definition consult (f : Env -> nat -> bool) : M bool :=
  fun env w => (Ok (f env (ticks w)), tick w).

Declare Scope tracker_scope.
Delimit Scope tracker_scope with tracker.

Notation "x <- c ;; k" := (bind c (fun x => k))
  (at level 61, c at next level, right associativity) : tracker_scope.
Notation "c ;; k" := (bind c (fun _ => k))
  (at level 61, right associativity) : tracker_scope.

Local Open Scope tracker_scope.

(** ** CredentialStore: the saved token *)

(** [12 * 3600] seconds. *)
Definition validity_window : Q := 12 * 3600.

Definition token_file_exists (w : world) : bool :=
  match token_file w with Absent => false | _ => true end.

(** [json.load(f)] on the token file. *)
Definition json_load_token_file : M value :=
  fun _ w =>
    match token_file w with
    | Json v => (Ok v, w)
    | Garbled => (Raise (Exception "JSONDecodeError"), w)
    | Absent => (Raise (Exception "FileNotFoundError"), w)
    end.

(** Calling [.get] on an object: only a dictionary has it. *)
Definition as_dict (v : value) : M dict :=
  match v with
  | VDict d => ret d
  | _ => raise (Exception "AttributeError")
  end.

(** [time.time() - saved_time < 12 * 3600]; the subtraction raises
    [TypeError] when [saved_time] is not a number. *)
Definition token_is_recent (now : Q) (saved_time : value) : M bool :=
  match num_of saved_time with
  | Some t => ret (Qlt_bool (now - t) validity_window)
  | None => raise (Exception "TypeError")
  end.

Definition _load_saved_token : M unit :=
  try_except
    (present <- gets token_file_exists ;;
     if present then
       token_data <- json_load_token_file ;;
       d <- as_dict token_data ;;
       modify (set_access_token (get "access_token" d)) ;;
       now <- gets clock ;;
       recent <- token_is_recent now (get_default "saved_at" (VInt 0) d) ;;
       if recent then ret tt else modify (set_access_token VNone)
     else ret tt)
    (ret tt).

(** A failing write is logged and nothing else: the file is left as it
    was when it could not be opened, and is no JSON when the write broke
    off. *)
Definition _save_token : M unit :=
  tok <- gets access_token ;;
  now <- gets clock ;;
  n <- gets logins ;;
  written <- ask (fun env => token_write env n) ;;
  match written with
  | Written =>
      modify (set_token_file
                (Json (VDict [("access_token", tok);
                              ("saved_at", VFloat now)])))
  | NotOpened => ret tt
  | Truncated => modify (set_token_file Garbled)
  end.

(** [FleetXTracker.__init__], after the configuration and the database
    are set up. *)
Definition init : M unit :=
  modify (set_access_token VNone) ;;
  _load_saved_token.

(** ** CredentialAcquirer: [login_with_selenium]

    The browser session is the oracle [browser_login]: it either fails
    ([LoginError]) or yields the [access_token] entry of localStorage, a
    string or nothing. The entry is read after [time.sleep(3)]; the
    waits of the browser driver take no time of the clock. *)
Definition pause (seconds : Q) : M unit :=
  modify (fun w => set_clock (clock w + seconds) w).

Definition login_with_selenium : M bool :=
  n <- gets logins ;;
  modify count_login ;;
  r <- ask (fun env => browser_login env n) ;;
  match r with
  | LoginError paused =>
      (if paused then pause 3 else ret tt) ;;
      ret false
  | LocalStorage entry =>
      pause 3 ;;
      let tok := match entry with Some s => VStr s | None => VNone end in
      modify (set_access_token tok) ;;
      if truthy tok then _save_token ;; ret true else ret false
  end.

(** ** TelemetryClient: [fetch_vehicle_location] *)

(** [int(x)] on a float: truncation towards zero. *)
Definition py_int (x : Q) : Z := Z.quot (Qnum x) (Zpos (Qden x)).

(** [int(time.time() * 1000)]. *)
Definition now_ms : M Z :=
  now <- gets clock ;;
  ret (py_int (now * 1000)).

(** [self.session.get(url, params, headers, timeout=30)]: the request
    carries the bearer header when [self.access_token] is true; a
    time-out or a connection failure raises. *)
Definition session_get (vehicle_id : value) (timestamp : Z)
  : M (Z * option value) :=
  tok <- gets access_token ;;
  n <- gets (fun w => List.length (requests w)) ;;
  let r := mkRequest vehicle_id timestamp
             (if truthy tok then Some tok else None) in
  modify (log_request r) ;;
  answer <- ask (fun env => remote env r n) ;;
  match answer with
  | ConnectionError => raise (Exception "RequestException")
  | Response status_code body => ret (status_code, body)
  end.

(** [response.json()]. *)
Definition response_json (body : option value) : M value :=
  match body with
  | Some data => ret data
  | None => raise (Exception "JSONDecodeError")
  end.

(** [if os.path.exists(self.token_file): os.remove(self.token_file)]. *)
Definition remove_token_file : M unit := modify (set_token_file Absent).

(** The body of [fetch_vehicle_location]; [retry ts] stands for the call
    [self.fetch_vehicle_location(vehicle_id, timestamp)] it makes of
    itself. The result is the returned object, [VNone] for [None]. *)
Definition fetch_body (retry : Z -> M value) (vehicle_id : value)
  (timestamp : option Z) : M value :=
  try_except
    (ts <- match timestamp with Some t => ret t | None => now_ms end ;;
     resp <- session_get vehicle_id ts ;;
     let (status_code, body) := resp in
     if Z.eqb status_code 200 then
       response_json body
     else if Z.eqb status_code 401 || Z.eqb status_code 403 then
       modify (set_access_token VNone) ;;
       remove_token_file ;;
       ok <- login_with_selenium ;;
       if ok then retry ts else ret VNone
     else ret VNone)
    (ret VNone).

(** [fetch_vehicle_location] when [depth] further nested calls are
    allowed: the call of itself at [depth = 0] raises [RecursionError],
    inside the [try] of the calling frame. *)
Fixpoint fetch_from (depth : nat) (vehicle_id : value) (timestamp : option Z)
  {struct depth} : M value :=
  fetch_body
    (fun ts =>
       match depth with
       | O => raise (Exception "RecursionError")
       | S d => fetch_from d vehicle_id (Some ts)
       end)
    vehicle_id timestamp.

Definition fetch_vehicle_location (vehicle_id : value) (timestamp : option Z)
  : M value :=
  depth <- ask recursion_limit ;;
  fetch_from depth vehicle_id timestamp.

(** ** HistoryStore: [_get_last_record] and [store_location_data] *)

(** [ORDER BY fetch_timestamp DESC LIMIT 1] among the rows of a vehicle. *)
Definition last_matching (p : sql_value) (rows : list row) : option row :=
  find (fun r => sql_eq (vehicle_id_of r) p) (rev rows).

Definition execute_select (vehicle_id : value) : M (option row) :=
  match bind_param vehicle_id with
  | None => raise (Exception "sqlite3.InterfaceError")
  | Some p =>
      fails <- consult select_raises ;;
      if fails then raise (Exception "sqlite3.Error")
      else rows <- gets db ;; ret (last_matching p rows)
  end.

(** [json.loads(row[39]) if row[39] else {}]. *)
Definition loads_other_attributes (a : attr_text) : M value :=
  match a with
  | AttrNull => ret (VDict [])
  | AttrJson v => ret v
  | AttrGarbled => raise (Exception "JSONDecodeError")
  end.

(** The dictionary built from a fetched row. *)
Definition record_of_row (r : row) : M dict :=
  oa <- loads_other_attributes (other_attributes r) ;;
  ret (combine column_keys (map value_of_sql (cells r))
         ++ [("otherAttributes", oa)]).

Definition _get_last_record (vehicle_id : value) : M (option dict) :=
  try_except
    (r <- execute_select vehicle_id ;;
     match r with
     | Some found => d <- record_of_row found ;; ret (Some d)
     | None => ret None
     end)
    (ret None).

Fixpoint bind_all (vs : list value) : option (list sql_value) :=
  match vs with
  | [] => Some []
  | v :: rest =>
      match bind_param v, bind_all rest with
      | Some c, Some cs => Some (c :: cs)
      | _, _ => None
      end
  end.

(** The row the [INSERT] writes for a snapshot, when every parameter can
    be bound. *)
Definition row_of_data (d : dict) : option row :=
  match bind_all (map (fun k => get k d) column_keys) with
  | Some cs =>
      Some (mkRow cs (AttrJson (get_default "otherAttributes" (VDict []) d)))
  | None => None
  end.

(** [cursor.execute(INSERT ...)] followed by [self.db_conn.commit()]:
    the row is appended, or an exception leaves the table as it was. *)
Definition execute_insert (d : dict) : M unit :=
  match row_of_data d with
  | None => raise (Exception "sqlite3.InterfaceError")
  | Some r =>
      fails <- consult insert_raises ;;
      if fails then raise (Exception "sqlite3.Error")
      else modify (fun w => set_db (db w ++ [r]) w)
  end.

(** [self.db_conn.rollback()]: nothing was written, there is nothing to
    undo; the call is taken not to raise. *)
Definition rollback : M unit := ret tt.

Definition store_location_data (data : value) : M unit :=
  try_except
    (d <- as_dict data ;;
     last_record <- _get_last_record (get "vehicleId" d) ;;
     if negb (_has_data_changed d last_record) then ret tt
     else execute_insert d)
    rollback.

(** ** PollingScheduler: [run_periodic_fetch] *)

(** The longest time [time.sleep] takes: the interpreter counts the
    time in nanoseconds in a signed 64-bit integer. *)
Definition longest_sleep : Q := 9223372036854775807 # 1000000000.

Definition sleepable (seconds : Q) : bool :=
  negb (Qlt_bool seconds 0) && negb (Qlt_bool longest_sleep seconds).

(** [time.sleep(seconds)] on a number: a negative one is refused with
    [ValueError] and one beyond [longest_sleep] with [OverflowError]
    before anything else; Ctrl-C is delivered during the sleep. *)
Definition sleep (seconds : Q) : M unit :=
  if Qlt_bool seconds 0 then raise (Exception "ValueError")
  else if Qlt_bool longest_sleep seconds
  then raise (Exception "OverflowError")
  else
    stop <- consult interrupted ;;
    if stop then raise KeyboardInterrupt
    else modify (fun w => set_clock (clock w + seconds) w).

(** [time.sleep(polling_interval)] on what the configuration holds: an
    object that is no number is refused with [TypeError]. *)
Definition sleep_for (seconds : value) : M unit :=
  match num_of seconds with
  | Some s => sleep s
  | None => raise (Exception "TypeError")
  end.

(** Body of [for vehicle_id in vehicle_ids]. *)
Definition poll_vehicle (vehicle_id : value) : M unit :=
  data <- fetch_vehicle_location vehicle_id None ;;
  (if truthy data then store_location_data data else ret tt) ;;
  sleep 2.

Fixpoint for_each (ids : list value) (body : value -> M unit) : M unit :=
  match ids with
  | [] => ret tt
  | vehicle_id :: rest => body vehicle_id ;; for_each rest body
  end.

(** [while True] cut after [cycles] rounds: [Ok tt] means that the loop
    has completed [cycles] rounds and goes on. *)
Fixpoint while_true (cycles : nat) (ids : list value) (interval : value)
  : M unit :=
  match cycles with
  | O => ret tt
  | S n =>
      for_each ids poll_vehicle ;;
      sleep_for interval ;;
      while_true n ids interval
  end.

Inductive run_result : Type :=
| InitialLoginFailed   (* "Initial login failed. Exiting." *)
| StoppedByUser        (* except KeyboardInterrupt *)
| UnexpectedError      (* except Exception *)
| StillPolling.        (* the loop is in its next round *)

Definition config_interval (env : Env) : value :=
  match polling_interval_seconds (config env) with
  | Some s => s
  | None => VInt 300
  end.

Definition config_vehicle_ids (env : Env) : list value :=
  match vehicle_ids (config env) with
  | Some ids => ids
  | None => []
  end.

Definition run_periodic_fetch (cycles : nat) : M run_result :=
  tok <- gets access_token ;;
  started <- (if negb (truthy tok) then login_with_selenium else ret true) ;;
  if negb started then ret InitialLoginFailed
  else
    interval <- ask config_interval ;;
    ids <- ask config_vehicle_ids ;;
    fun env w =>
      match while_true cycles ids interval env w with
      | (Ok _, w') => (Ok StillPolling, w')
      | (Raise KeyboardInterrupt, w') => (Ok StoppedByUser, w')
      | (Raise (Exception _), w') => (Ok UnexpectedError, w')
      end.

(** [main]: build the tracker, then poll. *)
Definition main (cycles : nat) : M run_result :=
  init ;;
  run_periodic_fetch cycles.

(** ** Notions used to state the properties *)

(** The numbers that [new_val - old_val] works on: the numbers as
    written when both are [int]s, the binary64 numbers nearest to them
    as soon as one is a [float]; and how far apart they are. *)
Definition compared (new_val old_val : value) (x : Q) : Q :=
  if is_float new_val || is_float old_val then round64 x else x.

Definition distance (new_val old_val : value) (x y : Q) : Q :=
  Qabs (compared new_val old_val x - compared new_val old_val y).

(** Two values of a compared field that count as the same: numbers no
    further apart than the tolerance, anything else equal. *)
Definition same_field (a b : value) : Prop :=
  match num_of a, num_of b with
  | Some x, Some y => distance a b x y <= tolerance
  | _, _ => py_eq a b = true
  end.

(** Two snapshots that are the same on every compared field. *)
Definition same_snapshot (new_data old_data : dict) : Prop :=
  forall field, In field compare_fields ->
    same_field (get field new_data) (get field old_data).

(** Two snapshots that agree on every compared field but [speed]. *)
Definition differ_only_in_speed (new_data old_data : dict) : Prop :=
  forall field, In field compare_fields -> field <> "speed" ->
    get field new_data = get field old_data.

(** The snapshot a row holds in its plain columns. *)
Definition dict_of_row (r : row) : dict :=
  combine column_keys (map value_of_sql (cells r)).

(** The records of one entity, oldest first. *)
Definition history (entity : sql_value) (rows : list row) : list row :=
  filter (fun r => sql_eq (vehicle_id_of r) entity) rows.

(** Every record differs, for the detector, from the one before it. *)
Fixpoint no_consecutive_equal (h : list row) : Prop :=
  match h with
  | r1 :: ((r2 :: _) as rest) =>
      _has_data_changed (dict_of_row r2) (Some (dict_of_row r1)) = true
      /\ no_consecutive_equal rest
  | _ => True
  end.

Definition dedup_invariant (rows : list row) : Prop :=
  forall entity, no_consecutive_equal (history entity rows).

(** Every row can be read back: [other_attributes] decodes. *)
Definition readable (rows : list row) : Prop :=
  Forall (fun r => other_attributes r <> AttrGarbled) rows.

(** The declared types of the columns that the detector and the
    [WHERE] clause read: the vehicle id and the compared fields. *)
Inductive affinity : Type :=
| AffText
| AffReal
| AffInteger.

Definition declared_types : list (string * affinity) :=
  [ ("vehicleId", AffInteger);
    ("latitude", AffReal); ("longitude", AffReal); ("speed", AffReal);
    ("status", AffText); ("rpm", AffText);
    ("currentFuelConsumption", AffReal); ("totalFuelConsumption", AffReal);
    ("currentOdometer", AffReal); ("totalOdometer", AffReal);
    ("driverId", AffInteger); ("course", AffReal); ("address", AffText) ].

(** A value that SQLite stores in its column as it is bound and gives
    back as it was: [None] in any column, a string in a [TEXT] column,
    an [int] in an [INTEGER] column (a [bool] is bound as the [int] 0
    or 1), a [float] in a [REAL] column. Anything else is converted on
    its way into the table: a number in a [TEXT] column comes back as
    text, an [int] in a [REAL] column as a float, a numeric string in a
    numeric column as a number. *)
Definition fits (a : affinity) (v : value) : bool :=
  match v, a with
  | VNone, _ => true
  | VStr _, AffText => true
  | VFloat _, AffReal => true
  | VBool _, AffInteger => true
  | VInt _, AffInteger => true
  | _, _ => false
  end.

(** A snapshot whose vehicle id and compared fields have the declared
    types of their columns. *)
Definition conforming (d : dict) : bool :=
  forallb (fun ka => fits (snd ka) (get (fst ka) d)) declared_types.

(** What [json.loads(row[39]) if row[39] else {}] yields, if anything. *)
Definition attributes_of (a : attr_text) : option value :=
  match a with
  | AttrNull => Some (VDict [])
  | AttrJson v => Some v
  | AttrGarbled => None
  end.

(** What [_get_last_record] returns in world [w]. *)
Definition last_record_seen (env : Env) (w : world) (vehicle_id : value)
  : option dict :=
  match bind_param vehicle_id with
  | None => None
  | Some p =>
      if select_raises env (ticks w) then None
      else
        match last_matching p (db w) with
        | None => None
        | Some found =>
            match attributes_of (other_attributes found) with
            | Some oa => Some (dict_of_row found ++ [("otherAttributes", oa)])
            | None => None
            end
        end
  end.

(** The world after the [SELECT] of [_get_last_record]: the statement is
    run unless its parameter cannot be bound. *)
Definition after_select (w : world) (vehicle_id : value) : world :=
  match bind_param vehicle_id with
  | Some _ => tick w
  | None => w
  end.

(** The most recent record of the entity a snapshot belongs to. *)
Definition most_recent (vehicle_id : value) (rows : list row)
  : option dict :=
  match bind_param vehicle_id with
  | Some p => option_map dict_of_row (last_matching p rows)
  | None => None
  end.

(** Reading the last record of [vehicle_id] fails in world [w]: the
    [SELECT] raises, or the row found does not decode. *)
Definition read_error (env : Env) (w : world) (vehicle_id : value) : Prop :=
  select_raises env (ticks w) = true \/
  exists p found,
    bind_param vehicle_id = Some p /\
    last_matching p (db w) = Some found /\
    other_attributes found = AttrGarbled.

(** The token file as [_save_token] writes it. *)
Definition credential_file (tok : value) (saved_at : Q) : file_state :=
  Json (VDict [("access_token", tok); ("saved_at", VFloat saved_at)]).

(** The bearer token a request sent from world [w] carries. *)
Definition bearer (w : world) : option value :=
  if truthy (access_token w) then Some (access_token w) else None.

(** The remote rejects the token: 401 or 403. *)
Definition is_auth_failure (a : http_result) : bool :=
  match a with
  | Response status_code _ => Z.eqb status_code 401 || Z.eqb status_code 403
  | ConnectionError => false
  end.

(** What [fetch_vehicle_location] returns on an answer that is not an
    authentication failure. *)
Definition fetched (a : http_result) : value :=
  match a with
  | Response status_code (Some data) =>
      if Z.eqb status_code 200 then data else VNone
  | _ => VNone
  end.

(** The login of world [w] yields a token. *)
Definition login_succeeds (env : Env) (w : world) : bool :=
  match browser_login env (logins w) with
  | LocalStorage (Some s) => negb (String.eqb s EmptyString)
  | _ => false
  end.

(** The world after the pause of a login. *)
Definition paused (w : world) : world := set_clock (clock w + 3) w.

(** What the write of the token file makes of it. *)
Definition saved (written : write_result) (tok : value) (now : Q)
  (f : file_state) : file_state :=
  match written with
  | Written =>
      Json (VDict [("access_token", tok); ("saved_at", VFloat now)])
  | NotOpened => f
  | Truncated => Garbled
  end.

(** The world [login_with_selenium] leaves behind. *)
Definition after_login (env : Env) (w : world) : world :=
  match browser_login env (logins w) with
  | LoginError slept =>
      if slept then paused (count_login w) else count_login w
  | LocalStorage entry =>
      let tok := match entry with Some s => VStr s | None => VNone end in
      if truthy tok
      then set_token_file
             (saved (token_write env (S (logins w))) tok (clock w + 3)
                (token_file w))
             (set_access_token tok (paused (count_login w)))
      else set_access_token tok (paused (count_login w))
  end.

(** The tracker starts polling: a token is loaded, or the first login
    yields one. *)
Definition starts (env : Env) (w : world) : bool :=
  truthy (access_token w) || login_succeeds env w.

(** The world one iteration of the vehicle loop leaves behind. *)
Definition after_vehicle (env : Env) (w : world) (vehicle_id : value)
  : world :=
  snd (poll_vehicle vehicle_id env w).

(** A computation that Ctrl-C does not end, and one that always returns. *)
Definition no_interrupt {A : Type} (c : M A) : Prop :=
  forall env w, fst (c env w) <> Raise KeyboardInterrupt.

Definition never_raises {A : Type} (c : M A) : Prop :=
  forall env w, exists a, fst (c env w) = Ok a.

(** A computation that ends early only when Ctrl-C arrives. *)
Definition stops_only_on_interrupt (c : M unit) : Prop :=
  forall env w,
    fst (c env w) = Ok tt \/
    (fst (c env w) = Raise KeyboardInterrupt /\
     exists n, interrupted env n = true).

(** Assumptions on the surroundings. *)
Definition reads_work (env : Env) : Prop :=
  forall n, select_raises env n = false.

Definition storage_works (env : Env) : Prop :=
  forall n, insert_raises env n = false.

Definition never_interrupted (env : Env) : Prop :=
  forall n, interrupted env n = false.


(** The error kinds of the specification, read off the answer of the
    remote API ([None]: a usable answer). *)
Inductive fetch_error : Type :=
| NetworkError
| AuthError
| ParseError.

Definition classify (a : http_result) : option fetch_error :=
  match a with
  | ConnectionError => Some NetworkError
  | Response status_code body =>
      if Z.eqb status_code 200 then
        match body with
        | Some _ => None
        | None => Some ParseError
        end
      else if Z.eqb status_code 401 || Z.eqb status_code 403
      then Some AuthError
      else Some NetworkError
  end.

(** The request [fetch_vehicle_location(vehicle_id, timestamp)] sends
    first from world [w], and the answer it gets. *)
Definition request_time (w : world) (timestamp : option Z) : Z :=
  match timestamp with
  | Some t => t
  | None => py_int (clock w * 1000)
  end.

Definition first_request (w : world) (vehicle_id : value)
  (timestamp : option Z) : request :=
  mkRequest vehicle_id (request_time w timestamp) (bearer w).

Definition first_answer (env : Env) (w : world) (vehicle_id : value)
  (timestamp : option Z) : http_result :=
  remote env (first_request w vehicle_id timestamp)
    (List.length (requests w)).

(** The world after request [r] was answered 401 or 403: the request is
    on record, the token cleared, the token file removed. *)
Definition rejected (w : world) (r : request) : world :=
  set_token_file Absent (set_access_token VNone (log_request r w)).

(** ** Concrete surroundings and runs *)

Definition snapshot (vehicle_id : Z) (speed : Q) : dict :=
  [ ("vehicleId", VInt vehicle_id);
    ("latitude", VFloat 1); ("longitude", VFloat 2);
    ("speed", VFloat speed); ("status", VStr "RUNNING");
    ("otherAttributes", VDict [("ignition", VBool true)]) ].

(** A freshly built tracker without token file, at time [1000]. *)
Definition fresh_world : world := mkWorld VNone Absent [] 1000 [] 0 0.

(** A tracker holding a token. *)
Definition world_with_token (tok : string) : world :=
  mkWorld (VStr tok) (credential_file (VStr tok) 1000) [] 1000 [] 0 0.

Definition three_vehicles : Config :=
  mkConfig None (Some [VInt 1; VInt 2; VInt 3]).

Definition speed_10 (r : request) : http_result :=
  match req_vehicleId r with
  | VInt z => Response 200 (Some (VDict (snapshot z 10)))
  | _ => Response 404 None
  end.

(** All is well: every vehicle moves at speed 10, logins yield ["tok"]. *)
Definition calm : Env :=
  mkEnv three_vehicles (fun r _ => speed_10 r)
    (fun _ => LocalStorage (Some "tok"))
    (fun _ => false) (fun _ => false) (fun _ => false) 1000
    (fun _ => Written).

(** As [calm], but the [SELECT] put at tick 2 raises: with a fresh
    tracker, the one of the second [store_location_data]. *)
Definition select_fails_once : Env :=
  mkEnv three_vehicles (fun r _ => speed_10 r)
    (fun _ => LocalStorage (Some "tok"))
    (fun n => Nat.eqb n 2) (fun _ => false) (fun _ => false) 1000
    (fun _ => Written).

(** As [calm], but every [SELECT] raises. *)
Definition select_broken : Env :=
  mkEnv three_vehicles (fun r _ => speed_10 r)
    (fun _ => LocalStorage (Some "tok"))
    (fun _ => true) (fun _ => false) (fun _ => false) 1000
    (fun _ => Written).

(** As [calm], but every [INSERT] raises. *)
Definition insert_broken : Env :=
  mkEnv three_vehicles (fun r _ => speed_10 r)
    (fun _ => LocalStorage (Some "tok"))
    (fun _ => false) (fun _ => true) (fun _ => false) 1000
    (fun _ => Written).

(** As [calm], but the body sent for vehicle 2 is not JSON. *)
Definition vehicle_2_garbled : Env :=
  mkEnv three_vehicles
    (fun r _ =>
       match req_vehicleId r with
       | VInt 2 => Response 200 None
       | _ => speed_10 r
       end)
    (fun _ => LocalStorage (Some "tok"))
    (fun _ => false) (fun _ => false) (fun _ => false) 1000
    (fun _ => Written).

(** The remote accepts only the token ["fresh"], which a login yields. *)
Definition stale_token : Env :=
  mkEnv three_vehicles
    (fun r _ =>
       match req_bearer r with
       | Some (VStr "fresh") => speed_10 r
       | _ => Response 401 None
       end)
    (fun _ => LocalStorage (Some "fresh"))
    (fun _ => false) (fun _ => false) (fun _ => false) 1000
    (fun _ => Written).

(** The remote answers 401 to everything, every login yields a token,
    and [limit] nested calls are allowed. *)
Definition always_401 (limit : nat) : Env :=
  mkEnv three_vehicles (fun _ _ => Response 401 None)
    (fun _ => LocalStorage (Some "fresh"))
    (fun _ => false) (fun _ => false) (fun _ => false) limit
    (fun _ => Written).

(** The remote answers 401 and the browser login fails. *)
Definition login_broken : Env :=
  mkEnv three_vehicles (fun _ _ => Response 401 None)
    (fun _ => LoginError true)
    (fun _ => false) (fun _ => false) (fun _ => false) 1000
    (fun _ => Written).

(** The remote answers 500 to everything. *)
Definition server_down : Env :=
  mkEnv three_vehicles (fun _ _ => Response 500 None)
    (fun _ => LocalStorage (Some "tok"))
    (fun _ => false) (fun _ => false) (fun _ => false) 1000
    (fun _ => Written).

(** The body of every answer is not JSON. *)
Definition all_garbled : Env :=
  mkEnv three_vehicles (fun _ _ => Response 200 None)
    (fun _ => LocalStorage (Some "tok"))
    (fun _ => false) (fun _ => false) (fun _ => false) 1000
    (fun _ => Written).

(** The row written for vehicle 42 at speed 10. *)
Definition row_42 : row :=
  Eval vm_compute in
    match row_of_data (snapshot 42 10) with
    | Some r => r
    | None => mkRow [] AttrNull
    end.

(** The row written for vehicle 42 at speed 10.0002. *)
Definition row_42_faster : row :=
  Eval vm_compute in
    match row_of_data (snapshot 42 10.0002) with
    | Some r => r
    | None => mkRow [] AttrNull
    end.

(** The same snapshot stored twice, the second [SELECT] raising. *)
Definition stored_twice_select_fails : world :=
  snd (for_each [VDict (snapshot 42 10); VDict (snapshot 42 10)]
         store_location_data select_fails_once fresh_world).

(** A tracker whose table holds [row_42]. *)
Definition world_with_row_42 : world :=
  mkWorld (VStr "tok") Absent [row_42] 2000 [] 0 0.

(** Vehicle 42 again, the speed now missing from the snapshot. *)
Definition snapshot_without_speed : dict :=
  [ ("vehicleId", VInt 42);
    ("latitude", VFloat 1); ("longitude", VFloat 2);
    ("status", VStr "RUNNING") ].

Definition row_without_speed : row :=
  Eval vm_compute in
    match row_of_data snapshot_without_speed with
    | Some r => r
    | None => mkRow [] AttrNull
    end.

(** A token saved at time 1000, met at the given time. *)
Definition world_at (now : Q) : world :=
  mkWorld VNone (credential_file (VStr "abc") 1000) [] now [] 0 0.

(** A snapshot that names no vehicle. *)
Definition snapshot_without_id : dict :=
  [ ("latitude", VFloat 1); ("longitude", VFloat 2);
    ("speed", VFloat 10); ("status", VStr "RUNNING") ].

(** A tracker whose table holds a row for vehicle 42 with
    [other_attributes] that does not decode. *)
Definition world_with_garbled_row : world :=
  mkWorld (VStr "tok") Absent [mkRow (cells row_42) AttrGarbled] 2000 [] 0 0.


(** The scenario of the specification: vehicle 42 alone, at speed 10 in
    the first two rounds and at speed 25 from the third on. *)
Definition vehicle_42_speeds_up : Env :=
  mkEnv (mkConfig None (Some [VInt 42]))
    (fun r n =>
       if Nat.ltb n 2 then Response 200 (Some (VDict (snapshot 42 10)))
       else Response 200 (Some (VDict (snapshot 42 25))))
    (fun _ => LocalStorage (Some "tok"))
    (fun _ => false) (fun _ => false) (fun _ => false) 1000
    (fun _ => Written).

(** ** Further notions: what the operations change and keep *)

(** [c] takes every world [w] to a world related to it by [R], whether
    it returns or raises. *)
Definition satisfies {A : Type} (c : M A)
  (R : Env -> world -> world -> Prop) : Prop :=
  forall env w, R env w (snd (c env w)).

(** From [w] to [w'] the table only grew, by at most [rows] rows, the
    record of requests only grew, by at most [reqs] requests, and at most
    [logs] logins were made. *)
Definition within (rows reqs logs : nat) (w w' : world) : Prop :=
  (exists new, db w' = db w ++ new /\ (List.length new <= rows)%nat) /\
  (exists sent,
     requests w' = sent ++ requests w /\ (List.length sent <= reqs)%nat) /\
  (logins w <= logins w')%nat /\ (logins w' <= logins w + logs)%nat.

(** A token file that cannot be read as a dictionary: none, not JSON, or
    JSON that is no object. *)
Definition unreadable (f : file_state) : Prop :=
  match f with
  | Absent => True
  | Garbled => True
  | Json (VDict _) => False
  | Json _ => True
  end.

(** A request that repeats the call
    [fetch_vehicle_location(vehicle_id, timestamp)] made in world [w]
    after a login: same vehicle, same time, and the token that a login
    has read from the browser. *)
Definition retry_of (env : Env) (w : world) (vehicle_id : value)
  (timestamp : option Z) (r : request) : Prop :=
  req_vehicleId r = vehicle_id /\
  req_time r = request_time w timestamp /\
  exists n s,
    browser_login env n = LocalStorage (Some s) /\
    req_bearer r = Some (VStr s).

(** The remote never answers 401 or 403. *)
Definition never_rejects (env : Env) : Prop :=
  forall r n, is_auth_failure (remote env r n) = false.

(** Token, token file and the number of logins are those of [w]. *)
Definition keeps_session (w w' : world) : Prop :=
  access_token w' = access_token w /\ token_file w' = token_file w /\
  logins w' = logins w.

(** What [run_periodic_fetch] returns and leaves behind once the initial
    login is settled and the loop is entered in world [w]. *)
Definition polling (cycles : nat) (env : Env) (w : world)
  : outcome run_result * world :=
  match while_true cycles (config_vehicle_ids env) (config_interval env)
          env w with
  | (Ok _, w') => (Ok StillPolling, w')
  | (Raise KeyboardInterrupt, w') => (Ok StoppedByUser, w')
  | (Raise (Exception _), w') => (Ok UnexpectedError, w')
  end.

(** The token [_load_saved_token] leaves in memory. *)
Definition token_after_load (w : world) : value :=
  match token_file w with
  | Json (VDict d) =>
      match num_of (get_default "saved_at" (VInt 0) d) with
      | Some saved_time =>
          if Qlt_bool (clock w - saved_time) validity_window
          then get "access_token" d
          else VNone
      | None => get "access_token" d
      end
  | _ => access_token w
  end.

(** From [w] to [w'] the session was kept, and every request sent in
    between carried its token. *)
Definition same_session (w w' : world) : Prop :=
  keeps_session w w' /\
  exists sent,
    requests w' = sent ++ requests w /\
    Forall (fun r => req_bearer r = bearer w) sent.

(** The table can be read back and holds no two consecutive records of
    a vehicle that the detector takes for the same. *)
Definition sound_table (rows : list row) : Prop :=
  readable rows /\ dedup_invariant rows.

(** A tracker that meets the token file [f] at time [now]. *)
Definition world_with_file (f : file_state) (now : Q) : world :=
  mkWorld VNone f [] now [] 0 0.

(** Token files with a [saved_at] that is missing, and one that is no
    number. *)
Definition file_without_saved_at : file_state :=
  Json (VDict [("access_token", VStr "abc")]).

Definition file_saved_yesterday : file_state :=
  Json (VDict [("access_token", VStr "abc");
               ("saved_at", VStr "yesterday")]).

(** A snapshot whose speed is a list, which no column can take. *)
Definition snapshot_with_list : dict :=
  [ ("vehicleId", VInt 42); ("latitude", VFloat 1); ("longitude", VFloat 2);
    ("speed", VList [VInt 10]); ("status", VStr "RUNNING") ].

(** The row written for vehicle 7 at speed 10. *)
Definition row_7 : row :=
  Eval vm_compute in
    match row_of_data (snapshot 7 10) with
    | Some r => r
    | None => mkRow [] AttrNull
    end.

(** The row written for [snapshot_without_id]. *)
Definition row_without_id : row :=
  Eval vm_compute in
    match row_of_data snapshot_without_id with
    | Some r => r
    | None => mkRow [] AttrNull
    end.

(** The record the tracker of [world_with_row_42] reads for vehicle 42. *)
Definition record_42 : dict :=
  match last_record_seen calm world_with_row_42 (VInt 42) with
  | Some rec => rec
  | None => []
  end.

(** Every answer is 200 with the empty object as its body. *)
Definition empty_answers : Env :=
  mkEnv three_vehicles (fun _ _ => Response 200 (Some (VDict [])))
    (fun _ => LocalStorage (Some "tok"))
    (fun _ => false) (fun _ => false) (fun _ => false) 1000
    (fun _ => Written).

(** The time a login takes of the clock: the three seconds it sleeps
    after the form was submitted, when it gets that far; and the time
    taken by [count] logins from the one numbered [first] on. *)
Definition login_time (r : login_result) : Q :=
  match r with
  | LoginError false => 0
  | _ => 3
  end.

Fixpoint time_of_logins (env : Env) (first count : nat) : Q :=
  match count with
  | O => 0
  | S n =>
      login_time (browser_login env first) + time_of_logins env (S first) n
  end.

(** From [w] to [w'] the clock has moved by [slept] seconds of sleep in
    the polling loop and by the time of the logins made in between. *)
Definition clock_moved (env : Env) (slept : Q) (w w' : world) : Prop :=
  (logins w <= logins w')%nat /\
  clock w' ==
  clock w + slept + time_of_logins env (logins w) (logins w' - logins w).

(** A table with records of two vehicles. *)
Definition world_with_two_vehicles : world :=
  mkWorld (VStr "tok") Absent [row_7; row_42; row_7] 2000 [] 0 0.

(** As [calm], but the disk is full: every write of the token file
    breaks off. *)
Definition disk_full : Env :=
  mkEnv (config calm) (remote calm) (browser_login calm)
    (select_raises calm) (insert_raises calm) (interrupted calm)
    (recursion_limit calm) (fun _ => Truncated).

(** Every snapshot the remote sends with a 200 has a vehicle id and
    compared fields of the declared types of their columns. *)
Definition remote_conforms (env : Env) : Prop :=
  forall r n d,
    remote env r n = Response 200 (Some (VDict d)) -> conforming d = true.

(** Every value the [INSERT] takes from the snapshot can be bound. *)
Definition bindable (d : dict) : bool :=
  forallb
    (fun k =>
       match bind_param (get k d) with Some _ => true | None => false end)
    column_keys.

(** A tracker holding a token, with the given table. *)
Definition world_with_rows (rows : list row) : world :=
  mkWorld (VStr "tok") Absent rows 2000 [] 0 0.

(** The row written for vehicle 42 at the given speed. *)
Definition row_at_speed (speed : Q) : row :=
  match row_of_data (snapshot 42 speed) with
  | Some r => r
  | None => mkRow [] AttrNull
  end.

(** * Properties *)

(** ** Numbers and equality *)

Lemma Qlt_bool_iff (a b : Q) : Qlt_bool a b = true <-> a < b.
Proof.
  unfold Qlt_bool. rewrite negb_true_iff. split.
  - intros H. apply Qnot_le_lt. intros Hle.
    apply Qle_bool_iff in Hle. congruence.
  - intros H. destruct (Qle_bool b a) eqn:E; [ | reflexivity ].
    apply Qle_bool_iff in E. exfalso. exact (Qlt_not_le _ _ H E).
Qed.

Lemma Qlt_bool_false_iff (a b : Q) : Qlt_bool a b = false <-> b <= a.
Proof.
  unfold Qlt_bool. rewrite negb_false_iff. apply Qle_bool_iff.
Qed.

Lemma Qeq_bool_refl (x : Q) : Qeq_bool x x = true.
Proof. apply Qeq_bool_iff. reflexivity. Qed.

(** ** Binary64 rounding *)

Lemma pow2_pos (e : Z) : 0 < pow2 e.
Proof. apply Qpower_0_lt. reflexivity. Qed.

Lemma pow2_nonzero (e : Z) : ~ pow2 e == 0.
Proof. intros H. pose proof (pow2_pos e) as Hp. rewrite H in Hp. discriminate. Qed.

Lemma pow2_plus (a b : Z) : pow2 (a + b) == pow2 a * pow2 b.
Proof. apply Qpower_plus. discriminate. Qed.

Lemma pow2_le (a b : Z) : (a <= b)%Z -> pow2 a <= pow2 b.
Proof. intros H. apply Qpower_le_compat_l; [ exact H | discriminate ]. Qed.

Lemma pow2_lt_inv (a b : Z) : pow2 a < pow2 b -> (a < b)%Z.
Proof. intros H. apply (Qpower_lt_compat_l_inv 2); [ exact H | reflexivity ]. Qed.

Lemma pow2_inject (n : Z) : (0 <= n)%Z -> pow2 n == inject_Z (2 ^ n).
Proof. intros H. unfold pow2. rewrite (Zpower_Qpower 2 n H). reflexivity. Qed.

Lemma inject_Z_pos (z : Z) : (0 < z)%Z -> 0 < inject_Z z.
Proof. intros H. change 0 with (inject_Z 0). rewrite <- Zlt_Qlt. exact H. Qed.

Lemma binade_spec (x : Q) :
  0 < x -> pow2 (binade x) <= x /\ x < pow2 (binade x + 1).
Proof.
  intros Hx. destruct x as [n d].
  assert (Hn : (0 < n)%Z).
  { unfold Qlt in Hx. simpl in Hx. lia. }
  unfold binade. cbn [Qnum Qden].
  set (ln := Z.log2 n). set (ld := Z.log2 (Z.pos d)).
  destruct (Z.log2_spec n Hn) as [Hn1 Hn2].
  destruct (Z.log2_spec (Z.pos d) (Pos2Z.is_pos d)) as [Hd1 Hd2].
  fold ln in Hn1, Hn2. fold ld in Hd1, Hd2.
  assert (Hln : (0 <= ln)%Z) by apply Z.log2_nonneg.
  assert (Hld : (0 <= ld)%Z) by apply Z.log2_nonneg.
  assert (Hq : forall k, (0 <= k)%Z -> pow2 (k - ld) == inject_Z (2 ^ k) / inject_Z (2 ^ ld)).
  { intros k Hk. unfold pow2. rewrite Qpower_minus by discriminate.
    rewrite (Zpower_Qpower 2 k Hk), (Zpower_Qpower 2 ld Hld). reflexivity. }
  assert (Hpd : 0 < inject_Z (2 ^ ld)).
  { apply inject_Z_pos, Z.pow_pos_nonneg; lia. }
  assert (Hupper : n # d < pow2 (ln + 1 - ld)).
  { rewrite Hq by lia. apply Qlt_shift_div_l; [ exact Hpd | ].
    unfold Qlt, Qmult, inject_Z. cbn [Qnum Qden].
    rewrite Z.mul_1_r, Pos.mul_1_r.
    replace (ln + 1)%Z with (Z.succ ln) by lia.
    apply Z.le_lt_trans with (n * Z.pos d)%Z.
    - apply Z.mul_le_mono_nonneg_l; lia.
    - apply Z.mul_lt_mono_pos_r; lia. }
  assert (Hlower : pow2 (ln - (ld + 1)) <= n # d).
  { assert (Hq' : pow2 (ln - (ld + 1))
                  == inject_Z (2 ^ ln) / inject_Z (2 ^ (ld + 1))).
    { unfold pow2. rewrite Qpower_minus by discriminate.
      rewrite (Zpower_Qpower 2 ln Hln), (Zpower_Qpower 2 (ld + 1)) by lia.
      reflexivity. }
    rewrite Hq'. apply Qle_shift_div_r.
    - apply inject_Z_pos, Z.pow_pos_nonneg; lia.
    - unfold Qle, Qmult, inject_Z. cbn [Qnum Qden].
      rewrite Z.mul_1_r, Pos.mul_1_r.
      replace (ld + 1)%Z with (Z.succ ld) by lia.
      apply Z.le_trans with (n * Z.pos d)%Z.
      + apply Z.mul_le_mono_nonneg; lia.
      + apply Z.mul_le_mono_nonneg_l; lia. }
  destruct (Qle_bool (pow2 (ln - ld)) (n # d)) eqn:Htest.
  - apply Qle_bool_iff in Htest. split; [ exact Htest | ].
    replace (ln - ld + 1)%Z with (ln + 1 - ld)%Z by lia. exact Hupper.
  - split.
    + replace (ln - ld - 1)%Z with (ln - (ld + 1))%Z by lia. exact Hlower.
    + replace (ln - ld - 1 + 1)%Z with (ln - ld)%Z by lia.
      apply Qnot_le_lt. intros H. apply Qle_bool_iff in H. congruence.
Qed.

Lemma round_half_even_le (y : Q) (k : Z) :
  y <= inject_Z k -> (round_half_even y <= k)%Z.
Proof.
  intros Hy. unfold round_half_even.
  assert (Hf : (Qfloor y <= k)%Z).
  { rewrite <- (Qfloor_Z k). apply Qfloor_resp_le. exact Hy. }
  assert (Hlt : Qfloor y = k -> y - inject_Z (Qfloor y) < 1 # 2).
  { intros E. rewrite E. apply Qle_lt_trans with 0; [ | reflexivity ].
    apply (Qplus_le_l _ _ (inject_Z k)). ring_simplify. exact Hy. }
  destruct (Qcompare_spec (y - inject_Z (Qfloor y)) (1 # 2)) as [H | H | H].
  - destruct (Z.eq_dec (Qfloor y) k) as [E | E].
    + specialize (Hlt E). rewrite H in Hlt. discriminate.
    + destruct (Z.even _); lia.
  - exact Hf.
  - destruct (Z.eq_dec (Qfloor y) k) as [E | E]; [ | lia ].
    specialize (Hlt E). exfalso. apply (Qlt_irrefl (1 # 2)).
    apply Qlt_trans with (y - inject_Z (Qfloor y)); assumption.
Qed.

Lemma round_half_even_ge (y : Q) (k : Z) :
  inject_Z k <= y -> (k <= round_half_even y)%Z.
Proof.
  intros Hy. unfold round_half_even.
  assert (Hf : (k <= Qfloor y)%Z).
  { rewrite <- (Qfloor_Z k). apply Qfloor_resp_le. exact Hy. }
  destruct (Qcompare _ _); [ destruct (Z.even _) | | ]; lia.
Qed.

Lemma binary64_binade (m e : Z) :
  (2 ^ 52 <= m < 2 ^ 53)%Z ->
  pow2 (e + 52) <= binary64 m e /\ binary64 m e < pow2 (e + 53).
Proof.
  intros [Hlo Hhi]. unfold binary64.
  rewrite (Z.add_comm e 52), (Z.add_comm e 53), !pow2_plus.
  rewrite (pow2_inject 52), (pow2_inject 53) by lia.
  split.
  - apply Qmult_le_r; [ apply pow2_pos | ]. rewrite <- Zle_Qle. exact Hlo.
  - apply Qmult_lt_r; [ apply pow2_pos | ]. rewrite <- Zlt_Qlt. exact Hhi.
Qed.

Lemma scale_binary64 (m e u : Z) :
  (u <= e)%Z ->
  binary64 m e / pow2 u == inject_Z (m * 2 ^ (e - u)).
Proof.
  intros H. unfold binary64.
  replace e with ((e - u) + u)%Z at 1 by lia.
  rewrite pow2_plus, inject_Z_mult, (pow2_inject (e - u)) by lia.
  field. apply pow2_nonzero.
Qed.

(** Rounding does not pass a binary64 number: it is monotone at every
    one of them, from below and from above. *)
Lemma round64_pos_le (x : Q) (m e : Z) :
  normal64 m e -> 0 < x -> x <= binary64 m e ->
  round64_pos x <= binary64 m e.
Proof.
  intros [Hm He] Hx Hle.
  destruct (binade_spec x Hx) as [Hb _].
  destruct (binary64_binade m e Hm) as [_ Ht].
  assert (Hu : (last_place x <= e)%Z).
  { assert (binade x < e + 53)%Z.
    { apply pow2_lt_inv. eapply Qle_lt_trans; [ exact Hb | ].
      eapply Qle_lt_trans; [ exact Hle | exact Ht ]. }
    unfold last_place. lia. }
  unfold round64_pos. set (u := last_place x) in *.
  assert (Hk : (round_half_even (x / pow2 u) <= m * 2 ^ (e - u))%Z).
  { apply round_half_even_le. rewrite <- (scale_binary64 m e u Hu).
    apply Qmult_le_r; [ apply Qinv_lt_0_compat, pow2_pos | exact Hle ]. }
  apply Qle_trans with (inject_Z (m * 2 ^ (e - u)) * pow2 u).
  - apply Qmult_le_r; [ apply pow2_pos | ]. rewrite <- Zle_Qle. exact Hk.
  - rewrite <- (scale_binary64 m e u Hu). 
    apply Qle_lteq. right. field. apply pow2_nonzero.
Qed.

Lemma round64_pos_ge (x : Q) (m e : Z) :
  normal64 m e -> binary64 m e <= x ->
  binary64 m e <= round64_pos x.
Proof.
  intros [Hm He] Hle.
  destruct (binary64_binade m e Hm) as [Ht1 Ht2].
  assert (Hx : 0 < x).
  { eapply Qlt_le_trans; [ | exact Hle ].
    eapply Qlt_le_trans; [ apply (pow2_pos (e + 52)) | exact Ht1 ]. }
  destruct (binade_spec x Hx) as [Hb1 Hb2].
  assert (Hbe : (e + 52 <= binade x)%Z).
  { assert (e + 52 < binade x + 1)%Z; [ | lia ].
    apply pow2_lt_inv. eapply Qle_lt_trans; [ exact Ht1 | ].
    eapply Qle_lt_trans; [ exact Hle | exact Hb2 ]. }
  assert (Hu : last_place x = (binade x - 52)%Z).
  { unfold last_place. lia. }
  unfold round64_pos. rewrite Hu. set (u := (binade x - 52)%Z).
  destruct (Z.eq_dec u e) as [E | E].
  - assert (Hk : (m <= round_half_even (x / pow2 u))%Z).
    { apply round_half_even_ge.
      apply Qle_shift_div_l; [ apply pow2_pos | ].
      rewrite E. exact Hle. }
    rewrite <- E. unfold binary64.
    apply Qmult_le_r; [ apply pow2_pos | ]. rewrite <- Zle_Qle. exact Hk.
  - assert (Hk : (2 ^ 52 <= round_half_even (x / pow2 u))%Z).
    { apply round_half_even_ge.
      apply Qle_shift_div_l; [ apply pow2_pos | ].
      rewrite <- (pow2_inject 52), <- pow2_plus by lia.
      replace (52 + u)%Z with (binade x) by (unfold u; lia). exact Hb1. }
    apply Qle_trans with (pow2 (e + 53)); [ apply Qlt_le_weak, Ht2 | ].
    apply Qle_trans with (inject_Z (2 ^ 52) * pow2 u).
    + rewrite <- (pow2_inject 52), <- pow2_plus by lia.
      apply pow2_le. unfold u in *. lia.
    + apply Qmult_le_r; [ apply pow2_pos | ]. rewrite <- Zle_Qle. exact Hk.
Qed.

Lemma round64_pos_nonneg (x : Q) : 0 < x -> 0 <= round64_pos x.
Proof.
  intros Hx. unfold round64_pos.
  apply Qmult_le_0_compat; [ | apply Qlt_le_weak, pow2_pos ].
  change 0 with (inject_Z 0). rewrite <- Zle_Qle.
  apply round_half_even_ge. simpl.
  apply Qle_shift_div_l; [ apply pow2_pos | ].
  rewrite Qmult_0_l. apply Qlt_le_weak, Hx.
Qed.

Lemma Qabs_round64 (d : Q) :
  Qabs (round64 d)
  == match d ?= 0 with
     | Eq => 0
     | Gt => round64_pos d
     | Lt => round64_pos (- d)
     end.
Proof.
  unfold round64. destruct (Qcompare_spec d 0) as [H | H | H].
  - reflexivity.
  - rewrite Qabs_opp. apply Qabs_pos, round64_pos_nonneg.
    apply (Qopp_lt_compat d 0) in H. exact H.
  - apply Qabs_pos, round64_pos_nonneg. exact H.
Qed.

Lemma Qabs_round64_le (d : Q) (m e : Z) :
  normal64 m e -> Qabs d <= binary64 m e ->
  Qabs (round64 d) <= binary64 m e.
Proof.
  intros Hn Hd. rewrite Qabs_round64.
  assert (Hpos : 0 < binary64 m e).
  { destruct Hn as [Hm _]. destruct (binary64_binade m e Hm) as [H _].
    eapply Qlt_le_trans; [ apply (pow2_pos (e + 52)) | exact H ]. }
  destruct (Qcompare_spec d 0) as [H | H | H].
  - apply Qlt_le_weak, Hpos.
  - apply round64_pos_le; [ exact Hn | | ].
    + apply (Qopp_lt_compat d 0) in H. exact H.
    + rewrite <- (Qabs_neg d); [ exact Hd | apply Qlt_le_weak, H ].
  - apply round64_pos_le; [ exact Hn | exact H | ].
    rewrite <- (Qabs_pos d); [ exact Hd | apply Qlt_le_weak, H ].
Qed.

Lemma Qabs_round64_ge (d : Q) (m e : Z) :
  normal64 m e -> binary64 m e <= Qabs d ->
  binary64 m e <= Qabs (round64 d).
Proof.
  intros Hn Hd. rewrite Qabs_round64.
  assert (Hpos : 0 < binary64 m e).
  { destruct Hn as [Hm _]. destruct (binary64_binade m e Hm) as [H _].
    eapply Qlt_le_trans; [ apply (pow2_pos (e + 52)) | exact H ]. }
  destruct (Qcompare_spec d 0) as [H | H | H].
  - exfalso. rewrite H in Hd. apply (Qlt_not_le _ _ Hpos). exact Hd.
  - apply round64_pos_ge; [ exact Hn | ].
    rewrite <- (Qabs_neg d); [ exact Hd | apply Qlt_le_weak, H ].
  - apply round64_pos_ge; [ exact Hn | ].
    rewrite <- (Qabs_pos d); [ exact Hd | apply Qlt_le_weak, H ].
Qed.

Lemma round_half_even_error (y : Q) :
  Qabs (inject_Z (round_half_even y) - y) <= 1 # 2.
Proof.
  unfold round_half_even.
  pose proof (Qfloor_le y) as Hlo. pose proof (Qlt_floor y) as Hhi.
  rewrite inject_Z_plus in Hhi. change (inject_Z 1) with 1 in Hhi.
  apply Qabs_Qle_condition.
  destruct (Qcompare_spec (y - inject_Z (Qfloor y)) (1 # 2)) as [H | H | H].
  - destruct (Z.even _);
      [ | rewrite inject_Z_plus; change (inject_Z 1) with 1 ]; split; lra.
  - split; lra.
  - rewrite inject_Z_plus. change (inject_Z 1) with 1. split; lra.
Qed.

Lemma pow2_half (u : Z) : (1 # 2) * pow2 u == pow2 (u - 1).
Proof.
  replace (u - 1)%Z with (u + - 1)%Z by lia. rewrite pow2_plus.
  change (pow2 (- 1)) with (/ 2). field.
Qed.

(** Rounding moves a number by half a last place at most. *)
Lemma round64_pos_error (x : Q) :
  0 < x -> Qabs (round64_pos x - x) <= x * pow2 (- 53) + pow2 (- 1075).
Proof.
  intros Hx. destruct (binade_spec x Hx) as [Hb _].
  unfold round64_pos. set (u := last_place x).
  set (y := x / pow2 u).
  assert (E : inject_Z (round_half_even y) * pow2 u - x
              == (inject_Z (round_half_even y) - y) * pow2 u).
  { unfold y. field. apply pow2_nonzero. }
  rewrite E, Qabs_Qmult, (Qabs_pos (pow2 u)) by apply Qlt_le_weak, pow2_pos.
  apply Qle_trans with ((1 # 2) * pow2 u).
  { apply Qmult_le_r; [ apply pow2_pos | apply round_half_even_error ]. }
  rewrite pow2_half.
  assert (Hp : 0 <= x * pow2 (- 53)).
  { apply Qmult_le_0_compat; apply Qlt_le_weak; [ exact Hx | apply pow2_pos ]. }
  pose proof (pow2_pos (- 1075)) as Hq.
  unfold u, last_place.
  destruct (Z.max_spec (binade x - 52) (- 1074)) as [[_ ->] | [_ ->]].
  - change (- 1074 - 1)%Z with (- 1075)%Z. lra.
  - replace (binade x - 52 - 1)%Z with (binade x + - 53)%Z by lia.
    rewrite pow2_plus.
    apply Qle_trans with (x * pow2 (- 53)); [ | lra ].
    apply Qmult_le_r; [ apply pow2_pos | exact Hb ].
Qed.

Lemma round64_error (x : Q) :
  Qabs (round64 x - x) <= Qabs x * pow2 (- 53) + pow2 (- 1075).
Proof.
  unfold round64. destruct (Qcompare_spec x 0) as [H | H | H].
  - rewrite H. vm_compute. discriminate.
  - assert (Hn : 0 < - x) by lra.
    rewrite (Qabs_neg x) by lra.
    assert (E : - round64_pos (- x) - x == - (round64_pos (- x) - - x))
      by ring.
    rewrite E, Qabs_opp. apply round64_pos_error. exact Hn.
  - rewrite (Qabs_pos x) by lra. apply round64_pos_error. exact H.
Qed.

(** The distance of two rounded numbers against the distance of the
    numbers as written. *)
Lemma rounded_distance (x y : Q) :
  Qabs x <= inject_Z (2 ^ 36) -> Qabs y <= inject_Z (2 ^ 36) ->
  Qabs (round64 x - round64 y) <= Qabs (x - y) + (16 # 1000000) /\
  Qabs (x - y) - (16 # 1000000) <= Qabs (round64 x - round64 y).
Proof.
  intros Hx Hy.
  pose proof (round64_error x) as Ex. pose proof (round64_error y) as Ey.
  assert (Hs : inject_Z (2 ^ 36) * pow2 (- 53) + pow2 (- 1075) <= 8 # 1000000).
  { vm_compute. discriminate. }
  assert (Ex' : Qabs (round64 x - x) <= 8 # 1000000).
  { eapply Qle_trans; [ exact Ex | ]. eapply Qle_trans; [ | exact Hs ].
    apply Qplus_le_l. apply Qmult_le_r; [ apply pow2_pos | exact Hx ]. }
  assert (Ey' : Qabs (round64 y - y) <= 8 # 1000000).
  { eapply Qle_trans; [ exact Ey | ]. eapply Qle_trans; [ | exact Hs ].
    apply Qplus_le_l. apply Qmult_le_r; [ apply pow2_pos | exact Hy ]. }
  apply Qabs_Qle_condition in Ex'. apply Qabs_Qle_condition in Ey'.
  split.
  - apply Qabs_case; intros ?; apply Qabs_case; intros ?; lra.
  - apply Qabs_case; intros ?; apply Qabs_case; intros ?; lra.
Qed.

Lemma round64_zero (d : Q) : d == 0 -> round64 d = 0.
Proof. intros H. unfold round64. apply Qeq_alt in H. rewrite H. reflexivity. Qed.

Lemma tolerance_binary64 : tolerance == binary64 7378697629483821 (- 66).
Proof. vm_compute. reflexivity. Qed.

Lemma tolerance_normal : normal64 7378697629483821 (- 66).
Proof. unfold normal64. lia. Qed.

Lemma tolerance_next_normal : normal64 7378697629483822 (- 66).
Proof. unfold normal64. lia. Qed.

Lemma tolerance_lt_next : tolerance < tolerance_next.
Proof. vm_compute. reflexivity. Qed.

Lemma tolerance_above_literal : 1 # 10000 < tolerance.
Proof. vm_compute. reflexivity. Qed.

Lemma tolerance_pos : 0 <= tolerance.
Proof. vm_compute. discriminate. Qed.

Lemma py_sub_self (v : value) (x : Q) : Qabs (py_sub v v x x) <= tolerance.
Proof.
  unfold py_sub.
  assert (E : forall y, Qabs (y - y) <= tolerance).
  { intros y. assert (E : y - y == 0) by ring.
    rewrite E. apply tolerance_pos. }
  destruct (is_float v || is_float v); [ | apply E ].
  rewrite round64_zero by ring. apply tolerance_pos.
Qed.

(** The rounded difference does not pass the tolerance, which is a
    binary64 number, nor the binary64 number after it. *)
Lemma rounded_difference_within (x y : Q) :
  Qabs (x - y) <= tolerance -> Qabs (round64 (x - y)) <= tolerance.
Proof.
  rewrite tolerance_binary64. apply Qabs_round64_le, tolerance_normal.
Qed.

Lemma rounded_difference_beyond (x y : Q) :
  tolerance_next <= Qabs (x - y) -> tolerance < Qabs (round64 (x - y)).
Proof.
  intros H. eapply Qlt_le_trans; [ apply tolerance_lt_next | ].
  apply Qabs_round64_ge; [ apply tolerance_next_normal | exact H ].
Qed.

(** Induction on values that goes through lists and dictionaries. *)
Lemma value_nested_ind (P : value -> Prop)
  (HNone : P VNone)
  (HBool : forall b, P (VBool b))
  (HInt : forall z, P (VInt z))
  (HFloat : forall q, P (VFloat q))
  (HStr : forall s, P (VStr s))
  (HList : forall l, Forall P l -> P (VList l))
  (HDict : forall kvs, Forall (fun kv => P (snd kv)) kvs -> P (VDict kvs)) :
  forall v, P v.
Proof.
  fix IH 1. intros [ | b | z | q | s | l | kvs ].
  - exact HNone.
  - apply HBool.
  - apply HInt.
  - apply HFloat.
  - apply HStr.
  - apply HList. induction l as [ | x l IHl ]; constructor.
    + apply IH.
    + exact IHl.
  - apply HDict. induction kvs as [ | [k x] kvs IHkvs ]; constructor.
    + apply IH.
    + exact IHkvs.
Qed.

Lemma dict_lookup_app_fresh (k : string) (pre rest : dict) :
  existsb (String.eqb k) (map fst pre) = false ->
  dict_lookup k (pre ++ rest) = dict_lookup k rest.
Proof.
  induction pre as [ | [k' v'] pre IH ]; simpl; intros H.
  - reflexivity.
  - apply orb_false_iff in H. destruct H as [Hk Hrest].
    rewrite Hk. apply IH. exact Hrest.
Qed.

(** An object is equal to itself. *)
Lemma py_eq_refl : forall v, py_eq v v = true.
Proof.
  induction v as [ | b | z | q | s | l IHl | kvs IHkvs ]
    using value_nested_ind; cbn [py_eq py_num num_of].
  - reflexivity.
  - apply Qeq_bool_refl.
  - apply Qeq_bool_refl.
  - apply Qeq_bool_refl.
  - apply String.eqb_refl.
  - induction IHl as [ | x l Hx _ IH ]; [ reflexivity | ].
    rewrite Hx. exact IH.
  - rewrite Nat.eqb_refl. simpl.
    enough (G : forall pre rest,
               Forall (fun kv => py_eq (snd kv) (snd kv) = true) rest ->
               kvs = (pre ++ rest) ->
               (fix items_in (seen : list string)
                    (kvs0 : list (string * value)) {struct kvs0} : bool :=
                  match kvs0 with
                  | [] => true
                  | (k, v) :: rest0 =>
                      (if existsb (String.eqb k) seen then true
                       else match dict_lookup k kvs with
                            | Some v' => py_eq v v'
                            | None => false
                            end)
                      && items_in (k :: seen) rest0
                  end) (rev (map fst pre)) rest = true).
    { apply (G [] kvs IHkvs). reflexivity. }
    intros pre rest Hrest. revert pre.
    induction Hrest as [ | [k v] rest Hv _ IH ]; intros pre E.
    + reflexivity.
    + apply andb_true_iff. split.
      * destruct (existsb (String.eqb k) (rev (map fst pre))) eqn:Hseen;
          [ reflexivity | ].
        assert (Hfresh : existsb (String.eqb k) (map fst pre) = false).
        { destruct (existsb (String.eqb k) (map fst pre)) eqn:E2;
            [ | reflexivity ].
          apply existsb_exists in E2. destruct E2 as [x [Hin Hx]].
          assert (Hex : existsb (String.eqb k) (rev (map fst pre)) = true).
          { apply existsb_exists. exists x. split; [ | exact Hx ].
            apply in_rev. rewrite rev_involutive. exact Hin. }
          congruence. }
        rewrite E, (dict_lookup_app_fresh _ _ _ Hfresh). simpl.
        rewrite String.eqb_refl. exact Hv.
      * specialize (IH (pre ++ [(k, v)])).
        rewrite map_app, rev_app_distr in IH. simpl in IH.
        apply IH. rewrite <- app_assoc. exact E.
Qed.

(** ** The change detector *)

(** Numbers that are no further apart than the tolerance are not
    reported, numbers at least the next binary64 number apart are. *)
Lemma distance_within (a b : value) (x y : Q) :
  distance a b x y <= tolerance ->
  Qlt_bool tolerance (Qabs (py_sub a b x y)) = false.
Proof.
  unfold distance, compared, py_sub. intros H. apply Qlt_bool_false_iff.
  destruct (is_float a || is_float b).
  - apply rounded_difference_within. exact H.
  - exact H.
Qed.

Lemma distance_beyond (a b : value) (x y : Q) :
  tolerance_next <= distance a b x y ->
  Qlt_bool tolerance (Qabs (py_sub a b x y)) = true.
Proof.
  unfold distance, compared, py_sub. intros H. apply Qlt_bool_iff.
  destruct (is_float a || is_float b).
  - apply rounded_difference_beyond. exact H.
  - eapply Qlt_le_trans; [ apply tolerance_lt_next | exact H ].
Qed.

(** Numbers of moderate size that are written no more than [0.00008]
    apart are no further apart than the tolerance when rounded, and
    numbers written at least [0.00012] apart are beyond it. *)
Lemma distance_near (a b : value) (x y : Q) :
  Qabs x <= inject_Z (2 ^ 36) -> Qabs y <= inject_Z (2 ^ 36) ->
  Qabs (x - y) <= 8 # 100000 ->
  distance a b x y <= tolerance.
Proof.
  intros Hx Hy Hnear. unfold distance, compared.
  assert (Ht : (8 # 100000) + (16 # 1000000) <= tolerance).
  { vm_compute. discriminate. }
  destruct (is_float a || is_float b).
  - destruct (rounded_distance x y Hx Hy) as [Hup _]. lra.
  - lra.
Qed.

Lemma distance_far (a b : value) (x y : Q) :
  Qabs x <= inject_Z (2 ^ 36) -> Qabs y <= inject_Z (2 ^ 36) ->
  12 # 100000 <= Qabs (x - y) ->
  tolerance_next <= distance a b x y.
Proof.
  intros Hx Hy Hfar. unfold distance, compared.
  assert (Ht : tolerance_next <= (12 # 100000) - (16 # 1000000)).
  { vm_compute. discriminate. }
  destruct (is_float a || is_float b).
  - destruct (rounded_distance x y Hx Hy) as [_ Hlow]. lra.
  - lra.
Qed.

Lemma same_field_unchanged (a b : value) :
  same_field a b -> field_changed a b = false.
Proof.
  unfold field_changed, same_field.
  destruct (num_of a) as [x | ], (num_of b) as [y | ];
    try (intros ->; reflexivity).
  apply distance_within.
Qed.

Lemma field_changed_refl (v : value) : field_changed v v = false.
Proof.
  unfold field_changed.
  destruct (num_of v) as [x | ].
  - apply Qlt_bool_false_iff, py_sub_self.
  - rewrite py_eq_refl. reflexivity.
Qed.

Lemma same_field_refl (v : value) : same_field v v.
Proof.
  unfold same_field, distance.
  destruct (num_of v) as [x | ]; [ | apply py_eq_refl ].
  assert (E : compared v v x - compared v v x == 0) by ring.
  rewrite E. apply tolerance_pos.
Qed.

Lemma field_changed_numbers (a b : value) (x y : Q) :
  num_of a = Some x -> num_of b = Some y ->
  field_changed a b = Qlt_bool tolerance (Qabs (py_sub a b x y)).
Proof. intros Ha Hb. unfold field_changed. rewrite Ha, Hb. reflexivity. Qed.

Lemma field_changed_not_numbers (a b : value) :
  is_number a = false \/ is_number b = false ->
  field_changed a b = negb (py_eq a b).
Proof.
  unfold field_changed, is_number.
  destruct (num_of a), (num_of b); intros [H | H];
    try discriminate; reflexivity.
Qed.

(** A number is never equal to [None], a string, a list or a dictionary. *)
Lemma py_eq_number_other (a b : value) :
  is_number a = true -> is_number b = false ->
  py_eq a b = false /\ py_eq b a = false.
Proof.
  unfold is_number.
  destruct a; simpl; try discriminate; destruct b; simpl;
    try discriminate; intros _ _; split; reflexivity.
Qed.

Lemma any_field_changed_false_iff (fields : list string) (new old : dict) :
  any_field_changed fields new old = false <->
  forall f, In f fields -> field_changed (get f new) (get f old) = false.
Proof.
  induction fields as [ | f fields IH ]; simpl.
  - split; [ intros _ f [] | reflexivity ].
  - destruct (field_changed (get f new) (get f old)) eqn:E.
    + split; [ discriminate | ].
      intros H. rewrite <- E. apply H. left. reflexivity.
    + rewrite IH. split.
      * intros H g [<- | Hg]; [ exact E | apply H, Hg ].
      * intros H g Hg. apply H. right. exact Hg.
Qed.

Lemma any_field_changed_true (fields : list string) (new old : dict) f :
  In f fields -> field_changed (get f new) (get f old) = true ->
  any_field_changed fields new old = true.
Proof.
  intros Hin Hf.
  destruct (any_field_changed fields new old) eqn:E; [ reflexivity | ].
  rewrite any_field_changed_false_iff in E.
  rewrite (E f Hin) in Hf. discriminate.
Qed.

Lemma same_snapshot_unchanged (new old : dict) :
  same_snapshot new old -> _has_data_changed new (Some old) = false.
Proof.
  unfold _has_data_changed, same_snapshot. intros H.
  apply any_field_changed_false_iff.
  intros f Hf. apply same_field_unchanged, H, Hf.
Qed.

(** The detector only looks at the compared fields. *)
Lemma any_field_changed_ext (fields : list string) (new new' old old' : dict) :
  (forall f, In f fields ->
     field_changed (get f new) (get f old)
     = field_changed (get f new') (get f old')) ->
  any_field_changed fields new old = any_field_changed fields new' old'.
Proof.
  induction fields as [ | f fields IH ]; simpl; intros H.
  - reflexivity.
  - rewrite (H f (or_introl eq_refl)), IH; [ reflexivity | ].
    intros g Hg. apply H. right. exact Hg.
Qed.

(** [round64] and the detector of the model agree with the binary64
    arithmetic of the machine on the literal [0.0001], on the two
    instances of the specification and at the boundary. *)
Example tolerance_instances_in_binary64 :
  is_float_value 0.0001%float tolerance = true /\
  is_float_value 77.5946%float (round64 77.5946) = true /\
  is_float_value (77.5946 - 77.5945)%float
    (py_sub (VFloat 77.5946) (VFloat 77.5945) 77.5946 77.5945) = true /\
  is_float_value (10.00005 - 10)%float
    (py_sub (VFloat 10.00005) (VFloat 10) 10.00005 10) = true /\
  is_float_value (1e-320)%float (round64 (1 # 10 ^ 320)) = true /\
  binary64_changed 10.00005%float 10%float = false /\
  field_changed (VFloat 10.00005) (VFloat 10) = false /\
  binary64_changed 10.0002%float 10%float = true /\
  field_changed (VFloat 10.0002) (VFloat 10) = true /\
  binary64_changed 0.0002%float 0.0001%float = false /\
  field_changed (VFloat 0.0002) (VFloat 0.0001) = false.
Proof. repeat split; vm_compute; reflexivity. Qed.

(** ** The history table *)

Lemma sql_eq_sym (a b : sql_value) : sql_eq a b = sql_eq b a.
Proof.
  destruct a, b; simpl; try reflexivity.
  - apply eq_true_iff_eq. rewrite !Qeq_bool_iff.
    split; intros H; symmetry; exact H.
  - apply eq_true_iff_eq. rewrite !Qeq_bool_iff.
    split; intros H; symmetry; exact H.
  - apply eq_true_iff_eq. rewrite !Qeq_bool_iff.
    split; intros H; symmetry; exact H.
  - apply eq_true_iff_eq. rewrite !Qeq_bool_iff.
    split; intros H; symmetry; exact H.
  - apply String.eqb_sym.
Qed.

Lemma sql_eq_trans (a b c : sql_value) :
  sql_eq a b = true -> sql_eq b c = true -> sql_eq a c = true.
Proof.
  destruct a, b, c; simpl; try discriminate;
    try (rewrite !Qeq_bool_iff; intros H1 H2; rewrite H1; exact H2).
  rewrite !String.eqb_eq. congruence.
Qed.

(** Two parameters that SQL takes for equal select the same rows. *)
Lemma sql_eq_same_rows (p e c : sql_value) :
  sql_eq p e = true -> sql_eq c p = sql_eq c e.
Proof.
  intros H. apply eq_true_iff_eq. split; intros Hc.
  - exact (sql_eq_trans _ _ _ Hc H).
  - rewrite sql_eq_sym in H. exact (sql_eq_trans _ _ _ Hc H).
Qed.

Lemma history_same_entity (p e : sql_value) (rows : list row) :
  sql_eq p e = true -> history p rows = history e rows.
Proof.
  intros H. unfold history. apply filter_ext.
  intros r. apply sql_eq_same_rows. exact H.
Qed.

Lemma last_matching_same_entity (p e : sql_value) (rows : list row) :
  sql_eq p e = true -> last_matching p rows = last_matching e rows.
Proof.
  intros H. unfold last_matching.
  induction (rev rows) as [ | r l IH ]; simpl.
  - reflexivity.
  - rewrite (sql_eq_same_rows _ _ _ H), IH. reflexivity.
Qed.

Lemma history_snoc (e : sql_value) (rows : list row) (r : row) :
  history e (rows ++ [r]) =
  history e rows ++ (if sql_eq (vehicle_id_of r) e then [r] else []).
Proof. unfold history. rewrite filter_app. reflexivity. Qed.

Lemma last_matching_snoc (p : sql_value) (rows : list row) (r : row) :
  last_matching p (rows ++ [r]) =
  if sql_eq (vehicle_id_of r) p then Some r else last_matching p rows.
Proof. unfold last_matching. rewrite rev_app_distr. reflexivity. Qed.

Lemma last_matching_none (p : sql_value) (rows : list row) :
  last_matching p rows = None -> history p rows = [].
Proof.
  induction rows as [ | r rows IH ] using rev_ind; intros H.
  - reflexivity.
  - rewrite last_matching_snoc in H. rewrite history_snoc.
    destruct (sql_eq (vehicle_id_of r) p); [ discriminate | ].
    rewrite (IH H). reflexivity.
Qed.

Lemma last_matching_some (p : sql_value) (rows : list row) (found : row) :
  last_matching p rows = Some found ->
  exists h, history p rows = h ++ [found].
Proof.
  induction rows as [ | r rows IH ] using rev_ind; intros H.
  - discriminate.
  - rewrite last_matching_snoc in H. rewrite history_snoc.
    destruct (sql_eq (vehicle_id_of r) p).
    + injection H as <-. exists (history p rows). reflexivity.
    + destruct (IH H) as [h Hh]. exists h. rewrite Hh, app_nil_r. reflexivity.
Qed.

Lemma last_matching_in (p : sql_value) (rows : list row) (found : row) :
  last_matching p rows = Some found -> In found rows.
Proof.
  unfold last_matching. intros H. apply find_some in H.
  apply in_rev. exact (proj1 H).
Qed.

Lemma no_consecutive_equal_snoc (h : list row) (a b : row) :
  no_consecutive_equal (h ++ [a]) ->
  _has_data_changed (dict_of_row b) (Some (dict_of_row a)) = true ->
  no_consecutive_equal ((h ++ [a]) ++ [b]).
Proof.
  induction h as [ | x h IH ]; intros Hh Hb.
  - simpl. auto.
  - destruct h as [ | y h ].
    + simpl in *. destruct Hh as [Hxa _]. auto.
    + change (no_consecutive_equal (x :: ((y :: h) ++ [a]) ++ [b])).
      change (no_consecutive_equal (x :: (y :: h) ++ [a])) in Hh.
      simpl in Hh. destruct Hh as [Hxy Hrest].
      simpl. split; [ exact Hxy | ].
      apply IH; assumption.
Qed.

(** ** Writing a snapshot and reading it back *)

Lemma bind_all_lookup (g : string -> value) (keys : list string) :
  forall cs, bind_all (map g keys) = Some cs ->
  forall f, In f keys ->
  exists c, bind_param (g f) = Some c /\
            dict_lookup f (combine keys (map value_of_sql cs))
            = Some (value_of_sql c).
Proof.
  induction keys as [ | k keys IH ]; simpl; intros cs Hcs f Hf.
  - contradiction.
  - destruct (bind_param (g k)) as [c | ] eqn:Hk; [ | discriminate ].
    destruct (bind_all (map g keys)) as [cs' | ] eqn:Hrest; [ | discriminate ].
    injection Hcs as <-. simpl.
    destruct (String.eqb f k) eqn:E.
    + apply String.eqb_eq in E. subst f. exists c. auto.
    + apply IH; [ reflexivity | ].
      destruct Hf as [-> | Hf]; [ | exact Hf ].
      rewrite String.eqb_refl in E. discriminate.
Qed.

Lemma bind_all_nth (vs : list value) :
  forall cs, bind_all vs = Some cs ->
  forall i, (i < List.length vs)%nat ->
  bind_param (nth i vs VNone) = Some (nth i cs SNull).
Proof.
  induction vs as [ | v vs IH ]; simpl; intros cs Hcs i Hi.
  - lia.
  - destruct (bind_param v) as [c | ] eqn:Hv; [ | discriminate ].
    destruct (bind_all vs) as [cs' | ] eqn:Hrest; [ | discriminate ].
    injection Hcs as <-. destruct i as [ | i ]; simpl.
    + exact Hv.
    + apply IH; [ reflexivity | lia ].
Qed.

Lemma row_vehicle_id (d : dict) (r : row) :
  row_of_data d = Some r ->
  bind_param (get "vehicleId" d) = Some (vehicle_id_of r).
Proof.
  unfold row_of_data.
  destruct (bind_all (map (fun k => get k d) column_keys)) as [cs | ] eqn:E;
    [ | discriminate ].
  intros H. injection H as <-.
  apply (bind_all_nth _ _ E 2%nat). simpl. lia.
Qed.

Lemma row_attributes (d : dict) (r : row) :
  row_of_data d = Some r -> other_attributes r <> AttrGarbled.
Proof.
  unfold row_of_data.
  destruct (bind_all (map (fun k => get k d) column_keys)); [ | discriminate ].
  intros H. injection H as <-. discriminate.
Qed.

(** A value read back from a column is, for the detector, the value that
    was written. *)
Lemma field_changed_roundtrip (v x : value) (c : sql_value) :
  bind_param v = Some c ->
  field_changed (value_of_sql c) x = field_changed v x /\
  field_changed x (value_of_sql c) = field_changed x v.
Proof.
  destruct v as [ | b | z | q | s | l | kvs ]; simpl; intros H;
    try discriminate.
  - injection H as <-. auto.
  - injection H as <-. destruct b, x; auto.
  - destruct (_ && _)%bool; [ | discriminate ]. injection H as <-. auto.
  - injection H as <-. auto.
  - injection H as <-. auto.
Qed.

Lemma compare_fields_are_columns (f : string) :
  In f compare_fields -> In f column_keys.
Proof.
  intros H. simpl in H.
  repeat (destruct H as [<- | H]; [ vm_compute; tauto | ]).
  contradiction.
Qed.

Lemma compare_fields_not_attributes (f : string) :
  In f compare_fields -> f <> "otherAttributes".
Proof.
  intros H. simpl in H.
  repeat (destruct H as [<- | H]; [ discriminate | ]).
  contradiction.
Qed.

Lemma row_roundtrip (d : dict) (r : row) (f : string) :
  row_of_data d = Some r -> In f column_keys ->
  exists c, bind_param (get f d) = Some c /\
            get f (dict_of_row r) = value_of_sql c.
Proof.
  unfold row_of_data.
  destruct (bind_all (map (fun k => get k d) column_keys)) as [cs | ] eqn:E;
    [ | discriminate ].
  intros H Hf. injection H as <-.
  destruct (bind_all_lookup (fun k => get k d) column_keys cs E f Hf)
    as [c [Hc Hl]].
  exists c. split; [ exact Hc | ].
  unfold dict_of_row, get at 1, get_default. simpl cells.
  rewrite Hl. reflexivity.
Qed.

(** The row written for a snapshot is, for the detector, that snapshot. *)
Lemma changed_row_of_data_new (d : dict) (r : row) (old : option dict) :
  row_of_data d = Some r ->
  _has_data_changed (dict_of_row r) old = _has_data_changed d old.
Proof.
  intros Hr. destruct old as [old | ]; [ | reflexivity ].
  unfold _has_data_changed. apply any_field_changed_ext. intros f Hf.
  destruct (row_roundtrip d r f Hr (compare_fields_are_columns f Hf))
    as [c [Hc Hg]].
  rewrite Hg. apply (field_changed_roundtrip _ _ _ Hc).
Qed.

Lemma changed_row_of_data_old (d new : dict) (r : row) :
  row_of_data d = Some r ->
  _has_data_changed new (Some (dict_of_row r))
  = _has_data_changed new (Some d).
Proof.
  intros Hr. unfold _has_data_changed. apply any_field_changed_ext. intros f Hf.
  destruct (row_roundtrip d r f Hr (compare_fields_are_columns f Hf))
    as [c [Hc Hg]].
  rewrite Hg. apply (field_changed_roundtrip _ _ _ Hc).
Qed.

Lemma get_app_other (f k : string) (v : value) (d : dict) :
  f <> k -> get f (d ++ [(k, v)]) = get f d.
Proof.
  intros Hfk. unfold get, get_default.
  induction d as [ | [k' v'] d IH ]; simpl.
  - destruct (String.eqb f k) eqn:E; [ | reflexivity ].
    apply String.eqb_eq in E. contradiction.
  - destruct (String.eqb f k'); [ reflexivity | exact IH ].
Qed.

(** The detector does not look at [otherAttributes]. *)
Lemma changed_ignores_attributes (new old : dict) (oa : value) :
  _has_data_changed new (Some (old ++ [("otherAttributes", oa)]))
  = _has_data_changed new (Some old).
Proof.
  unfold _has_data_changed. apply any_field_changed_ext. intros f Hf.
  rewrite (get_app_other _ _ _ _ (compare_fields_not_attributes f Hf)).
  reflexivity.
Qed.

(** ** What the storage operations compute *)

Lemma get_last_record_run (env : Env) (w : world) (vehicle_id : value) :
  _get_last_record vehicle_id env w
  = (Ok (last_record_seen env w vehicle_id), after_select w vehicle_id).
Proof.
  unfold _get_last_record, execute_select, last_record_seen, after_select,
    try_except, bind, consult, gets, ret, raise.
  destruct (bind_param vehicle_id) as [p | ]; [ | reflexivity ].
  destruct (select_raises env (ticks w)); [ reflexivity | ].
  simpl. destruct (last_matching p (db w)) as [found | ]; [ | reflexivity ].
  unfold record_of_row, loads_other_attributes, bind, ret, raise.
  destruct (other_attributes found); reflexivity.
Qed.

(** The world in which [store_location_data] leaves a snapshot. *)
Lemma store_location_data_run (env : Env) (w : world) (d : dict) :
  store_location_data (VDict d) env w
  = (Ok tt,
     let w1 := after_select w (get "vehicleId" d) in
     if _has_data_changed d (last_record_seen env w (get "vehicleId" d))
     then match row_of_data d with
          | Some r =>
              if insert_raises env (ticks w1) then tick w1
              else set_db (db w1 ++ [r]) (tick w1)
          | None => w1
          end
     else w1).
Proof.
  unfold store_location_data, try_except, bind, as_dict, ret.
  rewrite get_last_record_run. cbv zeta.
  destruct (_has_data_changed d _); [ | reflexivity ].
  unfold execute_insert, bind, consult, raise, rollback, modify, ret.
  destruct (row_of_data d) as [r | ]; [ | reflexivity ].
  cbn beta iota delta [negb].
  destruct (insert_raises env (ticks (after_select w (get "vehicleId" d))));
    reflexivity.
Qed.

Lemma store_location_data_not_dict (env : Env) (w : world) (data : value) :
  (forall d, data <> VDict d) ->
  store_location_data data env w = (Ok tt, w).
Proof.
  intros H. destruct data; try reflexivity.
  exfalso. exact (H _ eq_refl).
Qed.

Lemma store_location_data_ok (env : Env) (w : world) (data : value) :
  fst (store_location_data data env w) = Ok tt.
Proof.
  destruct data; try reflexivity.
  rewrite store_location_data_run. reflexivity.
Qed.

Lemma db_after_select (w : world) (v : value) : db (after_select w v) = db w.
Proof. unfold after_select. destruct (bind_param v); reflexivity. Qed.

Lemma ticks_after_select (w : world) (v : value) (p : sql_value) :
  bind_param v = Some p -> ticks (after_select w v) = S (ticks w).
Proof. unfold after_select. intros ->. reflexivity. Qed.

(** The table after [store_location_data], in terms of what
    [_get_last_record] saw. *)
Lemma store_location_data_db (env : Env) (w : world) (d : dict) :
  db (snd (store_location_data (VDict d) env w)) =
  match row_of_data d with
  | Some r =>
      if _has_data_changed d (last_record_seen env w (get "vehicleId" d))
         && negb (insert_raises env (S (ticks w)))
      then db w ++ [r] else db w
  | None => db w
  end.
Proof.
  rewrite store_location_data_run. cbv zeta. simpl snd.
  destruct (row_of_data d) as [r | ] eqn:Hr.
  - rewrite (ticks_after_select _ _ _ (row_vehicle_id _ _ Hr)).
    destruct (_has_data_changed d _); simpl andb.
    + destruct (insert_raises env (S (ticks w))); simpl;
        rewrite ?db_after_select; reflexivity.
    + apply db_after_select.
  - destruct (_has_data_changed d _); apply db_after_select.
Qed.

(** When the read works, [_get_last_record] sees the most recent record
    of the vehicle. *)
Lemma changed_against_most_recent (env : Env) (w : world) (d : dict)
  (vehicle_id : value) :
  select_raises env (ticks w) = false -> readable (db w) ->
  _has_data_changed d (last_record_seen env w vehicle_id)
  = _has_data_changed d (most_recent vehicle_id (db w)).
Proof.
  intros Hsel Hread. unfold last_record_seen, most_recent.
  destruct (bind_param vehicle_id) as [p | ]; [ | reflexivity ].
  rewrite Hsel.
  destruct (last_matching p (db w)) as [found | ] eqn:Hfound;
    [ | reflexivity ].
  assert (Hattr : other_attributes found <> AttrGarbled).
  { unfold readable in Hread. rewrite Forall_forall in Hread.
    apply Hread. exact (last_matching_in _ _ _ Hfound). }
  destruct (other_attributes found);
    cbv beta iota delta [attributes_of option_map];
    try apply changed_ignores_attributes.
  contradiction.
Qed.

Lemma read_error_sees_nothing (env : Env) (w : world) (vehicle_id : value) :
  read_error env w vehicle_id -> last_record_seen env w vehicle_id = None.
Proof.
  unfold last_record_seen.
  intros [Hsel | [p [found [Hp [Hfound Hattr]]]]].
  - destruct (bind_param vehicle_id); [ | reflexivity ].
    rewrite Hsel. reflexivity.
  - rewrite Hp, Hfound, Hattr.
    destruct (select_raises env (ticks w)); reflexivity.
Qed.

Lemma most_recent_none_sees_nothing (env : Env) (w : world)
  (vehicle_id : value) :
  most_recent vehicle_id (db w) = None ->
  last_record_seen env w vehicle_id = None.
Proof.
  unfold most_recent, last_record_seen.
  destruct (bind_param vehicle_id) as [p | ]; [ | reflexivity ].
  destruct (last_matching p (db w)); [ discriminate | ].
  destruct (select_raises env (ticks w)); reflexivity.
Qed.

Lemma sql_eq_refl (p : sql_value) : p <> SNull -> sql_eq p p = true.
Proof.
  destruct p; simpl; intros H.
  - contradiction.
  - apply Qeq_bool_refl.
  - apply Qeq_bool_refl.
  - apply String.eqb_refl.
Qed.

(** ** Storing a snapshot right after another one of the same vehicle *)

(** Once the row of [d] is the last one of the table, a snapshot of the
    same vehicle is compared with [d]. *)
Lemma last_record_after_append (env : Env) (w1 : world) (d d' : dict)
  (r : row) (rows : list row) :
  select_raises env (ticks w1) = false ->
  row_of_data d = Some r -> vehicle_id_of r <> SNull ->
  db w1 = rows ++ [r] ->
  get "vehicleId" d' = get "vehicleId" d ->
  _has_data_changed d' (last_record_seen env w1 (get "vehicleId" d'))
  = _has_data_changed d' (Some d).
Proof.
  intros Hsel Hr Hid Hdb Hsame. unfold last_record_seen.
  rewrite Hsame, (row_vehicle_id d r Hr), Hsel, Hdb.
  rewrite last_matching_snoc, (sql_eq_refl _ Hid).
  pose proof (row_attributes d r Hr) as Hattr.
  destruct (other_attributes r);
    cbv beta iota delta [attributes_of];
    try contradiction;
    rewrite changed_ignores_attributes;
    apply (changed_row_of_data_old d d' r Hr).
Qed.

(** ** Change detection (C10) *)

(** C10. The tolerance is applied only when the new and the old value of
    a compared field are both numbers: then numbers no further apart
    than the tolerance are not reported and numbers at least the next
    binary64 number apart are. As soon as one side is [None], a string
    or anything else that is not a number, [!=] decides. So a compared
    field that is a number on one side and not on the other (a speed
    that disappears, say) is a change, and the snapshot is stored (when
    it can be bound and the [INSERT] works). *)
Theorem mixed_types_compare_exactly :
  (forall a b,
     is_number a = false \/ is_number b = false ->
     field_changed a b = negb (py_eq a b)) /\
  (forall a b x y,
     num_of a = Some x -> num_of b = Some y ->
     (distance a b x y <= tolerance -> field_changed a b = false) /\
     (tolerance_next <= distance a b x y -> field_changed a b = true)) /\
  (forall new_data old_data field,
     In field compare_fields ->
     is_number (get field new_data) <> is_number (get field old_data) ->
     _has_data_changed new_data (Some old_data) = true) /\
  (forall env w d old r field,
     fst (_get_last_record (get "vehicleId" d) env w) = Ok (Some old) ->
     In field compare_fields ->
     is_number (get field d) <> is_number (get field old) ->
     row_of_data d = Some r ->
     storage_works env ->
     db (snd (store_location_data (VDict d) env w)) = db w ++ [r]).
Proof.
  assert (Hmixed : forall new_data old_data field,
             In field compare_fields ->
             is_number (get field new_data) <> is_number (get field old_data) ->
             _has_data_changed new_data (Some old_data) = true).
  { intros new_data old_data field Hin Hne.
    unfold _has_data_changed.
    apply (any_field_changed_true _ _ _ field Hin).
    destruct (is_number (get field new_data)) eqn:Hn,
             (is_number (get field old_data)) eqn:Ho;
      try (exfalso; apply Hne; reflexivity).
    - rewrite field_changed_not_numbers by (right; exact Ho).
      rewrite (proj1 (py_eq_number_other _ _ Hn Ho)). reflexivity.
    - rewrite field_changed_not_numbers by (left; exact Hn).
      rewrite (proj2 (py_eq_number_other _ _ Ho Hn)). reflexivity. }
  split; [ | split; [ | split ] ].
  - apply field_changed_not_numbers.
  - intros a b x y Ha Hb.
    rewrite (field_changed_numbers _ _ _ _ Ha Hb).
    split; [ apply distance_within | apply distance_beyond ].
  - exact Hmixed.
  - intros env w d old r field Hlast Hin Hne Hr Hins.
    rewrite get_last_record_run in Hlast. simpl in Hlast.
    injection Hlast as Hlast.
    rewrite store_location_data_db, Hr, Hlast.
    rewrite (Hmixed d old field Hin Hne), (Hins (S (ticks w))).
    reflexivity.
Qed.

Lemma mixed_types_compare_exactly_witness :
  field_changed VNone (VFloat 0) = negb (py_eq VNone (VFloat 0)) /\
  field_changed (VInt 3) (VFloat 3.00001) = false /\
  field_changed (VInt 3) (VFloat 3.0002) = true /\
  _has_data_changed snapshot_without_speed (Some (snapshot 42 0)) = true /\
  db (snd (store_location_data (VDict snapshot_without_speed) calm
             world_with_row_42))
  = [row_42; row_without_speed].
Proof.
  destruct mixed_types_compare_exactly
    as (Hexact & Hnumbers & Hchange & Hstore).
  split; [ | split; [ | split; [ | split ] ] ].
  - apply Hexact. left. reflexivity.
  - destruct (Hnumbers (VInt 3) (VFloat 3.00001) (inject_Z 3) 3.00001
                eq_refl eq_refl) as [Hnear _].
    apply Hnear. vm_compute. discriminate.
  - destruct (Hnumbers (VInt 3) (VFloat 3.0002) (inject_Z 3) 3.0002
                eq_refl eq_refl) as [_ Hfar].
    apply Hfar. vm_compute. discriminate.
  - apply (Hchange _ _ "speed").
    + simpl. tauto.
    + discriminate.
  - eapply (Hstore calm world_with_row_42 snapshot_without_speed _
              row_without_speed "speed").
    + reflexivity.
    + simpl. tauto.
    + discriminate.
    + reflexivity.
    + intros n. reflexivity.
Defined.

(** ** The history store (C9) *)

Lemma store_preserves_invariant (env : Env) (w : world) (data : value) :
  reads_work env -> readable (db w) -> dedup_invariant (db w) ->
  dedup_invariant (db (snd (store_location_data data env w))) /\
  readable (db (snd (store_location_data data env w))).
Proof.
  intros Hsel Hread Hinv.
  destruct data as [ | | | | | | d ]; try (split; assumption).
  rewrite store_location_data_db.
  destruct (row_of_data d) as [r | ] eqn:Hr; [ | split; assumption ].
  rewrite (changed_against_most_recent env w d _ (Hsel _) Hread).
  destruct (_has_data_changed d (most_recent (get "vehicleId" d) (db w)))
    eqn:Hchanged; [ | split; assumption ].
  destruct (insert_raises env (S (ticks w))); [ split; assumption | ].
  simpl andb. cbv iota. split.
  - intros e. rewrite history_snoc.
    destruct (sql_eq (vehicle_id_of r) e) eqn:He;
      [ | rewrite app_nil_r; apply Hinv ].
    unfold most_recent in Hchanged.
    rewrite (row_vehicle_id d r Hr) in Hchanged.
    rewrite (last_matching_same_entity _ _ (db w) He) in Hchanged.
    destruct (last_matching e (db w)) as [found | ] eqn:Hfound.
    + destruct (last_matching_some _ _ _ Hfound) as [h Hh].
      specialize (Hinv e). rewrite Hh in *.
      apply no_consecutive_equal_snoc; [ exact Hinv | ].
      rewrite (changed_row_of_data_new d r _ Hr). exact Hchanged.
    + rewrite (last_matching_none _ _ Hfound). simpl. exact I.
  - apply Forall_app. split; [ exact Hread | ].
    constructor; [ exact (row_attributes d r Hr) | constructor ].
Qed.

(** C2 as stated fails: when the [SELECT] of [_get_last_record] raises,
    the same snapshot is stored twice in a row. *)
Lemma read_error_stores_equal_records :
  db stored_twice_select_fails = [row_42; row_42] /\
  _has_data_changed (dict_of_row row_42) (Some (dict_of_row row_42)) = false /\
  ~ dedup_invariant (db stored_twice_select_fails).
Proof.
  split; [ reflexivity | split; [ reflexivity | ] ].
  intros H. specialize (H (SInteger 42)).
  vm_compute in H. destruct H as [H _]. discriminate.
Qed.

(** A snapshot that names no vehicle finds no last record
    ([vehicle_id = NULL] selects nothing) and is appended every time. *)
Lemma snapshot_without_id_is_always_stored :
  List.length
    (db (snd ((store_location_data (VDict snapshot_without_id) ;;
               store_location_data (VDict snapshot_without_id))
                calm fresh_world))) = 2%nat.
Proof. reflexivity. Qed.

(** C9. When reading the last record fails (the [SELECT] raises, or the
    row found does not decode), [_get_last_record] returns [None], the
    detector answers as for a first observation, and the snapshot is
    appended whatever the table holds: the store is neither skipped nor
    aborted, only a failing [INSERT] (or a value that cannot be bound)
    keeps the row out. *)
Theorem read_error_is_first_observation :
  forall env w d,
    read_error env w (get "vehicleId" d) ->
    fst (_get_last_record (get "vehicleId" d) env w) = Ok None /\
    _has_data_changed d (last_record_seen env w (get "vehicleId" d))
    = _has_data_changed d None /\
    db (snd (store_location_data (VDict d) env w))
    = match row_of_data d with
      | Some r =>
          if insert_raises env (S (ticks w)) then db w else db w ++ [r]
      | None => db w
      end /\
    (forall r,
       row_of_data d = Some r -> storage_works env ->
       db (snd (store_location_data (VDict d) env w)) = db w ++ [r]).
Proof.
  intros env w d Herr.
  pose proof (read_error_sees_nothing env w _ Herr) as Hnone.
  split; [ | split; [ | split ] ].
  - rewrite get_last_record_run. simpl. rewrite Hnone. reflexivity.
  - rewrite Hnone. reflexivity.
  - rewrite store_location_data_db, Hnone.
    destruct (row_of_data d); [ | reflexivity ].
    destruct (insert_raises env (S (ticks w))); reflexivity.
  - intros r Hr Hins.
    rewrite store_location_data_db, Hr, Hnone, (Hins (S (ticks w))).
    reflexivity.
Qed.

Lemma read_error_is_first_observation_witness :
  fst (_get_last_record (VInt 42) select_broken world_with_row_42) = Ok None /\
  db (snd (store_location_data (VDict (snapshot 42 10)) select_broken
             world_with_row_42)) = [row_42; row_42] /\
  fst (_get_last_record (VInt 42) calm world_with_garbled_row) = Ok None /\
  db (snd (store_location_data (VDict (snapshot 42 10)) calm
             world_with_garbled_row))
  = [mkRow (cells row_42) AttrGarbled; row_42].
Proof.
  assert (Hselect : read_error select_broken world_with_row_42
                      (get "vehicleId" (snapshot 42 10))).
  { left. reflexivity. }
  assert (Hdecode : read_error calm world_with_garbled_row
                      (get "vehicleId" (snapshot 42 10))).
  { right. exists (SInteger 42), (mkRow (cells row_42) AttrGarbled).
    repeat split; reflexivity. }
  destruct (read_error_is_first_observation select_broken world_with_row_42
              (snapshot 42 10) Hselect) as (Hnone & _ & _ & Hstore).
  destruct (read_error_is_first_observation calm world_with_garbled_row
              (snapshot 42 10) Hdecode) as (Hnone' & _ & _ & Hstore').
  split; [ exact Hnone | split; [ | split; [ exact Hnone' | ] ] ].
  - apply (Hstore row_42).
    + reflexivity.
    + intros n. reflexivity.
  - apply (Hstore' row_42).
    + reflexivity.
    + intros n. reflexivity.
Defined.

(** ** Exceptions *)

Lemma never_raises_no_interrupt {A : Type} (c : M A) :
  never_raises c -> no_interrupt c.
Proof.
  intros H env w. destruct (H env w) as [a Ha]. rewrite Ha. discriminate.
Qed.

Lemma no_interrupt_ret {A : Type} (a : A) : no_interrupt (ret a).
Proof. intros env w. discriminate. Qed.

Lemma no_interrupt_raise {A : Type} (what : string) :
  no_interrupt (@raise A (Exception what)).
Proof. intros env w. discriminate. Qed.

Lemma no_interrupt_gets {A : Type} (f : world -> A) : no_interrupt (gets f).
Proof. intros env w. discriminate. Qed.

Lemma no_interrupt_modify (f : world -> world) : no_interrupt (modify f).
Proof. intros env w. discriminate. Qed.

Lemma no_interrupt_ask {A : Type} (f : Env -> A) : no_interrupt (ask f).
Proof. intros env w. discriminate. Qed.

Lemma no_interrupt_consult (f : Env -> nat -> bool) :
  no_interrupt (consult f).
Proof. intros env w. discriminate. Qed.

Lemma no_interrupt_bind {A B : Type} (c : M A) (k : A -> M B) :
  no_interrupt c -> (forall a, no_interrupt (k a)) ->
  no_interrupt (bind c k).
Proof.
  intros Hc Hk env w. unfold bind. specialize (Hc env w).
  destruct (c env w) as [[a | e] w1]; simpl in *.
  - apply Hk.
  - intros E. apply Hc. injection E as ->. reflexivity.
Qed.

Lemma no_interrupt_try {A : Type} (body handler : M A) :
  no_interrupt body -> no_interrupt handler ->
  no_interrupt (try_except body handler).
Proof.
  intros Hb Hh env w. unfold try_except. specialize (Hb env w).
  destruct (body env w) as [[a | [what | ]] w1]; simpl in *.
  - discriminate.
  - apply Hh.
  - exact Hb.
Qed.

(** A [try] whose body Ctrl-C does not end and whose handler returns
    always returns. *)
Lemma never_raises_try {A : Type} (body handler : M A) :
  no_interrupt body -> never_raises handler ->
  never_raises (try_except body handler).
Proof.
  intros Hb Hh env w. unfold try_except. specialize (Hb env w).
  destruct (body env w) as [[a | [what | ]] w1]; simpl in *.
  - exists a. reflexivity.
  - apply Hh.
  - contradiction.
Qed.

Lemma never_raises_ret {A : Type} (a : A) : never_raises (ret a).
Proof. intros env w. exists a. reflexivity. Qed.

Ltac no_interrupt_step :=
  first
    [ apply no_interrupt_ret
    | apply no_interrupt_raise
    | apply no_interrupt_gets
    | apply no_interrupt_modify
    | apply no_interrupt_ask
    | apply no_interrupt_consult
    | apply no_interrupt_try
    | apply no_interrupt_bind; [ | intros ? ]
    | match goal with
      | |- no_interrupt (match ?x with _ => _ end) => destruct x
      | H : _ |- _ => apply H
      end ].

Ltac no_interrupt_auto := repeat no_interrupt_step.

Lemma no_interrupt_save_token : no_interrupt _save_token.
Proof. unfold _save_token. no_interrupt_auto. Qed.

Lemma no_interrupt_login : no_interrupt login_with_selenium.
Proof.
  unfold login_with_selenium. no_interrupt_auto.
  all: apply no_interrupt_save_token.
Qed.

Lemma no_interrupt_session_get (vehicle_id : value) (ts : Z) :
  no_interrupt (session_get vehicle_id ts).
Proof. unfold session_get. no_interrupt_auto. Qed.

Lemma fetch_body_never_raises (retry : Z -> M value) (vehicle_id : value)
  (timestamp : option Z) :
  (forall ts, no_interrupt (retry ts)) ->
  never_raises (fetch_body retry vehicle_id timestamp).
Proof.
  intros Hretry. unfold fetch_body.
  apply never_raises_try; [ | apply never_raises_ret ].
  apply no_interrupt_bind.
  { destruct timestamp; unfold now_ms; no_interrupt_auto. }
  intros ts. apply no_interrupt_bind; [ apply no_interrupt_session_get | ].
  intros [status_code body].
  destruct (Z.eqb status_code 200).
  { unfold response_json. no_interrupt_auto. }
  destruct (Z.eqb status_code 401 || Z.eqb status_code 403);
    [ | apply no_interrupt_ret ].
  unfold remove_token_file.
  apply no_interrupt_bind; [ apply no_interrupt_modify | intros _ ].
  apply no_interrupt_bind; [ apply no_interrupt_modify | intros _ ].
  apply no_interrupt_bind; [ apply no_interrupt_login | intros ok ].
  destruct ok; [ apply Hretry | apply no_interrupt_ret ].
Qed.

Lemma fetch_from_unfold (depth : nat) (vehicle_id : value)
  (timestamp : option Z) :
  fetch_from depth vehicle_id timestamp
  = fetch_body
      (fun ts =>
         match depth with
         | O => raise (Exception "RecursionError")
         | S d => fetch_from d vehicle_id (Some ts)
         end)
      vehicle_id timestamp.
Proof. destruct depth; reflexivity. Qed.

Lemma fetch_from_never_raises (depth : nat) (vehicle_id : value) :
  forall timestamp, never_raises (fetch_from depth vehicle_id timestamp).
Proof.
  induction depth as [ | d IH ]; intros timestamp;
    rewrite fetch_from_unfold; apply fetch_body_never_raises; intros ts.
  - apply no_interrupt_raise.
  - apply never_raises_no_interrupt, IH.
Qed.

Lemma fetch_vehicle_location_never_raises (vehicle_id : value)
  (timestamp : option Z) :
  never_raises (fetch_vehicle_location vehicle_id timestamp).
Proof.
  intros env w. unfold fetch_vehicle_location, bind, ask.
  apply fetch_from_never_raises.
Qed.

(** ** What one call of [fetch_vehicle_location] does *)

Lemma try_except_ok {A : Type} (body handler : M A) (env : Env) (w : world)
  (a : A) :
  fst (body env w) = Ok a -> try_except body handler env w = body env w.
Proof.
  unfold try_except. destruct (body env w) as [o w1]. simpl.
  intros ->. reflexivity.
Qed.

(** An answer that is not an authentication failure: one request, no
    login, the world otherwise untouched. *)
Lemma fetch_body_plain (retry : Z -> M value) (env : Env) (w : world)
  (vehicle_id : value) (timestamp : option Z) :
  is_auth_failure (first_answer env w vehicle_id timestamp) = false ->
  fetch_body retry vehicle_id timestamp env w
  = (Ok (fetched (first_answer env w vehicle_id timestamp)),
     log_request (first_request w vehicle_id timestamp) w).
Proof.
  unfold first_answer, first_request, bearer, is_auth_failure, fetched,
    request_time.
  destruct timestamp as [t | ];
    cbv beta iota zeta delta
      [fetch_body try_except bind now_ms session_get gets modify ask ret
       raise response_json];
    (destruct (remote env _ _) as [ | status_code body ]; [ reflexivity | ]);
    intros Hauth;
    (destruct (Z.eqb status_code 200);
     [ destruct body; reflexivity
     | rewrite Hauth; destruct body; reflexivity ]).
Qed.

Lemma login_run (env : Env) (w : world) :
  login_with_selenium env w = (Ok (login_succeeds env w), after_login env w).
Proof.
  cbv beta iota zeta delta
    [login_with_selenium login_succeeds after_login bind gets modify ask ret
     _save_token pause paused saved].
  cbn [logins count_login set_clock set_access_token clock token_file].
  destruct (browser_login env (logins w)) as [ [ | ] | [s | ] ];
    try reflexivity.
  cbv beta iota zeta delta [truthy].
  destruct (String.eqb s EmptyString); [ reflexivity | ].
  cbn [negb logins count_login set_clock set_access_token clock token_file
       access_token].
  destruct (token_write env (S (logins w))); reflexivity.
Qed.

(** An authentication failure: the token is cleared, the file removed,
    the login run; the function calls itself when the login yields a
    token, and returns [None] when it does not. *)
Lemma fetch_body_auth (retry : Z -> M value) (env : Env) (w : world)
  (vehicle_id : value) (timestamp : option Z) :
  is_auth_failure (first_answer env w vehicle_id timestamp) = true ->
  fetch_body retry vehicle_id timestamp env w
  = if login_succeeds env w
    then try_except (retry (request_time w timestamp)) (ret VNone) env
           (after_login env
              (rejected w (first_request w vehicle_id timestamp)))
    else (Ok VNone,
          after_login env
            (rejected w (first_request w vehicle_id timestamp))).
Proof.
  unfold first_answer, first_request, bearer, is_auth_failure, request_time.
  intros Hauth.
  change (login_succeeds env w)
    with (login_succeeds env
            (rejected w
               (mkRequest vehicle_id
                  match timestamp with
                  | Some t => t
                  | None => py_int (clock w * 1000)
                  end
                  (if truthy (access_token w)
                   then Some (access_token w) else None)))).
  destruct timestamp as [t | ];
    cbv beta iota zeta delta
      [fetch_body try_except bind now_ms session_get gets modify ask ret
       raise response_json remove_token_file] in *;
    (destruct (remote env _ _) as [ | status_code body ]; [ discriminate | ]);
    (destruct (Z.eqb status_code 200) eqn:E200;
     [ apply Z.eqb_eq in E200; subst status_code; discriminate | ]);
    rewrite Hauth, login_run;
    unfold rejected;
    destruct (login_succeeds env _); reflexivity.
Qed.

(** A network or parse error is not an authentication failure and
    yields [None]. *)
Lemma classified_error_fetches_none (env : Env) (w : world)
  (vehicle_id : value) (e : fetch_error) :
  classify (first_answer env w vehicle_id None) = Some e ->
  e <> AuthError ->
  is_auth_failure (first_answer env w vehicle_id None) = false /\
  fetched (first_answer env w vehicle_id None) = VNone.
Proof.
  unfold classify, is_auth_failure, fetched. intros Hclass He.
  destruct (first_answer env w vehicle_id None)
    as [ | status_code body ]; [ auto | ].
  destruct (Z.eqb status_code 200) eqn:E200.
  - apply Z.eqb_eq in E200. subst status_code.
    destruct body; [ discriminate | auto ].
  - destruct (Z.eqb status_code 401 || Z.eqb status_code 403).
    + injection Hclass as <-. contradiction.
    + destruct body; auto.
Qed.

Lemma fetch_vehicle_location_unfold (env : Env) (w : world)
  (vehicle_id : value) (timestamp : option Z) :
  fetch_vehicle_location vehicle_id timestamp env w
  = fetch_from (recursion_limit env) vehicle_id timestamp env w.
Proof. reflexivity. Qed.

(** Against a remote that answers 401 to everything, with logins that
    succeed, every allowed level of nesting logs in and asks again. *)
Lemma fetch_from_always_401 (depth limit : nat) (vehicle_id : value) :
  forall timestamp w,
    let res := fetch_from depth vehicle_id timestamp (always_401 limit) w in
    fst res = Ok VNone /\
    logins (snd res) = (logins w + S depth)%nat /\
    List.length (requests (snd res))
    = (List.length (requests w) + S depth)%nat.
Proof.
  induction depth as [ | d IH ]; intros timestamp w res; subst res;
    rewrite fetch_from_unfold;
    rewrite (fetch_body_auth _ (always_401 limit) w vehicle_id timestamp
               eq_refl);
    change (login_succeeds (always_401 limit) w) with true; cbv iota.
  - simpl. repeat split; lia.
  - specialize (IH (Some (request_time w timestamp))
                  (after_login (always_401 limit)
                     (rejected w (first_request w vehicle_id timestamp)))).
    cbv zeta in IH. destruct IH as (Hres & Hlogins & Hreqs).
    rewrite (try_except_ok _ _ _ _ _ Hres).
    split; [ exact Hres | ]. rewrite Hlogins, Hreqs. simpl. split; lia.
Qed.

(** Requests are never forgotten: a call of [fetch_vehicle_location]
    puts its request on record, followed by those of the calls it makes
    of itself. *)
Lemma try_except_ret_world {A : Type} (body : M A) (a : A) (env : Env)
  (w : world) :
  snd (try_except body (ret a) env w) = snd (body env w).
Proof.
  unfold try_except, ret.
  destruct (body env w) as [[x | [what | ]] w1]; reflexivity.
Qed.

Ltac after_login_cases env w :=
  unfold after_login, paused;
  destruct (browser_login env (logins w)) as [ [ | ] | entry ];
  try reflexivity;
  cbv zeta; destruct (truthy _); reflexivity.

Lemma requests_after_login (env : Env) (w : world) :
  requests (after_login env w) = requests w.
Proof. after_login_cases env w. Qed.

Lemma db_after_login (env : Env) (w : world) :
  db (after_login env w) = db w.
Proof. after_login_cases env w. Qed.

Lemma fetch_from_requests (depth : nat) (vehicle_id : value) :
  forall timestamp env w,
  exists later,
    requests (snd (fetch_from depth vehicle_id timestamp env w))
    = later ++ first_request w vehicle_id timestamp :: requests w.
Proof.
  induction depth as [ | d IH ]; intros timestamp env w;
    rewrite fetch_from_unfold;
    destruct (is_auth_failure (first_answer env w vehicle_id timestamp))
      eqn:Hauth;
    try (rewrite (fetch_body_plain _ env w vehicle_id timestamp Hauth);
         exists []; reflexivity);
    rewrite (fetch_body_auth _ env w vehicle_id timestamp Hauth);
    (destruct (login_succeeds env w);
     [ | exists []; simpl; rewrite requests_after_login; reflexivity ]);
    rewrite try_except_ret_world.
  - exists []. simpl. rewrite requests_after_login. reflexivity.
  - destruct (IH (Some (request_time w timestamp)) env
                (after_login env
                   (rejected w (first_request w vehicle_id timestamp))))
      as [later Hlater].
    rewrite Hlater, requests_after_login. simpl.
    exists (later ++ [first_request
                        (after_login env
                           (rejected w
                              (first_request w vehicle_id timestamp)))
                        vehicle_id (Some (request_time w timestamp))]).
    rewrite <- app_assoc. reflexivity.
Qed.

(** Fetching does not touch the table. *)
Lemma fetch_from_db (depth : nat) (vehicle_id : value) :
  forall timestamp env w,
    db (snd (fetch_from depth vehicle_id timestamp env w)) = db w.
Proof.
  induction depth as [ | d IH ]; intros timestamp env w;
    rewrite fetch_from_unfold;
    destruct (is_auth_failure (first_answer env w vehicle_id timestamp))
      eqn:Hauth;
    try (rewrite (fetch_body_plain _ env w vehicle_id timestamp Hauth);
         reflexivity);
    rewrite (fetch_body_auth _ env w vehicle_id timestamp Hauth);
    (destruct (login_succeeds env w);
     [ | simpl; rewrite db_after_login; reflexivity ]);
    rewrite try_except_ret_world.
  - simpl. rewrite db_after_login. reflexivity.
  - rewrite IH, db_after_login. reflexivity.
Qed.

(** ** One turn of the vehicle loop *)

Lemma sleep_refused (seconds : Q) (env : Env) (w : world) :
  sleepable seconds = false ->
  exists what, sleep seconds env w = (Raise (Exception what), w).
Proof.
  unfold sleepable, sleep.
  destruct (Qlt_bool seconds 0); [ intros _; eexists; reflexivity | ].
  destruct (Qlt_bool longest_sleep seconds); [ | discriminate ].
  intros _. eexists. reflexivity.
Qed.

Lemma sleep_run (seconds : Q) (env : Env) (w : world) :
  sleepable seconds = true ->
  sleep seconds env w
  = if interrupted env (ticks w)
    then (Raise KeyboardInterrupt, tick w)
    else (Ok tt, set_clock (clock w + seconds) (tick w)).
Proof.
  unfold sleepable, sleep.
  destruct (Qlt_bool seconds 0); [ discriminate | ].
  destruct (Qlt_bool longest_sleep seconds); [ discriminate | ].
  intros _. unfold bind, consult, raise, modify.
  destruct (interrupted env (ticks w)); reflexivity.
Qed.

Ltac sleep_cases seconds env w :=
  let what := fresh "what" in
  let E := fresh "E" in
  let H := fresh "Hsleepable" in
  destruct (sleepable seconds) eqn:H;
  [ rewrite (sleep_run seconds env w H); destruct (interrupted env _)
  | destruct (sleep_refused seconds env w H) as [what E]; rewrite E ].

Lemma db_after_sleep (seconds : Q) (env : Env) (w : world) :
  db (snd (sleep seconds env w)) = db w.
Proof. sleep_cases seconds env w; reflexivity. Qed.

Lemma logins_after_sleep (seconds : Q) (env : Env) (w : world) :
  logins (snd (sleep seconds env w)) = logins w.
Proof. sleep_cases seconds env w; reflexivity. Qed.

Lemma store_location_data_never_raises (data : value) :
  never_raises (store_location_data data).
Proof. intros env w. exists tt. apply store_location_data_ok. Qed.

(** What one turn of the vehicle loop does with the table: the turn
    stores what was fetched, if anything was. *)
Lemma poll_vehicle_run (vehicle_id : value) (env : Env) (w : world) :
  exists data w1,
    fetch_vehicle_location vehicle_id None env w = (Ok data, w1) /\
    poll_vehicle vehicle_id env w
    = sleep 2 env
        (if truthy data then snd (store_location_data data env w1) else w1).
Proof.
  destruct (fetch_vehicle_location_never_raises vehicle_id None env w)
    as [data Hdata].
  destruct (fetch_vehicle_location vehicle_id None env w) as [o w1] eqn:E.
  simpl in Hdata. subst o. exists data, w1. split; [ reflexivity | ].
  unfold poll_vehicle, bind at 1. rewrite E.
  unfold bind. destruct (truthy data).
  - pose proof (store_location_data_ok env w1 data) as Hok.
    destruct (store_location_data data env w1) as [o w2].
    simpl in Hok. subst o. reflexivity.
  - reflexivity.
Qed.


Lemma requests_after_store (env : Env) (w : world) (data : value) :
  requests (snd (store_location_data data env w)) = requests w.
Proof.
  destruct data as [ | | | | | | d ]; try reflexivity.
  rewrite store_location_data_run. cbv zeta. simpl snd.
  unfold after_select.
  destruct (_has_data_changed d _), (row_of_data d),
    (bind_param (get "vehicleId" d)); try reflexivity;
    destruct (insert_raises env _); reflexivity.
Qed.

Lemma requests_after_sleep (seconds : Q) (env : Env) (w : world) :
  requests (snd (sleep seconds env w)) = requests w.
Proof. sleep_cases seconds env w; reflexivity. Qed.

(** A turn of the vehicle loop sends the request for its vehicle. *)
Lemma requests_after_vehicle (env : Env) (w : world) (vehicle_id : value) :
  exists later,
    requests (after_vehicle env w vehicle_id)
    = later ++ first_request w vehicle_id None :: requests w.
Proof.
  unfold after_vehicle.
  destruct (poll_vehicle_run vehicle_id env w) as [data [w1 [Hfetch ->]]].
  destruct (fetch_from_requests (recursion_limit env) vehicle_id None env w)
    as [later Hlater].
  rewrite <- fetch_vehicle_location_unfold, Hfetch in Hlater.
  exists later. rewrite requests_after_sleep.
  destruct (truthy data); [ rewrite requests_after_store | ]; exact Hlater.
Qed.

(** ** The telemetry client and the bounded re-authentication (C1) *)

(** C1, evaluated on the code. Against a remote that answers 401 to every
    request, with a login that succeeds every time, one call of
    [fetch_vehicle_location], that is one turn of the vehicle loop, logs
    in and sends the request again at every level of nesting the
    interpreter allows: [limit + 1] logins and [limit + 1] requests, not
    one retry. *)
Theorem always_401_retried_to_recursion_limit :
  forall limit w vehicle_id,
    fst (fetch_vehicle_location vehicle_id None (always_401 limit) w)
    = Ok VNone /\
    logins (snd (fetch_vehicle_location vehicle_id None (always_401 limit) w))
    = (logins w + S limit)%nat /\
    List.length
      (requests
         (snd (fetch_vehicle_location vehicle_id None (always_401 limit) w)))
    = (List.length (requests w) + S limit)%nat /\
    logins (after_vehicle (always_401 limit) w vehicle_id)
    = (logins w + S limit)%nat.
Proof.
  intros limit w vehicle_id.
  pose proof (fetch_from_always_401 limit limit vehicle_id None w) as H.
  cbv zeta in H.
  change (fetch_from limit vehicle_id None (always_401 limit) w)
    with (fetch_vehicle_location vehicle_id None (always_401 limit) w) in H.
  destruct H as (Hres & Hlogins & Hrequests).
  split; [ exact Hres | split; [ exact Hlogins | split; [ exact Hrequests | ] ] ].
  unfold after_vehicle.
  destruct (poll_vehicle_run vehicle_id (always_401 limit) w)
    as [data [w1 [Hfetch ->]]].
  rewrite Hfetch in Hres, Hlogins. simpl in Hres, Hlogins.
  injection Hres as ->. simpl truthy. cbv iota.
  rewrite logins_after_sleep. exact Hlogins.
Qed.

(** C6 as stated fails: handed a token the remote rejects,
    [fetch_vehicle_location] logs in and asks again by itself (one login,
    two requests, and the caller gets the snapshot); and the caller gets
    the same [None] for a server error, an undecodable body and a rejected
    token whose renewal fails. *)
Lemma fetch_retries_inside_itself :
  fst (fetch_vehicle_location (VInt 1) None stale_token
         (world_with_token "old")) = Ok (VDict (snapshot 1 10)) /\
  logins (snd (fetch_vehicle_location (VInt 1) None stale_token
                 (world_with_token "old"))) = 1%nat /\
  List.length
    (requests (snd (fetch_vehicle_location (VInt 1) None stale_token
                      (world_with_token "old")))) = 2%nat /\
  classify (first_answer server_down (world_with_token "old") (VInt 1) None)
  = Some NetworkError /\
  classify (first_answer all_garbled (world_with_token "old") (VInt 1) None)
  = Some ParseError /\
  classify (first_answer login_broken (world_with_token "old") (VInt 1) None)
  = Some AuthError /\
  fst (fetch_vehicle_location (VInt 1) None server_down
         (world_with_token "old")) = Ok VNone /\
  fst (fetch_vehicle_location (VInt 1) None all_garbled
         (world_with_token "old")) = Ok VNone /\
  fst (fetch_vehicle_location (VInt 1) None login_broken
         (world_with_token "old")) = Ok VNone.
Proof. repeat split; reflexivity. Qed.

(** ** The saved token (C5) *)

Lemma load_saved_token_run (env : Env) (w : world) (tok : value) (T : Q) :
  token_file w = credential_file tok T ->
  _load_saved_token env w
  = (Ok tt,
     if Qlt_bool (clock w - T) validity_window
     then set_access_token tok w
     else set_access_token VNone (set_access_token tok w)).
Proof.
  intros Hfile.
  cbv beta iota zeta delta
    [_load_saved_token try_except bind gets token_file_exists
     json_load_token_file as_dict modify token_is_recent ret raise].
  repeat (rewrite Hfile; cbv beta iota zeta delta [credential_file]).
  change (get "access_token"
            [("access_token", tok); ("saved_at", VFloat T)]) with tok.
  change (get_default "saved_at" (VInt 0)
            [("access_token", tok); ("saved_at", VFloat T)]) with (VFloat T).
  cbv beta iota zeta delta [num_of].
  cbn [clock set_access_token].
  destruct (Qlt_bool (clock w - T) validity_window); reflexivity.
Qed.

(** C5. A saved token is kept exactly when [now - saved_at] is less
    than twelve hours, and dropped ([None]) otherwise: a token saved at
    [T] is kept at [T + window - eps] and dropped at [T + window + eps]. *)
Theorem saved_token_valid_for_twelve_hours :
  forall env w tok T,
    token_file w = credential_file tok T ->
    validity_window == 12 * 3600 /\
    (clock w - T < validity_window ->
     access_token (snd (_load_saved_token env w)) = tok) /\
    (~ clock w - T < validity_window ->
     access_token (snd (_load_saved_token env w)) = VNone) /\
    (forall eps, 0 < eps ->
       (clock w == T + validity_window - eps ->
        access_token (snd (_load_saved_token env w)) = tok) /\
       (clock w == T + validity_window + eps ->
        access_token (snd (_load_saved_token env w)) = VNone)).
Proof.
  intros env w tok T Hfile.
  rewrite (load_saved_token_run env w tok T Hfile).
  assert (Hvalid : clock w - T < validity_window ->
                   access_token
                     (snd (Ok tt,
                           if Qlt_bool (clock w - T) validity_window
                           then set_access_token tok w
                           else set_access_token VNone
                                  (set_access_token tok w))) = tok).
  { intros H. apply Qlt_bool_iff in H. rewrite H. reflexivity. }
  assert (Hexpired : ~ clock w - T < validity_window ->
                     access_token
                       (snd (Ok tt,
                             if Qlt_bool (clock w - T) validity_window
                             then set_access_token tok w
                             else set_access_token VNone
                                    (set_access_token tok w))) = VNone).
  { intros H.
    destruct (Qlt_bool (clock w - T) validity_window) eqn:E;
      [ | reflexivity ].
    apply Qlt_bool_iff in E. contradiction. }
  split; [ reflexivity | split; [ exact Hvalid | split; [ exact Hexpired | ] ] ].
  intros eps Heps. split; intros Hnow.
  - apply Hvalid. rewrite Hnow.
    setoid_replace (T + validity_window - eps - T)
      with (validity_window - eps) by ring.
    rewrite <- (Qplus_0_r validity_window) at 2.
    unfold Qminus. apply Qplus_lt_r.
    apply (Qopp_lt_compat 0 eps). exact Heps.
  - apply Hexpired. rewrite Hnow.
    setoid_replace (T + validity_window + eps - T)
      with (validity_window + eps) by ring.
    apply Qle_not_lt.
    rewrite <- (Qplus_0_r validity_window) at 1.
    apply Qplus_le_r. apply Qlt_le_weak. exact Heps.
Qed.

Lemma saved_token_valid_for_twelve_hours_witness :
  access_token (snd (_load_saved_token calm (world_at (1000 + 43200 - 1))))
  = VStr "abc" /\
  access_token (snd (_load_saved_token calm (world_at (1000 + 43200 + 1))))
  = VNone /\
  access_token (snd (_load_saved_token calm (world_at 2000))) = VStr "abc" /\
  access_token (snd (_load_saved_token calm (world_at (1000 + 43200))))
  = VNone.
Proof.
  split; [ | split; [ | split ] ].
  - destruct (saved_token_valid_for_twelve_hours calm
                (world_at (1000 + 43200 - 1)) (VStr "abc") 1000 eq_refl)
      as (_ & _ & _ & Hboundary).
    apply (Hboundary 1); reflexivity.
  - destruct (saved_token_valid_for_twelve_hours calm
                (world_at (1000 + 43200 + 1)) (VStr "abc") 1000 eq_refl)
      as (_ & _ & _ & Hboundary).
    apply (Hboundary 1); reflexivity.
  - destruct (saved_token_valid_for_twelve_hours calm
                (world_at 2000) (VStr "abc") 1000 eq_refl)
      as (_ & Hvalid & _ & _).
    apply Hvalid. reflexivity.
  - destruct (saved_token_valid_for_twelve_hours calm
                (world_at (1000 + 43200)) (VStr "abc") 1000 eq_refl)
      as (_ & _ & Hexpired & _).
    apply Hexpired. discriminate.
Defined.

(** A token file whose [saved_at] is not a number: the subtraction
    raises after [self.access_token] was assigned, and the token stays. *)
Lemma saved_at_not_a_number_keeps_token (env : Env) (w : world)
  (tok : value) :
  token_file w
  = Json (VDict [("access_token", tok); ("saved_at", VNone)]) ->
  _load_saved_token env w = (Ok tt, set_access_token tok w).
Proof.
  intros Hfile.
  cbv beta iota zeta delta
    [_load_saved_token try_except bind gets token_file_exists
     json_load_token_file as_dict modify token_is_recent ret raise].
  repeat (rewrite Hfile; cbv beta iota zeta).
  reflexivity.
Qed.


(** ** The polling loop (C7, C8) *)

Lemma sleep_stops_only_on_interrupt (seconds : Q) :
  sleepable seconds = true ->
  stops_only_on_interrupt (sleep seconds).
Proof.
  intros Hseconds env w. rewrite (sleep_run _ _ _ Hseconds).
  destruct (interrupted env (ticks w)) eqn:E.
  - right. split; [ reflexivity | ]. exists (ticks w). exact E.
  - left. reflexivity.
Qed.




Lemma never_raises_stops_only_on_interrupt (c : M unit) :
  never_raises c -> stops_only_on_interrupt c.
Proof.
  intros H env w. destruct (H env w) as [[] Ha]. left. exact Ha.
Qed.

Lemma poll_vehicle_stops_only_on_interrupt (vehicle_id : value) :
  stops_only_on_interrupt (poll_vehicle vehicle_id).
Proof.
  intros env w.
  destruct (poll_vehicle_run vehicle_id env w) as [data [w1 [_ ->]]].
  apply sleep_stops_only_on_interrupt. reflexivity.
Qed.



Lemma poll_vehicle_completes (env : Env) (w : world) (vehicle_id : value) :
  never_interrupted env ->
  poll_vehicle vehicle_id env w = (Ok tt, after_vehicle env w vehicle_id).
Proof.
  intros Hquiet. unfold after_vehicle.
  destruct (poll_vehicle_stops_only_on_interrupt vehicle_id env w)
    as [H | [_ [n Hn]]].
  - destruct (poll_vehicle vehicle_id env w) as [o w1].
    simpl in *. subst o. reflexivity.
  - rewrite Hquiet in Hn. discriminate.
Qed.




(** Every vehicle of the list has a request sent for it during the
    round. *)
Lemma round_requests_every_vehicle (env : Env) (ids : list value) :
  forall w,
  exists sent,
    requests (fold_left (after_vehicle env) ids w) = sent ++ requests w /\
    forall vehicle_id, In vehicle_id ids ->
      exists r, In r sent /\ req_vehicleId r = vehicle_id.
Proof.
  induction ids as [ | v rest IH ]; intros w; simpl.
  - exists []. split; [ reflexivity | intros ? [] ].
  - destruct (requests_after_vehicle env w v) as [later Hlater].
    destruct (IH (after_vehicle env w v)) as [sent [Hsent Hall]].
    exists (sent ++ later ++ [first_request w v None]).
    split.
    + rewrite Hsent, Hlater, <- !app_assoc. reflexivity.
    + intros vehicle_id [<- | Hin].
      * exists (first_request w v None). split; [ | reflexivity ].
        apply in_or_app. right. apply in_or_app. right. left. reflexivity.
      * destruct (Hall vehicle_id Hin) as [r [Hr Hid]].
        exists r. split; [ | exact Hid ].
        apply in_or_app. left. exact Hr.
Qed.

(** C7. A network or parse error on one vehicle leaves the table as it
    was and does not stop the loop over the vehicles: as long as Ctrl-C
    does not arrive, every vehicle of the list gets its turn (fetch,
    then store if something was fetched), each from the world the turn
    before it left, and a request is sent for every vehicle of the list.
    With the vehicles 1, 2, 3 and an undecodable body for vehicle 2, the
    records of 1 and 3 are stored as they are when vehicle 2 is not in
    the list. *)
Theorem fetch_failure_is_isolated :
  (forall env ids w,
     never_interrupted env ->
     for_each ids poll_vehicle env w
     = (Ok tt, fold_left (after_vehicle env) ids w)) /\
  (forall env ids w,
     never_interrupted env ->
     exists sent,
       requests (snd (for_each ids poll_vehicle env w))
       = sent ++ requests w /\
       forall vehicle_id, In vehicle_id ids ->
         exists r, In r sent /\ req_vehicleId r = vehicle_id) /\
  (forall env w vehicle_id,
     classify (first_answer env w vehicle_id None) = Some NetworkError \/
     classify (first_answer env w vehicle_id None) = Some ParseError \/
     (exists data,
        first_answer env w vehicle_id None = Response 200 (Some data) /\
        forall d, data <> VDict d) ->
     db (after_vehicle env w vehicle_id) = db w) /\
  map vehicle_id_of
    (db (snd (for_each [VInt 1; VInt 2; VInt 3] poll_vehicle
                vehicle_2_garbled (world_with_token "tok"))))
  = [SInteger 1; SInteger 3] /\
  db (snd (for_each [VInt 1; VInt 2; VInt 3] poll_vehicle
             vehicle_2_garbled (world_with_token "tok")))
  = db (snd (for_each [VInt 1; VInt 3] poll_vehicle
               vehicle_2_garbled (world_with_token "tok"))).
Proof.
  assert (Hloop : forall env ids w,
             never_interrupted env ->
             for_each ids poll_vehicle env w
             = (Ok tt, fold_left (after_vehicle env) ids w)).
  { intros env ids w Hquiet. revert w.
    induction ids as [ | vehicle_id rest IH ]; intros w; simpl.
    - reflexivity.
    - unfold bind. rewrite (poll_vehicle_completes env w _ Hquiet).
      apply IH. }
  split; [ exact Hloop | split; [ | split; [ | split ] ] ].
  - intros env ids w Hquiet. rewrite (Hloop env ids w Hquiet).
    apply round_requests_every_vehicle.
  - intros env w vehicle_id Hclass. unfold after_vehicle.
    destruct (poll_vehicle_run vehicle_id env w) as [data [w1 [Hfetch ->]]].
    rewrite fetch_vehicle_location_unfold, fetch_from_unfold in Hfetch.
    assert (Hdb : db (if truthy data
                      then snd (store_location_data data env w1)
                      else w1) = db w).
    { destruct Hclass as [Hclass | [Hclass | [body [Hbody Hshape]]]].
      - destruct (classified_error_fetches_none env w vehicle_id NetworkError
                    Hclass ltac:(discriminate)) as [Hauth Hnone].
        rewrite (fetch_body_plain _ env w vehicle_id None Hauth), Hnone
          in Hfetch.
        injection Hfetch as <- <-. reflexivity.
      - destruct (classified_error_fetches_none env w vehicle_id ParseError
                    Hclass ltac:(discriminate)) as [Hauth Hnone].
        rewrite (fetch_body_plain _ env w vehicle_id None Hauth), Hnone
          in Hfetch.
        injection Hfetch as <- <-. reflexivity.
      - assert (Hauth : is_auth_failure (first_answer env w vehicle_id None)
                        = false) by (rewrite Hbody; reflexivity).
        rewrite (fetch_body_plain _ env w vehicle_id None Hauth), Hbody
          in Hfetch.
        injection Hfetch as <- <-. simpl fetched.
        rewrite (store_location_data_not_dict env _ body Hshape).
        destruct (truthy body); reflexivity. }
    rewrite sleep_run by reflexivity.
    destruct (interrupted env _); simpl snd; exact Hdb.
  - reflexivity.
  - reflexivity.
Qed.

Lemma fetch_failure_is_isolated_witness :
  for_each [VInt 1; VInt 2; VInt 3] poll_vehicle vehicle_2_garbled
    (world_with_token "tok")
  = (Ok tt,
     fold_left (after_vehicle vehicle_2_garbled) [VInt 1; VInt 2; VInt 3]
       (world_with_token "tok")) /\
  (exists sent,
     requests (snd (for_each [VInt 1; VInt 2; VInt 3] poll_vehicle
                      vehicle_2_garbled (world_with_token "tok")))
     = sent ++ [] /\
     forall vehicle_id, In vehicle_id [VInt 1; VInt 2; VInt 3] ->
       exists r, In r sent /\ req_vehicleId r = vehicle_id) /\
  db (after_vehicle vehicle_2_garbled (world_with_token "tok") (VInt 2))
  = [].
Proof.
  destruct fetch_failure_is_isolated as (Hloop & Hsent & Hfail & _).
  assert (Hquiet : never_interrupted vehicle_2_garbled)
    by (intros n; reflexivity).
  split; [ | split ].
  - apply Hloop. exact Hquiet.
  - apply (Hsent vehicle_2_garbled [VInt 1; VInt 2; VInt 3]
             (world_with_token "tok") Hquiet).
  - apply (Hfail vehicle_2_garbled (world_with_token "tok") (VInt 2)).
    right. left. reflexivity.
Defined.




(** ** The scenario of the specification *)

(** Vehicle 42: the first round stores record 1, the second round, with
    the same values, stores nothing, the third round, at speed 25, stores
    record 2. *)
Example three_rounds_two_records :
  map (fun r => nth 23 (cells r) SNull)
    (db (snd (run_periodic_fetch 1 vehicle_42_speeds_up
                (world_with_token "tok")))) = [SReal 10] /\
  map (fun r => nth 23 (cells r) SNull)
    (db (snd (run_periodic_fetch 2 vehicle_42_speeds_up
                (world_with_token "tok")))) = [SReal 10] /\
  map (fun r => nth 23 (cells r) SNull)
    (db (snd (run_periodic_fetch 3 vehicle_42_speeds_up
                (world_with_token "tok")))) = [SReal 10; SReal 25].
Proof. repeat split; reflexivity. Qed.

(** A token saved more than twelve hours ago is dropped when the tracker
    is built, so [run_periodic_fetch] logs in before polling; a recent
    one is used as it is. *)
Example expired_token_forces_login :
  logins (snd (main 1 calm (world_at (1000 + 43200 + 1)))) = 1%nat /\
  logins (snd (main 1 calm (world_at 2000))) = 0%nat /\
  fst (main 1 login_broken (world_at (1000 + 43200 + 1)))
  = Ok InitialLoginFailed.
Proof. repeat split; reflexivity. Qed.

(** * Further properties of the code *)

(** ** Composing what operations change *)

Lemma satisfies_bind {A B : Type} (c : M A) (k : A -> M B)
  (R1 R2 R : Env -> world -> world -> Prop) :
  satisfies c R1 -> (forall a, satisfies (k a) R2) ->
  (forall env w w1, R1 env w w1 -> R env w w1) ->
  (forall env w w1 w2, R1 env w w1 -> R2 env w1 w2 -> R env w w2) ->
  satisfies (bind c k) R.
Proof.
  intros Hc Hk Hraise Hseq env w. unfold bind.
  specialize (Hc env w). destruct (c env w) as [[a | e] w1]; simpl in *.
  - apply (Hseq env w w1); [ exact Hc | apply Hk ].
  - apply Hraise. exact Hc.
Qed.

Lemma within_refl (w : world) : within 0 0 0 w w.
Proof.
  repeat split.
  - exists []. rewrite app_nil_r. auto.
  - exists []. auto.
  - lia.
  - lia.
Qed.

Lemma within_weaken (a b c a' b' c' : nat) (w w' : world) :
  (a <= a')%nat -> (b <= b')%nat -> (c <= c')%nat ->
  within a b c w w' -> within a' b' c' w w'.
Proof.
  intros Ha Hb Hc ((new & Hnew & Hn) & (sent & Hsent & Hs) & Hl1 & Hl2).
  repeat split.
  - exists new. split; [ exact Hnew | lia ].
  - exists sent. split; [ exact Hsent | lia ].
  - exact Hl1.
  - lia.
Qed.

Lemma within_trans (a b c a' b' c' : nat) (w w1 w2 : world) :
  within a b c w w1 -> within a' b' c' w1 w2 ->
  within (a + a') (b + b') (c + c') w w2.
Proof.
  intros ((new & Hnew & Hn) & (sent & Hsent & Hs) & Hl1 & Hl2)
         ((new' & Hnew' & Hn') & (sent' & Hsent' & Hs') & Hl1' & Hl2').
  repeat split.
  - exists (new ++ new'). rewrite Hnew', Hnew, app_assoc, length_app.
    split; [ reflexivity | lia ].
  - exists (sent' ++ sent). rewrite Hsent', Hsent, app_assoc, length_app.
    split; [ reflexivity | lia ].
  - lia.
  - lia.
Qed.

(** ** The footprint of [login_with_selenium] *)

Lemma logins_after_login (env : Env) (w : world) :
  logins (after_login env w) = S (logins w).
Proof. after_login_cases env w. Qed.

Lemma ticks_after_login (env : Env) (w : world) :
  ticks (after_login env w) = ticks w.
Proof. after_login_cases env w. Qed.

Lemma clock_after_login (env : Env) (w : world) :
  clock (after_login env w)
  == clock w + login_time (browser_login env (logins w)).
Proof.
  unfold after_login, paused, login_time.
  destruct (browser_login env (logins w)) as [ [ | ] | entry ];
    cbn [clock set_clock count_login]; try reflexivity.
  - ring.
  - cbv zeta. destruct (truthy _); reflexivity.
Qed.

Lemma within_after_login (env : Env) (w : world) :
  within 0 0 1 w (after_login env w).
Proof.
  repeat split.
  - exists []. rewrite db_after_login, app_nil_r. auto.
  - exists []. rewrite requests_after_login. auto.
  - rewrite logins_after_login. lia.
  - rewrite logins_after_login. lia.
Qed.

Lemma after_login_token (env : Env) (w : world) :
  login_succeeds env w = true ->
  exists s,
    browser_login env (logins w) = LocalStorage (Some s) /\
    s <> EmptyString /\
    access_token (after_login env w) = VStr s /\
    bearer (after_login env w) = Some (VStr s).
Proof.
  unfold login_succeeds, after_login, bearer.
  destruct (browser_login env (logins w)) as [ | [s | ] ]; try discriminate.
  intros Hs. exists s. split; [ reflexivity | ].
  split; [ intros ->; discriminate | ].
  cbv zeta. cbv beta iota delta [truthy]. rewrite Hs.
  cbn [access_token set_token_file set_access_token truthy].
  rewrite Hs. split; reflexivity.
Qed.

Lemma time_of_logins_app (env : Env) (n m : nat) :
  forall first,
    time_of_logins env first (n + m)
    == time_of_logins env first n + time_of_logins env (first + n) m.
Proof.
  induction n as [ | n IH ]; intros first.
  - cbn [time_of_logins Nat.add]. rewrite Nat.add_0_r. ring.
  - cbn [time_of_logins Nat.add]. rewrite IH.
    replace (first + S n)%nat with (S first + n)%nat by lia. ring.
Qed.


Lemma clock_moved_trans (env : Env) (s1 s2 : Q) (w w1 w2 : world) :
  clock_moved env s1 w w1 -> clock_moved env s2 w1 w2 ->
  clock_moved env (s1 + s2) w w2.
Proof.
  intros [Hl1 Hc1] [Hl2 Hc2]. split; [ lia | ].
  replace (logins w2 - logins w)%nat
    with ((logins w1 - logins w) + (logins w2 - logins w1))%nat by lia.
  rewrite time_of_logins_app, Hc2, Hc1.
  replace (logins w + (logins w1 - logins w))%nat with (logins w1) by lia.
  ring.
Qed.

Lemma clock_moved_same (env : Env) (w w' : world) :
  logins w' = logins w -> clock w' = clock w -> clock_moved env 0 w w'.
Proof.
  intros Hl Hc. split; [ lia | ].
  rewrite Hl, Hc, Nat.sub_diag. cbn [time_of_logins]. ring.
Qed.

Lemma clock_moved_login (env : Env) (w : world) :
  clock_moved env 0 w (after_login env w).
Proof.
  split; [ rewrite logins_after_login; lia | ].
  rewrite logins_after_login, clock_after_login.
  replace (S (logins w) - logins w)%nat with 1%nat by lia.
  cbn [time_of_logins]. ring.
Qed.

(** ** The footprint of [fetch_vehicle_location] *)

Lemma fetch_from_footprint (depth : nat) (vehicle_id : value) :
  forall timestamp env w,
    db (snd (fetch_from depth vehicle_id timestamp env w)) = db w /\
    ticks (snd (fetch_from depth vehicle_id timestamp env w)) = ticks w /\
    exists later,
      requests (snd (fetch_from depth vehicle_id timestamp env w))
      = later ++ first_request w vehicle_id timestamp :: requests w /\
      (List.length later <= depth)%nat /\
      Forall (retry_of env w vehicle_id timestamp) later /\
      (logins w + List.length later
       <= logins (snd (fetch_from depth vehicle_id timestamp env w)))%nat /\
      (logins (snd (fetch_from depth vehicle_id timestamp env w))
       <= logins w + S (List.length later))%nat.
Proof.
  induction depth as [ | d IH ]; intros timestamp env w;
    rewrite fetch_from_unfold;
    destruct (is_auth_failure (first_answer env w vehicle_id timestamp))
      eqn:Hauth;
    try (rewrite (fetch_body_plain _ env w vehicle_id timestamp Hauth);
         repeat split; exists []; simpl; repeat split;
         [ lia | constructor | lia | lia ]);
    rewrite (fetch_body_auth _ env w vehicle_id timestamp Hauth);
    (destruct (login_succeeds env w) eqn:Hlogin;
     [ rewrite try_except_ret_world
     | simpl;
       rewrite db_after_login, ticks_after_login,
         requests_after_login, logins_after_login;
       repeat split; exists []; simpl; repeat split;
       [ lia | constructor | lia | lia ] ]).
  - simpl.
    rewrite db_after_login, ticks_after_login,
      requests_after_login, logins_after_login.
    repeat split. exists []. simpl. repeat split;
      [ lia | constructor | lia | lia ].
  - set (r := first_request w vehicle_id timestamp).
    set (w2 := after_login env (rejected w r)).
    destruct (IH (Some (request_time w timestamp)) env w2)
      as (Hdb & Hticks & later & Hreq & Hlen & Hall & Hlo & Hhi).
    assert (Hlog2 : logins w2 = S (logins w)).
    { unfold w2. rewrite logins_after_login. reflexivity. }
    rewrite Hdb, Hticks.
    unfold w2 at 1 2.
    rewrite db_after_login, ticks_after_login.
    repeat split.
    exists (later ++ [first_request w2 vehicle_id
                        (Some (request_time w timestamp))]).
    rewrite Hreq, length_app. simpl.
    unfold w2 at 2. rewrite requests_after_login. simpl.
    rewrite <- app_assoc. repeat split.
    + lia.
    + apply Forall_app. split.
      * eapply Forall_impl; [ | exact Hall ].
        intros q (Hv & Ht & Hb). repeat split; assumption.
      * constructor; [ | constructor ].
        repeat split.
        destruct (after_login_token env (rejected w r))
          as (s & Hs & _ & _ & Hb).
        { exact Hlogin. }
        exists (logins w), s. split; [ exact Hs | exact Hb ].
    + lia.
    + lia.
Qed.

Lemma fetch_from_clock (depth : nat) (vehicle_id : value) :
  forall timestamp env w,
    clock_moved env 0 w (snd (fetch_from depth vehicle_id timestamp env w)).
Proof.
  assert (Hrejected : forall env w r,
            clock_moved env 0 w (after_login env (rejected w r))).
  { intros env w r.
    assert (E : 0 == 0 + 0) by ring.
    destruct (clock_moved_trans env 0 0 w (rejected w r)
                (after_login env (rejected w r))) as [Hl Hc].
    - apply clock_moved_same; reflexivity.
    - apply clock_moved_login.
    - split; [ exact Hl | ]. rewrite Hc. ring. }
  induction depth as [ | d IH ]; intros timestamp env w;
    rewrite fetch_from_unfold;
    destruct (is_auth_failure (first_answer env w vehicle_id timestamp))
      eqn:Hauth;
    try (rewrite (fetch_body_plain _ env w vehicle_id timestamp Hauth);
         apply clock_moved_same; reflexivity);
    rewrite (fetch_body_auth _ env w vehicle_id timestamp Hauth);
    (destruct (login_succeeds env w) eqn:Hlogin;
     [ rewrite try_except_ret_world | apply Hrejected ]).
  - apply Hrejected.
  - destruct (clock_moved_trans env 0 0 w _ _
                (Hrejected env w (first_request w vehicle_id timestamp))
                (IH (Some (request_time w timestamp)) env
                   (after_login env
                      (rejected w (first_request w vehicle_id timestamp)))))
      as [Hl Hc].
    split; [ exact Hl | ]. rewrite Hc. ring.
Qed.
(** X1. One call of [fetch_vehicle_location] leaves the table alone and
    moves the clock by the time of the logins it makes and by nothing
    else; it sends its first request and then at most [recursion_limit]
    more, each of them for the same vehicle and the same time as the
    first and with a token read from the browser; it makes one login per
    request sent, the last one possibly excepted. *)
Theorem fetch_vehicle_location_footprint :
  forall vehicle_id timestamp env w,
    db (snd (fetch_vehicle_location vehicle_id timestamp env w)) = db w /\
    clock (snd (fetch_vehicle_location vehicle_id timestamp env w))
    == clock w
       + time_of_logins env (logins w)
           (logins (snd (fetch_vehicle_location vehicle_id timestamp env w))
            - logins w) /\
    exists later,
      requests (snd (fetch_vehicle_location vehicle_id timestamp env w))
      = later ++ first_request w vehicle_id timestamp :: requests w /\
      (List.length later <= recursion_limit env)%nat /\
      Forall (retry_of env w vehicle_id timestamp) later /\
      (logins w + List.length later
       <= logins (snd (fetch_vehicle_location vehicle_id timestamp env w)))
      %nat /\
      (logins (snd (fetch_vehicle_location vehicle_id timestamp env w))
       <= logins w + S (List.length later))%nat.
Proof.
  intros vehicle_id timestamp env w.
  rewrite fetch_vehicle_location_unfold.
  destruct (fetch_from_footprint (recursion_limit env) vehicle_id timestamp
              env w) as (Hdb & _ & Hrest).
  destruct (fetch_from_clock (recursion_limit env) vehicle_id timestamp
              env w) as [_ Hclock].
  split; [ exact Hdb | ]. split; [ | exact Hrest ].
  rewrite Hclock. ring.
Qed.

Lemma fetch_from_result (depth : nat) (vehicle_id : value) :
  forall timestamp env w,
  exists data,
    fst (fetch_from depth vehicle_id timestamp env w) = Ok data /\
    (data = VNone \/
     exists r earlier,
       requests (snd (fetch_from depth vehicle_id timestamp env w))
       = r :: earlier /\
       remote env r (List.length earlier) = Response 200 (Some data)).
Proof.
  induction depth as [ | d IH ]; intros timestamp env w;
    rewrite fetch_from_unfold;
    destruct (is_auth_failure (first_answer env w vehicle_id timestamp))
      eqn:Hauth.
  1, 3: rewrite (fetch_body_auth _ env w vehicle_id timestamp Hauth);
    destruct (login_succeeds env w);
    [ | exists VNone; split; [ reflexivity | left; reflexivity ] ].
  - exists VNone. split; [ reflexivity | left; reflexivity ].
  - destruct (IH (Some (request_time w timestamp)) env
                (after_login env
                   (rejected w (first_request w vehicle_id timestamp))))
      as (data & Hfst & Hdata).
    rewrite (try_except_ok _ _ _ _ data Hfst).
    exists data. split; assumption.
  - rewrite (fetch_body_plain _ env w vehicle_id timestamp Hauth).
    exists (fetched (first_answer env w vehicle_id timestamp)).
    split; [ reflexivity | ].
    unfold fetched.
    destruct (first_answer env w vehicle_id timestamp)
      as [ | status_code [data | ] ] eqn:Hanswer; auto.
    destruct (Z.eqb status_code 200) eqn:E200; auto.
    apply Z.eqb_eq in E200. subst status_code.
    right. exists (first_request w vehicle_id timestamp), (requests w).
    split; [ reflexivity | exact Hanswer ].
  - rewrite (fetch_body_plain _ env w vehicle_id timestamp Hauth).
    exists (fetched (first_answer env w vehicle_id timestamp)).
    split; [ reflexivity | ].
    unfold fetched.
    destruct (first_answer env w vehicle_id timestamp)
      as [ | status_code [data | ] ] eqn:Hanswer; auto.
    destruct (Z.eqb status_code 200) eqn:E200; auto.
    apply Z.eqb_eq in E200. subst status_code.
    right. exists (first_request w vehicle_id timestamp), (requests w).
    split; [ reflexivity | exact Hanswer ].
Qed.

(** X2. What [fetch_vehicle_location] returns is [None] or the JSON body
    of the last request it sent, and that request was answered 200: no
    other answer is ever handed on as data. *)
Theorem fetched_data_is_body_of_last_200 :
  forall vehicle_id timestamp env w,
  exists data,
    fst (fetch_vehicle_location vehicle_id timestamp env w) = Ok data /\
    (data = VNone \/
     exists r earlier,
       requests (snd (fetch_vehicle_location vehicle_id timestamp env w))
       = r :: earlier /\
       remote env r (List.length earlier) = Response 200 (Some data)).
Proof.
  intros vehicle_id timestamp env w.
  rewrite fetch_vehicle_location_unfold. apply fetch_from_result.
Qed.

(** ** What one round and a whole run change *)

Lemma within_fetch (env : Env) (w : world) (vehicle_id : value)
  (timestamp : option Z) :
  within 0 (S (recursion_limit env)) (S (recursion_limit env)) w
    (snd (fetch_vehicle_location vehicle_id timestamp env w)).
Proof.
  rewrite fetch_vehicle_location_unfold.
  destruct (fetch_from_footprint (recursion_limit env) vehicle_id timestamp
              env w)
    as (Hdb & _ & later & Hreq & Hlen & _ & Hlo & Hhi).
  repeat split.
  - exists []. rewrite Hdb, app_nil_r. auto.
  - exists (later ++ [first_request w vehicle_id timestamp]).
    rewrite Hreq, <- app_assoc, length_app. simpl. split; [ reflexivity | lia ].
  - lia.
  - lia.
Qed.

Lemma store_location_data_frame (env : Env) (w : world) (data : value) :
  access_token (snd (store_location_data data env w)) = access_token w /\
  token_file (snd (store_location_data data env w)) = token_file w /\
  clock (snd (store_location_data data env w)) = clock w /\
  requests (snd (store_location_data data env w)) = requests w /\
  logins (snd (store_location_data data env w)) = logins w /\
  (db (snd (store_location_data data env w)) = db w \/
   exists d r,
     data = VDict d /\ row_of_data d = Some r /\
     db (snd (store_location_data data env w)) = db w ++ [r]).
Proof.
  assert (Hsel : forall v,
            access_token (after_select w v) = access_token w /\
            token_file (after_select w v) = token_file w /\
            clock (after_select w v) = clock w /\
            requests (after_select w v) = requests w /\
            logins (after_select w v) = logins w /\
            db (after_select w v) = db w).
  { intros v. unfold after_select. destruct (bind_param v); repeat split. }
  destruct data as [ | b | z | q | s | l | d ];
    try (rewrite store_location_data_not_dict; [ | intros d; discriminate ];
         repeat split; left; reflexivity).
  rewrite store_location_data_run. cbv zeta.
  destruct (Hsel (get "vehicleId" d)) as (H1 & H2 & H3 & H4 & H5 & H6).
  destruct (_has_data_changed d _);
    [ | simpl; repeat split; auto ].
  destruct (row_of_data d) as [r | ] eqn:Hrow;
    [ | simpl; repeat split; auto ].
  destruct (insert_raises env _); simpl; repeat split; auto.
  right. exists d, r. rewrite H6. auto.
Qed.

Lemma within_store (env : Env) (w : world) (data : value) :
  within 1 0 0 w (snd (store_location_data data env w)).
Proof.
  destruct (store_location_data_frame env w data)
    as (_ & _ & _ & Hreq & Hlog & Hdb).
  repeat split.
  - destruct Hdb as [Hdb | (d & r & _ & _ & Hdb)].
    + exists []. rewrite Hdb, app_nil_r. auto.
    + exists [r]. auto.
  - exists []. rewrite Hreq. auto.
  - lia.
  - lia.
Qed.

Lemma within_sleep (seconds : Q) (env : Env) (w : world) :
  within 0 0 0 w (snd (sleep seconds env w)).
Proof.
  repeat split.
  - exists []. rewrite db_after_sleep, app_nil_r. auto.
  - exists []. rewrite requests_after_sleep. auto.
  - rewrite logins_after_sleep. lia.
  - rewrite logins_after_sleep. lia.
Qed.

Lemma within_poll_vehicle (env : Env) (w : world) (vehicle_id : value) :
  within 1 (S (recursion_limit env)) (S (recursion_limit env)) w
    (snd (poll_vehicle vehicle_id env w)).
Proof.
  destruct (poll_vehicle_run vehicle_id env w) as (data & w1 & Hfetch & ->).
  assert (H1 : within 0 (S (recursion_limit env)) (S (recursion_limit env))
                 w w1).
  { generalize (within_fetch env w vehicle_id None).
    rewrite Hfetch. auto. }
  assert (H2 : within 1 (S (recursion_limit env)) (S (recursion_limit env)) w
                 (if truthy data
                  then snd (store_location_data data env w1) else w1)).
  { destruct (truthy data).
    - eapply within_weaken;
        [ | | | exact (within_trans _ _ _ _ _ _ _ _ _ H1
                        (within_store env w1 data)) ]; lia.
    - eapply within_weaken; [ | | | exact H1 ]; lia. }
  eapply within_weaken;
    [ | | | exact (within_trans _ _ _ _ _ _ _ _ _ H2 (within_sleep 2 env _)) ];
    lia.
Qed.

Lemma within_for_each (env : Env) (ids : list value) :
  forall w,
    within (List.length ids)
      (List.length ids * S (recursion_limit env))
      (List.length ids * S (recursion_limit env)) w
      (snd (for_each ids poll_vehicle env w)).
Proof.
  induction ids as [ | vehicle_id rest IH ]; intros w.
  - apply within_refl.
  - cbn [for_each]. unfold bind.
    pose proof (within_poll_vehicle env w vehicle_id) as H1.
    destruct (poll_vehicle vehicle_id env w) as [[u | e] w1]; simpl snd in *.
    + eapply within_weaken;
        [ | | | exact (within_trans _ _ _ _ _ _ _ _ _ H1 (IH w1)) ];
        simpl; lia.
    + eapply within_weaken; [ | | | exact H1 ]; simpl; lia.
Qed.

Lemma within_sleep_for (seconds : value) (env : Env) (w : world) :
  within 0 0 0 w (snd (sleep_for seconds env w)).
Proof.
  unfold sleep_for. destruct (num_of seconds) as [s | ].
  - apply within_sleep.
  - apply within_refl.
Qed.

Lemma within_while_true (env : Env) (ids : list value) (interval : value)
  (cycles : nat) :
  forall w,
    within (cycles * List.length ids)
      (cycles * (List.length ids * S (recursion_limit env)))
      (cycles * (List.length ids * S (recursion_limit env))) w
      (snd (while_true cycles ids interval env w)).
Proof.
  induction cycles as [ | n IH ]; intros w.
  - apply within_refl.
  - cbn [while_true]. unfold bind.
    pose proof (within_for_each env ids w) as H1.
    destruct (for_each ids poll_vehicle env w) as [[u | e] w1];
      simpl snd in *.
    + pose proof (within_sleep_for interval env w1) as H2.
      destruct (sleep_for interval env w1) as [[u' | e] w2]; simpl snd in *.
      * eapply within_weaken;
          [ | | | exact (within_trans _ _ _ _ _ _ _ _ _
                          (within_trans _ _ _ _ _ _ _ _ _ H1 H2) (IH w2)) ];
          simpl; lia.
      * eapply within_weaken;
          [ | | | exact (within_trans _ _ _ _ _ _ _ _ _ H1 H2) ];
          simpl; lia.
    + eapply within_weaken; [ | | | exact H1 ]; simpl; lia.
Qed.

Lemma run_periodic_fetch_run (cycles : nat) (env : Env) (w : world) :
  run_periodic_fetch cycles env w
  = if truthy (access_token w) then polling cycles env w
    else if login_succeeds env w
         then polling cycles env (after_login env w)
         else (Ok InitialLoginFailed, after_login env w).
Proof.
  unfold run_periodic_fetch, polling.
  cbv beta iota zeta delta [bind gets ask ret].
  destruct (truthy (access_token w)); simpl negb; cbv iota.
  - reflexivity.
  - rewrite login_run. destruct (login_succeeds env w); reflexivity.
Qed.

Lemma snd_polling (cycles : nat) (env : Env) (w : world) :
  snd (polling cycles env w)
  = snd (while_true cycles (config_vehicle_ids env) (config_interval env)
           env w).
Proof.
  unfold polling.
  destruct (while_true cycles _ _ env w) as [[u | [what | ]] w1];
    reflexivity.
Qed.

Lemma load_saved_token_world (env : Env) (w : world) :
  _load_saved_token env w = (Ok tt, set_access_token (token_after_load w) w).
Proof.
  destruct w as [tok f rows now reqs n t].
  unfold _load_saved_token, token_after_load.
  cbv beta iota zeta delta
    [bind modify gets try_except token_file_exists json_load_token_file ret
     token_file clock access_token set_access_token db requests logins
     ticks].
  destruct f as [ | | [ | b | z | q | s | l | d ] ]; try reflexivity.
  cbv beta iota zeta delta [as_dict ret raise token_is_recent].
  destruct (num_of (get_default "saved_at" (VInt 0) d)) as [saved_time | ];
    [ | reflexivity ].
  destruct (Qlt_bool (now - saved_time) validity_window); reflexivity.
Qed.

Lemma init_run_world (env : Env) (w : world) :
  exists tok,
    init env w = (Ok tt, set_access_token tok w).
Proof.
  unfold init, bind, modify. rewrite load_saved_token_world.
  eexists. reflexivity.
Qed.

(** X3. Whatever the surroundings do and however the run ends, [main]
    only appends to the table: the rows that were there stay as they
    were and in place, and at most one row per configured vehicle and
    round is added. The requests sent and the logins made are bounded by
    the recursion limit: per vehicle and round at most
    [recursion_limit + 1] of each, and one login more at the start. *)
Theorem run_only_appends_bounded :
  forall cycles env w,
    within
      (cycles * List.length (config_vehicle_ids env))
      (cycles * (List.length (config_vehicle_ids env)
                 * S (recursion_limit env)))
      (S (cycles * (List.length (config_vehicle_ids env)
                    * S (recursion_limit env))))
      w (snd (main cycles env w)).
Proof.
  intros cycles env w. unfold main, bind.
  destruct (init_run_world env w) as (tok & ->).
  set (w0 := set_access_token tok w).
  assert (H0 : within 0 0 0 w w0).
  { repeat split; simpl; try lia.
    - exists []. rewrite app_nil_r. auto.
    - exists []. auto. }
  rewrite run_periodic_fetch_run.
  destruct (truthy (access_token w0)).
  - rewrite snd_polling.
    eapply within_weaken;
      [ | | | exact (within_trans _ _ _ _ _ _ _ _ _ H0
                      (within_while_true env _ _ cycles w0)) ]; simpl; lia.
  - pose proof (within_after_login env w0) as H1.
    destruct (login_succeeds env w0).
    + rewrite snd_polling.
      eapply within_weaken;
        [ | | | exact (within_trans _ _ _ _ _ _ _ _ _
                        (within_trans _ _ _ _ _ _ _ _ _ H0 H1)
                        (within_while_true env _ _ cycles _)) ];
        simpl; lia.
    + eapply within_weaken;
        [ | | | exact (within_trans _ _ _ _ _ _ _ _ _ H0 H1) ]; simpl; lia.
Qed.

(** ** Composing properties that are reflexive and transitive *)

Section Invariants.

Variable R : Env -> world -> world -> Prop.
Hypothesis R_refl : forall env w, R env w w.
Hypothesis R_trans :
  forall env w1 w2 w3, R env w1 w2 -> R env w2 w3 -> R env w1 w3.

Lemma satisfies_seq {A B : Type} (c : M A) (k : A -> M B) :
  satisfies c R -> (forall a, satisfies (k a) R) -> satisfies (bind c k) R.
Proof.
  intros Hc Hk.
  apply (satisfies_bind c k R R R Hc Hk); [ auto | exact R_trans ].
Qed.

Lemma satisfies_for_each (body : value -> M unit) (ids : list value) :
  (forall vehicle_id, satisfies (body vehicle_id) R) ->
  satisfies (for_each ids body) R.
Proof.
  intros Hbody. induction ids as [ | vehicle_id rest IH ].
  - intros env w. apply R_refl.
  - cbn [for_each]. apply satisfies_seq; [ apply Hbody | intros _; exact IH ].
Qed.

Lemma satisfies_sleep_for (interval : value) :
  (forall seconds, satisfies (sleep seconds) R) ->
  satisfies (sleep_for interval) R.
Proof.
  intros Hsleep. unfold sleep_for.
  destruct (num_of interval) as [s | ]; [ apply Hsleep | ].
  intros env w. apply R_refl.
Qed.

Lemma satisfies_while_true (cycles : nat) (ids : list value)
  (interval : value) :
  (forall vehicle_id, satisfies (poll_vehicle vehicle_id) R) ->
  satisfies (sleep_for interval) R ->
  satisfies (while_true cycles ids interval) R.
Proof.
  intros Hbody Hsleep. induction cycles as [ | n IH ].
  - intros env w. apply R_refl.
  - cbn [while_true].
    apply satisfies_seq; [ apply satisfies_for_each, Hbody | intros _ ].
    apply satisfies_seq; [ exact Hsleep | intros _; exact IH ].
Qed.

Lemma satisfies_poll_vehicle (vehicle_id : value) :
  satisfies (fetch_vehicle_location vehicle_id None) R ->
  (forall data, satisfies (store_location_data data) R) ->
  satisfies (sleep 2) R ->
  satisfies (poll_vehicle vehicle_id) R.
Proof.
  intros Hfetch Hstore Hsleep. unfold poll_vehicle.
  apply satisfies_seq; [ exact Hfetch | intros data ].
  apply satisfies_seq; [ | intros _; exact Hsleep ].
  destruct (truthy data); [ apply Hstore | intros env w; apply R_refl ].
Qed.

Lemma satisfies_polling (cycles : nat) :
  (forall vehicle_id, satisfies (fetch_vehicle_location vehicle_id None) R) ->
  (forall data, satisfies (store_location_data data) R) ->
  (forall seconds, satisfies (sleep seconds) R) ->
  satisfies (polling cycles) R.
Proof.
  intros Hfetch Hstore Hsleep env w. rewrite snd_polling.
  apply satisfies_while_true; [ | apply satisfies_sleep_for, Hsleep ].
  intros vehicle_id. apply satisfies_poll_vehicle; auto.
Qed.

End Invariants.

(** ** The saved token *)

(** X4. A token file that is missing, is not JSON, or holds JSON that is
    no object is passed over: the tracker is built without a token and
    without an exception. *)
Theorem unreadable_token_file_is_ignored :
  forall env w,
    unreadable (token_file w) ->
    init env w = (Ok tt, set_access_token VNone w).
Proof.
  intros env w Hfile.
  unfold init, bind, modify. rewrite load_saved_token_world.
  unfold token_after_load. cbn [token_file set_access_token access_token].
  destruct (token_file w) as [ | | [ | b | z | q | s | l | d ] ];
    try reflexivity.
  contradiction.
Qed.

Lemma unreadable_token_file_is_ignored_witness :
  unreadable (token_file (world_with_file Garbled 1000)) /\
  init calm (world_with_file Garbled 1000)
  = (Ok tt, set_access_token VNone (world_with_file Garbled 1000)).
Proof.
  split; [ exact I | ].
  apply (unreadable_token_file_is_ignored calm (world_with_file Garbled 1000)).
  exact I.
Defined.

(** X5. A token file without [saved_at] counts as saved at time 0: its
    token is taken only while the clock is below twelve hours. *)
Theorem missing_saved_at_counts_as_zero :
  forall env w d,
    token_file w = Json (VDict d) ->
    dict_lookup "saved_at" d = None ->
    (clock w < validity_window ->
     access_token (snd (_load_saved_token env w)) = get "access_token" d) /\
    (~ clock w < validity_window ->
     access_token (snd (_load_saved_token env w)) = VNone).
Proof.
  intros env w d Hfile Hmissing.
  rewrite load_saved_token_world. unfold token_after_load.
  rewrite Hfile. unfold get_default. rewrite Hmissing.
  cbn [num_of snd access_token set_access_token].
  assert (Hiff : Qlt_bool (clock w - inject_Z 0) validity_window = true
                 <-> clock w < validity_window).
  { rewrite Qlt_bool_iff.
    setoid_replace (clock w - inject_Z 0) with (clock w) by ring.
    reflexivity. }
  destruct (Qlt_bool (clock w - inject_Z 0) validity_window); split; intros H.
  - reflexivity.
  - exfalso. apply H, Hiff. reflexivity.
  - apply Hiff in H. discriminate.
  - reflexivity.
Qed.

Lemma missing_saved_at_counts_as_zero_witness :
  access_token
    (snd (_load_saved_token calm
            (world_with_file file_without_saved_at 50000))) = VNone /\
  access_token
    (snd (_load_saved_token calm
            (world_with_file file_without_saved_at 40000))) = VStr "abc".
Proof.
  split.
  - destruct (missing_saved_at_counts_as_zero calm
                (world_with_file file_without_saved_at 50000)
                [("access_token", VStr "abc")] eq_refl eq_refl)
      as (_ & Hexpired).
    apply Hexpired. discriminate.
  - destruct (missing_saved_at_counts_as_zero calm
                (world_with_file file_without_saved_at 40000)
                [("access_token", VStr "abc")] eq_refl eq_refl)
      as (Hvalid & _).
    apply Hvalid. reflexivity.
Defined.

(** X6. A [saved_at] that is no number (a string, [null], a list) makes
    the age check raise after the token was assigned: the token is taken
    whatever its age. *)
Theorem saved_at_not_numeric_skips_age_check :
  forall env w d,
    token_file w = Json (VDict d) ->
    num_of (get_default "saved_at" (VInt 0) d) = None ->
    _load_saved_token env w
    = (Ok tt, set_access_token (get "access_token" d) w).
Proof.
  intros env w d Hfile Hsaved.
  rewrite load_saved_token_world. unfold token_after_load.
  rewrite Hfile, Hsaved. reflexivity.
Qed.

Lemma saved_at_not_numeric_skips_age_check_witness :
  access_token
    (snd (_load_saved_token calm
            (world_with_file file_saved_yesterday 1000000000)))
  = VStr "abc".
Proof.
  rewrite (saved_at_not_numeric_skips_age_check calm
             (world_with_file file_saved_yesterday 1000000000)
             [("access_token", VStr "abc"); ("saved_at", VStr "yesterday")]
             eq_refl eq_refl).
  reflexivity.
Defined.

Lemma token_file_after_login (env : Env) (w : world) :
  login_succeeds env w = true ->
  token_file (after_login env w)
  = saved (token_write env (S (logins w)))
      (access_token (after_login env w)) (clock w + 3) (token_file w).
Proof.
  unfold login_succeeds, after_login.
  destruct (browser_login env (logins w)) as [ | [s | ] ]; try discriminate.
  intros Hs. cbv zeta. cbv beta iota delta [truthy]. rewrite Hs. reflexivity.
Qed.

(** X7. Saving and loading fit together: when a login succeeds and the
    write of the token file goes through, the file is dated three
    seconds after the login began, and a tracker built later from the
    same file takes the token up while less than twelve hours have
    passed since that date, and drops it from then on. *)
Theorem login_then_restart_round_trip :
  forall env env' w now,
    login_succeeds env w = true ->
    token_write env (S (logins w)) = Written ->
    token_file (after_login env w)
    = credential_file (access_token (after_login env w)) (clock w + 3) /\
    (now - (clock w + 3) < validity_window ->
     access_token (snd (init env' (set_clock now (after_login env w))))
     = access_token (after_login env w)) /\
    (~ now - (clock w + 3) < validity_window ->
     access_token (snd (init env' (set_clock now (after_login env w))))
     = VNone).
Proof.
  intros env env' w now Hlogin Hwrite.
  pose proof (token_file_after_login env w Hlogin) as Hfile.
  rewrite Hwrite in Hfile. cbn [saved] in Hfile.
  set (tok := access_token (after_login env w)) in *.
  split; [ exact Hfile | ].
  assert (Hrun : init env' (set_clock now (after_login env w))
                 = (Ok tt,
                    if Qlt_bool (now - (clock w + 3)) validity_window
                    then set_access_token tok
                           (set_access_token VNone
                              (set_clock now (after_login env w)))
                    else set_access_token VNone
                           (set_access_token tok
                              (set_access_token VNone
                                 (set_clock now (after_login env w)))))).
  { unfold init, bind, modify.
    rewrite (load_saved_token_run env' _ tok (clock w + 3)).
    - reflexivity.
    - exact Hfile. }
  rewrite Hrun. split; intros H.
  - apply Qlt_bool_iff in H. rewrite H. reflexivity.
  - destruct (Qlt_bool (now - (clock w + 3)) validity_window) eqn:E;
      [ | reflexivity ].
    apply Qlt_bool_iff in E. contradiction.
Qed.

Lemma login_then_restart_round_trip_witness :
  access_token (snd (init calm (set_clock 44202 (after_login calm fresh_world))))
  = VStr "tok" /\
  access_token (snd (init calm (set_clock 44203 (after_login calm fresh_world))))
  = VNone.
Proof.
  destruct (login_then_restart_round_trip calm calm fresh_world 44202
              eq_refl eq_refl) as (_ & Hvalid & _).
  destruct (login_then_restart_round_trip calm calm fresh_world 44203
              eq_refl eq_refl) as (_ & _ & Hexpired).
  split.
  - rewrite Hvalid; reflexivity.
  - apply Hexpired. discriminate.
Defined.

(** ** Properties kept by a whole run *)

Section RunInvariants.

Variable R : Env -> world -> world -> Prop.
Hypothesis R_refl : forall env w, R env w w.
Hypothesis R_trans :
  forall env w1 w2 w3, R env w1 w2 -> R env w2 w3 -> R env w1 w3.
Hypothesis R_fetch :
  forall vehicle_id, satisfies (fetch_vehicle_location vehicle_id None) R.
Hypothesis R_store : forall data, satisfies (store_location_data data) R.
Hypothesis R_sleep : forall seconds, satisfies (sleep seconds) R.
Hypothesis R_login : forall env w, R env w (after_login env w).

Lemma satisfies_run_periodic_fetch (cycles : nat) :
  satisfies (run_periodic_fetch cycles) R.
Proof.
  intros env w. rewrite run_periodic_fetch_run.
  destruct (truthy (access_token w)).
  - apply satisfies_polling; auto.
  - destruct (login_succeeds env w); [ | apply R_login ].
    apply (R_trans env w (after_login env w)); [ apply R_login | ].
    apply satisfies_polling; auto.
Qed.

Hypothesis R_token : forall env w tok, R env w (set_access_token tok w).

Lemma satisfies_main (cycles : nat) : satisfies (main cycles) R.
Proof.
  intros env w. unfold main, bind.
  destruct (init_run_world env w) as (tok & ->).
  apply (R_trans env w (set_access_token tok w)); [ apply R_token | ].
  apply satisfies_run_periodic_fetch.
Qed.

End RunInvariants.

Lemma same_session_refl (w : world) : same_session w w.
Proof.
  split; [ repeat split | ].
  exists []. split; [ reflexivity | constructor ].
Qed.

Lemma same_session_trans (w1 w2 w3 : world) :
  same_session w1 w2 -> same_session w2 w3 -> same_session w1 w3.
Proof.
  intros [(Ht & Hf & Hl) (sent & Hsent & Hall)]
         [(Ht' & Hf' & Hl') (sent' & Hsent' & Hall')].
  split; [ repeat split; congruence | ].
  exists (sent' ++ sent). split.
  - rewrite Hsent', Hsent, app_assoc. reflexivity.
  - apply Forall_app. split; [ | exact Hall ].
    eapply Forall_impl; [ | exact Hall' ].
    intros r Hr. rewrite Hr. unfold bearer. rewrite Ht. reflexivity.
Qed.

Lemma fetch_never_rejected (env : Env) (w : world) (vehicle_id : value)
  (timestamp : option Z) :
  never_rejects env ->
  fetch_vehicle_location vehicle_id timestamp env w
  = (Ok (fetched (first_answer env w vehicle_id timestamp)),
     log_request (first_request w vehicle_id timestamp) w).
Proof.
  intros Hnever. rewrite fetch_vehicle_location_unfold, fetch_from_unfold.
  apply fetch_body_plain. apply Hnever.
Qed.

(** X9. Logins are made on demand only: a tracker that starts with a
    token and is never answered 401 or 403 makes no login in the whole
    run, keeps its token and its token file, and sends that token with
    every request. *)
Theorem no_rejection_no_login :
  forall cycles env w,
    truthy (access_token w) = true ->
    never_rejects env ->
    keeps_session w (snd (run_periodic_fetch cycles env w)) /\
    exists sent,
      requests (snd (run_periodic_fetch cycles env w)) = sent ++ requests w /\
      Forall (fun r => req_bearer r = Some (access_token w)) sent.
Proof.
  intros cycles env w Htoken Hnever.
  assert (H : same_session w (snd (run_periodic_fetch cycles env w))).
  { rewrite run_periodic_fetch_run, Htoken.
    revert Hnever.
    apply (satisfies_polling
             (fun env w w' => never_rejects env -> same_session w w')).
    - intros. apply same_session_refl.
    - intros env' w1 w2 w3 H12 H23 Hn.
      apply (same_session_trans w1 w2 w3); auto.
    - intros vehicle_id env' w' Hn.
      rewrite (fetch_never_rejected env' w' vehicle_id None Hn).
      split; [ repeat split | ].
      exists [first_request w' vehicle_id None].
      split; [ reflexivity | ].
      constructor; [ reflexivity | constructor ].
    - intros data env' w' _.
      destruct (store_location_data_frame env' w' data)
        as (Ht & Hf & _ & Hreq & Hlog & _).
      split; [ repeat split; assumption | ].
      exists []. split; [ exact Hreq | constructor ].
    - intros seconds env' w' _.
      sleep_cases seconds env' w'; simpl;
        (split; [ repeat split | ]);
        exists []; (split; [ reflexivity | constructor ]). }
  destruct H as [Hkeeps (sent & Hsent & Hall)].
  split; [ exact Hkeeps | ].
  exists sent. split; [ exact Hsent | ].
  eapply Forall_impl; [ | exact Hall ].
  intros r Hr. rewrite Hr. unfold bearer. rewrite Htoken. reflexivity.
Qed.

Lemma no_rejection_no_login_witness :
  logins (snd (run_periodic_fetch 2 calm (world_with_token "tok"))) = 0%nat.
Proof.
  destruct (no_rejection_no_login 2 calm (world_with_token "tok"))
    as [(_ & _ & Hlogins) _].
  - reflexivity.
  - intros r n. unfold calm, speed_10. cbn [remote].
    destruct (req_vehicleId r); reflexivity.
  - exact Hlogins.
Defined.

(** X10. Without a token and with an initial login that fails, the
    tracker gives up at once: it reports the failed login, has tried one
    login, and has sent no request and written no row. *)
Theorem failed_start_does_nothing :
  forall cycles env w,
    starts env w = false ->
    run_periodic_fetch cycles env w
    = (Ok InitialLoginFailed, after_login env w) /\
    requests (after_login env w) = requests w /\
    db (after_login env w) = db w /\
    logins (after_login env w) = S (logins w).
Proof.
  intros cycles env w Hstarts.
  unfold starts in Hstarts. apply orb_false_iff in Hstarts.
  destruct Hstarts as [Htoken Hlogin].
  rewrite run_periodic_fetch_run, Htoken, Hlogin.
  rewrite requests_after_login, db_after_login, logins_after_login.
  auto.
Qed.

Lemma failed_start_does_nothing_witness :
  fst (run_periodic_fetch 5 login_broken fresh_world) = Ok InitialLoginFailed.
Proof.
  destruct (failed_start_does_nothing 5 login_broken fresh_world) as (H & _).
  - reflexivity.
  - rewrite H. reflexivity.
Defined.

(** ** The sleeps of an uninterrupted run *)









(** ** The detector and the table *)

(** X12. The detector reads the twelve compared fields and nothing
    else: snapshots that agree on them get the same answer, whatever
    their vehicle, time stamp, other attributes or remaining fields
    are. *)
Theorem detector_reads_compared_fields_only :
  forall new new' old old',
    (forall f, In f compare_fields -> get f new' = get f new) ->
    (forall f, In f compare_fields -> get f old' = get f old) ->
    _has_data_changed new' (Some old') = _has_data_changed new (Some old).
Proof.
  intros new new' old old' Hnew Hold. unfold _has_data_changed.
  apply any_field_changed_ext. intros f Hf.
  rewrite (Hnew f Hf), (Hold f Hf). reflexivity.
Qed.

Lemma detector_reads_compared_fields_only_witness :
  _has_data_changed (snapshot 7 10) (Some (snapshot 42 10))
  = _has_data_changed (snapshot 42 10) (Some (snapshot 42 10)).
Proof.
  apply (detector_reads_compared_fields_only
           (snapshot 42 10) (snapshot 7 10) (snapshot 42 10) (snapshot 42 10)).
  - intros f Hf. simpl in Hf.
    repeat (destruct Hf as [<- | Hf]; [ reflexivity | ]).
    contradiction.
  - intros f Hf. reflexivity.
Defined.

(** X13. The baseline of the comparison is the record in the table:
    snapshots that the detector takes for the same as the most recent
    record of their vehicle leave the table as it is, however many of
    them arrive. *)
Theorem unchanged_snapshots_leave_table :
  forall env snapshots w,
    reads_work env -> readable (db w) ->
    Forall
      (fun d =>
         _has_data_changed d (most_recent (get "vehicleId" d) (db w)) = false)
      snapshots ->
    db (snd (for_each (map VDict snapshots) store_location_data env w))
    = db w.
Proof.
  intros env snapshots w Hreads.
  revert w. induction snapshots as [ | d rest IH ]; intros w Hreadable Hall.
  - reflexivity.
  - inversion Hall as [ | d' rest' Hd Hrest ]; subst.
    assert (Hdb : db (snd (store_location_data (VDict d) env w)) = db w).
    { rewrite store_location_data_db.
      rewrite (changed_against_most_recent env w d (get "vehicleId" d)
                 (Hreads (ticks w)) Hreadable), Hd.
      destruct (row_of_data d); reflexivity. }
    cbn [map for_each]. unfold bind.
    pose proof (store_location_data_ok env w (VDict d)) as Hok.
    destruct (store_location_data (VDict d) env w) as [o w1].
    simpl in Hok, Hdb. subst o.
    rewrite <- Hdb. apply IH; rewrite Hdb; assumption.
Qed.

Lemma unchanged_snapshots_leave_table_witness :
  db (snd (for_each
             (map VDict [snapshot 42 10; snapshot 42 10.00005;
                         snapshot 42 9.9999])
             store_location_data calm world_with_row_42))
  = [row_42].
Proof.
  apply (unchanged_snapshots_leave_table calm
           [snapshot 42 10; snapshot 42 10.00005; snapshot 42 9.9999]
           world_with_row_42).
  - intros n. reflexivity.
  - constructor; [ discriminate | constructor ].
  - repeat constructor.
Defined.

Lemma bind_all_none (vs : list value) (v : value) :
  In v vs -> bind_param v = None -> bind_all vs = None.
Proof.
  induction vs as [ | x rest IH ]; intros Hin Hv; [ contradiction | ].
  cbn [bind_all]. destruct Hin as [-> | Hin].
  - rewrite Hv. reflexivity.
  - rewrite (IH Hin Hv). destruct (bind_param x); reflexivity.
Qed.

(** X14. A snapshot with a value that no column can take (a list, an
    object, an integer beyond 64 bits) in any of the thirty-nine stored
    fields is never written, and [store_location_data] returns all the
    same. *)
Theorem unbindable_snapshot_is_dropped :
  forall env w d k,
    In k column_keys ->
    bind_param (get k d) = None ->
    fst (store_location_data (VDict d) env w) = Ok tt /\
    db (snd (store_location_data (VDict d) env w)) = db w.
Proof.
  intros env w d k Hk Hbind.
  split; [ apply store_location_data_ok | ].
  rewrite store_location_data_db. unfold row_of_data.
  rewrite (bind_all_none (map (fun k => get k d) column_keys) (get k d)).
  - reflexivity.
  - apply (in_map (fun k => get k d)). exact Hk.
  - exact Hbind.
Qed.

Lemma unbindable_snapshot_is_dropped_witness :
  db (snd (store_location_data (VDict snapshot_with_list) calm fresh_world))
  = [].
Proof.
  destruct (unbindable_snapshot_is_dropped calm fresh_world
              snapshot_with_list "speed") as [_ Hdb].
  - unfold column_keys, columns. cbn [map snd].
    repeat (try (left; reflexivity); right).
  - reflexivity.
  - exact Hdb.
Defined.

Lemma last_matching_null (rows : list row) : last_matching SNull rows = None.
Proof.
  unfold last_matching. induction (rev rows) as [ | r rest IH ].
  - reflexivity.
  - cbn [find].
    replace (sql_eq (vehicle_id_of r) SNull) with false; [ exact IH | ].
    destruct (vehicle_id_of r); reflexivity.
Qed.

(** X15. A snapshot without a vehicle id is never recognised again:
    [WHERE vehicle_id = NULL] finds no row, so the snapshot counts as a
    first observation and is appended every time. *)
Theorem snapshot_without_vehicle_id_is_appended :
  forall env w d r,
    get "vehicleId" d = VNone ->
    row_of_data d = Some r ->
    storage_works env ->
    db (snd (store_location_data (VDict d) env w)) = db w ++ [r].
Proof.
  intros env w d r Hid Hrow Hstorage.
  rewrite store_location_data_db, Hrow, Hstorage, Hid.
  unfold last_record_seen. cbn [bind_param].
  rewrite last_matching_null.
  destruct (select_raises env (ticks w)); reflexivity.
Qed.

Lemma snapshot_without_vehicle_id_is_appended_witness :
  db (snd (store_location_data (VDict snapshot_without_id) calm
             (set_db [row_without_id; row_without_id] fresh_world)))
  = [row_without_id; row_without_id; row_without_id].
Proof.
  apply (snapshot_without_vehicle_id_is_appended calm
           (set_db [row_without_id; row_without_id] fresh_world)
           snapshot_without_id row_without_id).
  - reflexivity.
  - reflexivity.
  - intros n. reflexivity.
Defined.

Lemma find_app_none {A : Type} (f : A -> bool) (l m : list A) :
  Forall (fun x => f x = false) l -> find f (l ++ m) = find f m.
Proof.
  induction 1 as [ | x l Hx Hl IH ]; [ reflexivity | ].
  cbn [app find]. rewrite Hx. exact IH.
Qed.

(** X16. The records of other vehicles do not disturb the comparison:
    rows written for other vehicles after the last record of a vehicle
    leave what [_get_last_record] returns for it as it was. *)
Theorem other_vehicles_do_not_disturb_last_record :
  forall env w others vehicle_id p,
    bind_param vehicle_id = Some p ->
    Forall (fun r => sql_eq (vehicle_id_of r) p = false) others ->
    fst (_get_last_record vehicle_id env (set_db (db w ++ others) w))
    = fst (_get_last_record vehicle_id env w).
Proof.
  intros env w others vehicle_id p Hp Hothers.
  rewrite !get_last_record_run. cbn [fst]. unfold last_record_seen.
  rewrite Hp. cbn [ticks db set_db].
  replace (last_matching p (db w ++ others)) with (last_matching p (db w));
    [ reflexivity | ].
  unfold last_matching. rewrite rev_app_distr.
  symmetry. apply find_app_none.
  apply Forall_rev. exact Hothers.
Qed.

Lemma other_vehicles_do_not_disturb_last_record_witness :
  fst (_get_last_record (VInt 42) calm
         (set_db (db world_with_row_42 ++ [row_7; row_7]) world_with_row_42))
  = fst (_get_last_record (VInt 42) calm world_with_row_42).
Proof.
  apply (other_vehicles_do_not_disturb_last_record calm world_with_row_42
           [row_7; row_7] (VInt 42) (SInteger 42)).
  - reflexivity.
  - repeat constructor.
Defined.

(** X17. A login is made only at the start or after a request: over a
    whole run of [main] the logins made exceed the requests sent by one
    at most. *)
Theorem logins_follow_requests :
  forall cycles env w,
    (logins (snd (main cycles env w)) + List.length (requests w)
     <= S (logins w + List.length (requests (snd (main cycles env w)))))%nat.
Proof.
  intros cycles env w.
  assert (Hpolling :
            forall w0,
              (logins (snd (polling cycles env w0))
               + List.length (requests w0)
               <= logins w0
                  + List.length (requests (snd (polling cycles env w0))))%nat).
  { intros w0.
    apply (satisfies_polling
             (fun _ w w' =>
                (logins w' + List.length (requests w)
                 <= logins w + List.length (requests w'))%nat)).
    - intros. lia.
    - intros. lia.
    - intros vehicle_id env' w'.
      rewrite fetch_vehicle_location_unfold.
      destruct (fetch_from_footprint (recursion_limit env') vehicle_id None
                  env' w')
        as (_ & _ & later & Hreq & _ & _ & _ & Hhi).
      rewrite Hreq, length_app. simpl. lia.
    - intros data env' w'.
      destruct (store_location_data_frame env' w' data)
        as (_ & _ & _ & -> & -> & _).
      lia.
    - intros seconds env' w'.
      rewrite requests_after_sleep, logins_after_sleep. lia. }
  unfold main, bind.
  destruct (init_run_world env w) as (tok & ->).
  rewrite run_periodic_fetch_run.
  set (w0 := set_access_token tok w).
  change (requests w) with (requests w0).
  change (logins w) with (logins w0).
  destruct (truthy (access_token w0)).
  - specialize (Hpolling w0). lia.
  - destruct (login_succeeds env w0).
    + specialize (Hpolling (after_login env w0)).
      rewrite requests_after_login, logins_after_login in Hpolling. lia.
    + cbn [snd]. rewrite requests_after_login, logins_after_login. lia.
Qed.

(** ** Reading the table, saving the token *)

Lemma last_matching_split (p : sql_value) (rows : list row) (found : row) :
  last_matching p rows = Some found ->
  exists before after,
    rows = before ++ found :: after /\
    sql_eq (vehicle_id_of found) p = true /\
    Forall (fun r => sql_eq (vehicle_id_of r) p = false) after.
Proof.
  induction rows as [ | r rows IH ] using rev_ind; [ discriminate | ].
  rewrite last_matching_snoc.
  destruct (sql_eq (vehicle_id_of r) p) eqn:Hr.
  - intros [= ->]. exists rows, []. repeat split; [ exact Hr | constructor ].
  - intros Hfound.
    destruct (IH Hfound) as (before & after & -> & Hmatch & Hafter).
    exists before, (after ++ [r]).
    rewrite <- app_assoc. repeat split; [ exact Hmatch | ].
    apply Forall_app. split; [ exact Hafter | ].
    constructor; [ exact Hr | constructor ].
Qed.

(** X18. A record returned by [_get_last_record] for a vehicle id
    that is an [int] (or [None]) is built from a row of the table whose
    [vehicle_id] equals the parameter, never from a row of another
    vehicle: it holds the columns of that row under the keys of a
    snapshot, and its decoded [other_attributes]. *)
Theorem last_record_is_row_of_vehicle :
  forall env w vehicle_id rec,
    fits AffInteger vehicle_id = true ->
    fst (_get_last_record vehicle_id env w) = Ok (Some rec) ->
    exists p found oa,
      bind_param vehicle_id = Some p /\
      In found (db w) /\
      sql_eq (vehicle_id_of found) p = true /\
      attributes_of (other_attributes found) = Some oa /\
      rec = dict_of_row found ++ [("otherAttributes", oa)].
Proof.
  intros env w vehicle_id rec _. rewrite get_last_record_run. cbn [fst].
  unfold last_record_seen.
  destruct (bind_param vehicle_id) as [p | ]; [ | discriminate ].
  destruct (select_raises env (ticks w)); [ discriminate | ].
  destruct (last_matching p (db w)) as [found | ] eqn:Hfound;
    [ | discriminate ].
  destruct (attributes_of (other_attributes found)) as [oa | ] eqn:Hoa;
    [ | discriminate ].
  intros [= <-].
  destruct (last_matching_split p (db w) found Hfound)
    as (before & after & Hdb & Hmatch & Hafter).
  exists p, found, oa. repeat split; try assumption.
  rewrite Hdb. apply in_or_app. right. left. reflexivity.
Qed.

Lemma last_record_is_row_of_vehicle_witness :
  exists p found oa,
    bind_param (VInt 42) = Some p /\
    In found [row_7; row_42; row_7] /\
    sql_eq (vehicle_id_of found) p = true /\
    attributes_of (other_attributes found) = Some oa /\
    record_42 = dict_of_row found ++ [("otherAttributes", oa)].
Proof.
  apply (last_record_is_row_of_vehicle calm world_with_two_vehicles
           (VInt 42) record_42).
  - reflexivity.
  - reflexivity.
Defined.

(** X19. [login_with_selenium] counts as one login and touches the
    token file only when it reports success. Then the token in memory is
    a non-empty string and the write of the token file is attempted: a
    write that goes through leaves the token and the time of the write,
    three seconds after the login began; a write that fails is
    swallowed, the login reports success all the same, and the file is
    as it was or, when the write broke off, no JSON. A login that fails
    or yields no token leaves the file as it was. *)
Theorem login_writes_token_file_only_on_success :
  forall env w,
    login_with_selenium env w
    = (Ok (login_succeeds env w), after_login env w) /\
    logins (after_login env w) = S (logins w) /\
    (login_succeeds env w = true ->
     (exists s,
        access_token (after_login env w) = VStr s /\ s <> EmptyString) /\
     token_file (after_login env w)
     = match token_write env (S (logins w)) with
       | Written =>
           credential_file (access_token (after_login env w)) (clock w + 3)
       | NotOpened => token_file w
       | Truncated => Garbled
       end) /\
    (login_succeeds env w = false ->
     token_file (after_login env w) = token_file w /\
     bearer (after_login env w)
     = match browser_login env (logins w) with
       | LoginError _ => bearer w
       | LocalStorage _ => None
       end).
Proof.
  intros env w.
  split; [ apply login_run | ].
  split; [ apply logins_after_login | ].
  split; intros Hlogin.
  - destruct (after_login_token env w Hlogin) as (s & _ & Hs & Htok & _).
    split; [ exists s; split; assumption | ].
    rewrite (token_file_after_login env w Hlogin).
    destruct (token_write env (S (logins w))); reflexivity.
  - revert Hlogin. unfold login_succeeds, after_login, bearer.
    destruct (browser_login env (logins w)) as [ [ | ] | [s | ] ].
    + auto.
    + auto.
    + intros Hs. cbv zeta. cbv beta iota delta [truthy]. rewrite Hs.
      cbn [token_file access_token set_access_token count_login truthy
           paused set_clock].
      rewrite Hs. auto.
    + auto.
Qed.

Lemma login_writes_token_file_only_on_success_witness :
  token_file (after_login calm fresh_world)
  = credential_file (VStr "tok") 1003 /\
  login_with_selenium disk_full (world_with_token "old")
  = (Ok true, after_login disk_full (world_with_token "old")) /\
  token_file (after_login disk_full (world_with_token "old")) = Garbled /\
  token_file (after_login login_broken (world_with_token "tok"))
  = token_file (world_with_token "tok").
Proof.
  destruct (login_writes_token_file_only_on_success calm fresh_world)
    as (_ & _ & Hok & _).
  destruct (login_writes_token_file_only_on_success disk_full
              (world_with_token "old")) as (Hrun & _ & Hfull & _).
  destruct (login_writes_token_file_only_on_success login_broken
              (world_with_token "tok")) as (_ & _ & _ & Hfail).
  split; [ | split; [ | split ] ].
  - destruct (Hok eq_refl) as [_ H]. rewrite H. reflexivity.
  - exact Hrun.
  - destruct (Hfull eq_refl) as [_ H]. rewrite H. reflexivity.
  - destruct (Hfail eq_refl) as [H _]. exact H.
Defined.

(** ** A renewed token, an empty answer *)

(** X20. A rejected request whose login succeeds is repeated once with
    the new token and for the same time; when that request is answered
    200, its body is what the call returns, after two requests and one
    login, with the new token in memory. The old token file was removed
    on the rejection: the new one holds the new token and the time of
    the write, three seconds after the login began, when the write goes
    through; it is missing when the file could not be opened and no
    JSON when the write broke off. *)
Theorem renewed_token_retry_returns_data :
  forall env w vehicle_id timestamp d data,
    is_auth_failure (first_answer env w vehicle_id timestamp) = true ->
    login_succeeds env w = true ->
    recursion_limit env = S d ->
    first_answer env
      (after_login env (rejected w (first_request w vehicle_id timestamp)))
      vehicle_id (Some (request_time w timestamp))
    = Response 200 (Some data) ->
    fetch_vehicle_location vehicle_id timestamp env w
    = (Ok data,
       log_request
         (first_request
            (after_login env
               (rejected w (first_request w vehicle_id timestamp)))
            vehicle_id (Some (request_time w timestamp)))
         (after_login env
            (rejected w (first_request w vehicle_id timestamp)))) /\
    token_file (snd (fetch_vehicle_location vehicle_id timestamp env w))
    = match token_write env (S (logins w)) with
      | Written =>
          credential_file
            (access_token
               (snd (fetch_vehicle_location vehicle_id timestamp env w)))
            (clock w + 3)
      | NotOpened => Absent
      | Truncated => Garbled
      end /\
    bearer (snd (fetch_vehicle_location vehicle_id timestamp env w))
    = req_bearer
        (first_request
           (after_login env
              (rejected w (first_request w vehicle_id timestamp)))
           vehicle_id (Some (request_time w timestamp))).
Proof.
  intros env w vehicle_id timestamp d data Hauth Hlogin Hlimit Hsecond.
  set (w1 := after_login env
               (rejected w (first_request w vehicle_id timestamp))) in *.
  assert (Hrun : fetch_vehicle_location vehicle_id timestamp env w
                 = (Ok data,
                    log_request
                      (first_request w1 vehicle_id
                         (Some (request_time w timestamp))) w1)).
  { rewrite fetch_vehicle_location_unfold, Hlimit, fetch_from_unfold.
    rewrite (fetch_body_auth _ env w vehicle_id timestamp Hauth), Hlogin.
    fold w1.
    assert (Hretry : fetch_from d vehicle_id
                       (Some (request_time w timestamp)) env w1
                     = (Ok data,
                        log_request
                          (first_request w1 vehicle_id
                             (Some (request_time w timestamp))) w1)).
    { rewrite fetch_from_unfold, fetch_body_plain.
      - rewrite Hsecond. reflexivity.
      - rewrite Hsecond. reflexivity. }
    rewrite (try_except_ok _ _ _ _ data); rewrite Hretry; reflexivity. }
  rewrite Hrun. split; [ reflexivity | ].
  cbn [snd]. unfold bearer at 1.
  cbn [token_file access_token log_request first_request req_bearer].
  split; [ | reflexivity ].
  unfold w1.
  rewrite (token_file_after_login env (rejected w _) Hlogin).
  cbn [rejected logins clock token_file set_token_file set_access_token
       log_request].
  destruct (token_write env (S (logins w))); reflexivity.
Qed.

Lemma renewed_token_retry_returns_data_witness :
  fst (fetch_vehicle_location (VInt 1) None stale_token
         (world_with_token "old"))
  = Ok (VDict (snapshot 1 10)) /\
  access_token
    (snd (fetch_vehicle_location (VInt 1) None stale_token
            (world_with_token "old")))
  = VStr "fresh" /\
  token_file
    (snd (fetch_vehicle_location (VInt 1) None stale_token
            (world_with_token "old")))
  = credential_file (VStr "fresh") 1003.
Proof.
  destruct (renewed_token_retry_returns_data stale_token
              (world_with_token "old") (VInt 1) None 999
              (VDict (snapshot 1 10)) eq_refl eq_refl eq_refl eq_refl)
    as (Hrun & Hfile & _).
  split; [ rewrite Hrun; reflexivity | ].
  split; [ rewrite Hrun; reflexivity | ].
  rewrite Hfile, Hrun. reflexivity.
Defined.

(** X21. An answer 200 whose body is empty for [if data:] (an empty
    object or list, [null], [0], [false], an empty string) is treated as
    no data: the request is sent, nothing is stored, the loop goes on to
    its sleep. *)
Theorem empty_answer_is_not_stored :
  forall env w vehicle_id data,
    first_answer env w vehicle_id None = Response 200 (Some data) ->
    truthy data = false ->
    poll_vehicle vehicle_id env w
    = sleep 2 env (log_request (first_request w vehicle_id None) w) /\
    db (after_vehicle env w vehicle_id) = db w.
Proof.
  intros env w vehicle_id data Hanswer Hempty.
  assert (Hrun : poll_vehicle vehicle_id env w
                 = sleep 2 env
                     (log_request (first_request w vehicle_id None) w)).
  { unfold poll_vehicle. unfold bind at 1.
    rewrite fetch_vehicle_location_unfold, fetch_from_unfold,
      fetch_body_plain; [ | rewrite Hanswer; reflexivity ].
    rewrite Hanswer. cbn [fetched Z.eqb Pos.eqb]. rewrite Hempty.
    reflexivity. }
  split; [ exact Hrun | ].
  unfold after_vehicle. rewrite Hrun, db_after_sleep. reflexivity.
Qed.

Lemma empty_answer_is_not_stored_witness :
  db (after_vehicle empty_answers (world_with_token "tok") (VInt 1)) = [] /\
  List.length
    (requests (after_vehicle empty_answers (world_with_token "tok") (VInt 1)))
  = 1%nat.
Proof.
  destruct (empty_answer_is_not_stored empty_answers (world_with_token "tok")
              (VInt 1) (VDict []) eq_refl eq_refl) as (Hrun & Hdb).
  split; [ exact Hdb | ].
  unfold after_vehicle. rewrite Hrun. reflexivity.
Defined.

(** ** The history store and its detector (C2, C3, C4) *)

Lemma present_vehicle_id (d : dict) (r : row) :
  row_of_data d = Some r -> get "vehicleId" d <> VNone ->
  vehicle_id_of r <> SNull.
Proof.
  intros Hr Hid Hnull. pose proof (row_vehicle_id d r Hr) as Hbound.
  rewrite Hnull in Hbound.
  destruct (get "vehicleId" d) as [ | b | z | q | s | l | kvs ];
    simpl in Hbound; try discriminate.
  - apply Hid. reflexivity.
  - destruct (_ && _)%bool; discriminate.
Qed.

(** A snapshot handed in when the last row of the table is the one
    written for [d], a snapshot of the same vehicle: it is compared with
    [d]. *)
Lemma store_after_own_record (env : Env) (w : world) (rows : list row)
  (d d' : dict) (r : row) :
  select_raises env (ticks w) = false ->
  row_of_data d = Some r -> get "vehicleId" d <> VNone ->
  db w = rows ++ [r] ->
  get "vehicleId" d' = get "vehicleId" d ->
  db (snd (store_location_data (VDict d') env w))
  = match row_of_data d' with
    | Some r' =>
        if _has_data_changed d' (Some d)
           && negb (insert_raises env (S (ticks w)))
        then db w ++ [r'] else db w
    | None => db w
    end.
Proof.
  intros Hsel Hr Hid Hdb Hsame.
  rewrite store_location_data_db.
  rewrite (last_record_after_append env w d d' r rows Hsel Hr
             (present_vehicle_id d r Hr Hid) Hdb Hsame).
  reflexivity.
Qed.

Lemma bind_all_some (g : string -> value) (keys : list string) :
  forallb
    (fun k => match bind_param (g k) with Some _ => true | None => false end)
    keys = true ->
  exists cs, bind_all (map g keys) = Some cs.
Proof.
  induction keys as [ | k keys IH ]; simpl.
  - intros _. exists []. reflexivity.
  - destruct (bind_param (g k)) as [c | ]; [ | discriminate ].
    intros H. destruct (IH H) as [cs ->]. exists (c :: cs). reflexivity.
Qed.

Lemma bindable_row (d : dict) :
  bindable d = true -> exists r, row_of_data d = Some r.
Proof.
  intros H. unfold row_of_data.
  destruct (bind_all_some (fun k => get k d) column_keys H) as [cs ->].
  eexists. reflexivity.
Qed.

Lemma declared_are_columns (f : string) :
  In f (map fst declared_types) -> In f column_keys.
Proof.
  intros H. simpl in H.
  repeat (destruct H as [<- | H]; [ vm_compute; tauto | ]).
  contradiction.
Qed.

(** What is read back from a column equals, for [==], what was bound. *)
Lemma py_eq_read_back (v : value) (c : sql_value) :
  bind_param v = Some c -> py_eq (value_of_sql c) v = true.
Proof.
  destruct v as [ | b | z | q | s | l | kvs ]; simpl; intros H;
    try discriminate.
  - injection H as <-. reflexivity.
  - injection H as <-. destruct b; reflexivity.
  - destruct (_ && _)%bool; [ | discriminate ]. injection H as <-.
    simpl. apply Qeq_bool_refl.
  - injection H as <-. simpl. apply Qeq_bool_refl.
  - injection H as <-. simpl. apply String.eqb_refl.
Qed.

Lemma row_holds_snapshot (d : dict) (r : row) :
  row_of_data d = Some r ->
  (forall f, In f (map fst declared_types) ->
     py_eq (get f (dict_of_row r)) (get f d) = true) /\
  other_attributes r = AttrJson (get_default "otherAttributes" (VDict []) d).
Proof.
  intros Hr. split.
  - intros f Hf.
    destruct (row_roundtrip d r f Hr (declared_are_columns f Hf))
      as [c [Hc ->]].
    apply py_eq_read_back. exact Hc.
  - revert Hr. unfold row_of_data.
    destruct (bind_all (map (fun k => get k d) column_keys));
      [ | discriminate ].
    intros [= <-]. reflexivity.
Qed.

Lemma store_keeps_table_sound (env : Env) (w : world) (data : value) :
  reads_work env -> sound_table (db w) ->
  sound_table (db (snd (store_location_data data env w))).
Proof.
  intros Hreads [Hreadable Hdedup].
  destruct (store_preserves_invariant env w data Hreads Hreadable Hdedup).
  split; assumption.
Qed.

Lemma run_keeps_table_sound (cycles : nat) (env : Env) (w : world) :
  reads_work env -> sound_table (db w) ->
  sound_table (db (snd (main cycles env w))).
Proof.
  apply (satisfies_main
           (fun env w w' =>
              reads_work env -> sound_table (db w) -> sound_table (db w'))).
  - auto.
  - auto.
  - intros vehicle_id env' w'. rewrite fetch_vehicle_location_unfold.
    rewrite fetch_from_db. auto.
  - intros data env' w'. apply store_keeps_table_sound.
  - intros seconds env' w'. rewrite db_after_sleep. auto.
  - intros env' w'. rewrite db_after_login. auto.
  - intros env' w' tok. auto.
Qed.

(** C2, as the code has it, for snapshots whose vehicle id and compared
    fields have the declared types of their columns. As long as reading
    the last record works, no vehicle ever has two consecutive records
    that the detector takes for equal: a call of [store_location_data]
    keeps the table so, and so does a whole run of the tracker, whatever
    the remote sends and whichever logins and inserts fail. A snapshot
    is appended exactly when the detector reports a change against the
    most recent record of its vehicle and the [INSERT] works. So when
    the last row of the table is the one written for a snapshot with a
    vehicle id, the same snapshot again (the same within tolerance)
    leaves the table as it is. *)
Theorem no_consecutive_equal_records :
  (forall env w data,
     reads_work env ->
     (forall d, data = VDict d -> conforming d = true) ->
     sound_table (db w) ->
     sound_table (db (snd (store_location_data data env w)))) /\
  (forall cycles env w,
     reads_work env -> remote_conforms env ->
     sound_table (db w) ->
     sound_table (db (snd (main cycles env w)))) /\
  (forall env w d,
     reads_work env -> readable (db w) -> conforming d = true ->
     db (snd (store_location_data (VDict d) env w)) =
     match row_of_data d with
     | Some r =>
         if _has_data_changed d (most_recent (get "vehicleId" d) (db w))
            && negb (insert_raises env (S (ticks w)))
         then db w ++ [r] else db w
     | None => db w
     end) /\
  (forall env w rows d d' r,
     select_raises env (ticks w) = false ->
     conforming d = true -> conforming d' = true ->
     get "vehicleId" d <> VNone ->
     row_of_data d = Some r -> db w = rows ++ [r] ->
     get "vehicleId" d' = get "vehicleId" d -> same_snapshot d' d ->
     db (snd (store_location_data (VDict d') env w)) = db w).
Proof.
  split; [ | split; [ | split ] ].
  - intros env w data Hreads _. apply store_keeps_table_sound. exact Hreads.
  - intros cycles env w Hreads _. apply run_keeps_table_sound. exact Hreads.
  - intros env w d Hreads Hreadable _.
    rewrite store_location_data_db.
    rewrite (changed_against_most_recent env w d _ (Hreads _) Hreadable).
    reflexivity.
  - intros env w rows d d' r Hsel _ _ Hid Hr Hdb Hsame Hnear.
    rewrite (store_after_own_record env w rows d d' r Hsel Hr Hid Hdb Hsame).
    rewrite (same_snapshot_unchanged d' d Hnear).
    destruct (row_of_data d'); reflexivity.
Qed.

Lemma no_consecutive_equal_records_witness :
  sound_table
    (db (snd (store_location_data (VDict (snapshot 42 10)) calm
                world_with_row_42))) /\
  sound_table (db (snd (main 3 vehicle_42_speeds_up fresh_world))) /\
  db (snd (store_location_data (VDict (snapshot 42 25)) calm
             world_with_row_42)) = [row_42; row_at_speed 25] /\
  db (snd (store_location_data (VDict (snapshot 42 10.00005)) calm
             world_with_row_42)) = [row_42].
Proof.
  destruct no_consecutive_equal_records as (Hstep & Hrun & Hiff & Htwice).
  assert (Hreads : reads_work calm) by (intros n; reflexivity).
  assert (Hsound : sound_table [row_42]).
  { split.
    - repeat constructor. discriminate.
    - intros entity. unfold history. cbn [filter].
      destruct (sql_eq (vehicle_id_of row_42) entity); exact I. }
  split; [ | split; [ | split ] ].
  - apply (Hstep calm world_with_row_42 (VDict (snapshot 42 10)) Hreads).
    + intros d [= <-]. reflexivity.
    + exact Hsound.
  - apply (Hrun 3%nat vehicle_42_speeds_up fresh_world).
    + intros n. reflexivity.
    + intros r n d. unfold vehicle_42_speeds_up. cbn [remote].
      destruct (Nat.ltb n 2); intros [= <-]; reflexivity.
    + split; [ constructor | intros entity; exact I ].
  - rewrite (Hiff calm world_with_row_42 (snapshot 42 25) Hreads).
    + reflexivity.
    + repeat constructor. discriminate.
    + reflexivity.
  - apply (Htwice calm world_with_row_42 [] (snapshot 42 10)
             (snapshot 42 10.00005) row_42).
    + reflexivity.
    + reflexivity.
    + reflexivity.
    + discriminate.
    + reflexivity.
    + reflexivity.
    + reflexivity.
    + intros field Hin. simpl in Hin.
      repeat (destruct Hin as [<- | Hin];
              [ vm_compute; first [ reflexivity | discriminate ] | ]).
      contradiction.
Defined.

(** C3, as the code has it. The comparison is made in binary64: two
    snapshots whose compared fields are the same (numbers whose floats
    are no further apart than the float [0.0001], the rest equal) are
    reported unchanged, and a compared numeric field whose floats are at
    least the next float apart makes the detector report a change. For
    numbers of a size up to [2 ^ 36] this settles what is written at
    most [0.00008] apart (a speed that moves by [0.00005], the other
    compared fields being identical: no change, and the snapshot is not
    stored after the one it is compared with) and what is written at
    least [0.00012] apart (a speed that moves by [0.0002]: a change, and
    the snapshot is stored when it can be bound and the [INSERT]
    works). *)
Theorem tolerance_bounded_comparison :
  (forall new_data old_data,
     same_snapshot new_data old_data ->
     _has_data_changed new_data (Some old_data) = false) /\
  (forall new_data old_data field x y,
     In field compare_fields ->
     num_of (get field new_data) = Some x ->
     num_of (get field old_data) = Some y ->
     tolerance_next
     <= distance (get field new_data) (get field old_data) x y ->
     _has_data_changed new_data (Some old_data) = true) /\
  (forall new_data old_data s s',
     differ_only_in_speed new_data old_data ->
     num_of (get "speed" old_data) = Some s ->
     num_of (get "speed" new_data) = Some s' ->
     Qabs s <= inject_Z (2 ^ 36) -> Qabs s' <= inject_Z (2 ^ 36) ->
     Qabs (s' - s) <= 0.00008 ->
     _has_data_changed new_data (Some old_data) = false) /\
  (forall new_data old_data field x y,
     In field compare_fields ->
     num_of (get field new_data) = Some x ->
     num_of (get field old_data) = Some y ->
     Qabs x <= inject_Z (2 ^ 36) -> Qabs y <= inject_Z (2 ^ 36) ->
     0.00012 <= Qabs (x - y) ->
     _has_data_changed new_data (Some old_data) = true) /\
  (forall env w rows old_data new_data r s s',
     select_raises env (ticks w) = false ->
     conforming old_data = true -> conforming new_data = true ->
     get "vehicleId" old_data <> VNone ->
     row_of_data old_data = Some r -> db w = rows ++ [r] ->
     get "vehicleId" new_data = get "vehicleId" old_data ->
     differ_only_in_speed new_data old_data ->
     num_of (get "speed" old_data) = Some s ->
     num_of (get "speed" new_data) = Some s' ->
     Qabs s <= inject_Z (2 ^ 36) -> Qabs s' <= inject_Z (2 ^ 36) ->
     Qabs (s' - s) <= 0.00008 ->
     db (snd (store_location_data (VDict new_data) env w)) = db w) /\
  (forall env w rows old_data new_data r s s',
     select_raises env (ticks w) = false ->
     insert_raises env (S (ticks w)) = false ->
     conforming old_data = true -> conforming new_data = true ->
     bindable new_data = true ->
     get "vehicleId" old_data <> VNone ->
     row_of_data old_data = Some r -> db w = rows ++ [r] ->
     get "vehicleId" new_data = get "vehicleId" old_data ->
     num_of (get "speed" old_data) = Some s ->
     num_of (get "speed" new_data) = Some s' ->
     Qabs s <= inject_Z (2 ^ 36) -> Qabs s' <= inject_Z (2 ^ 36) ->
     0.00012 <= Qabs (s' - s) ->
     exists r',
       row_of_data new_data = Some r' /\
       db (snd (store_location_data (VDict new_data) env w)) = db w ++ [r']).
Proof.
  assert (Hbeyond : forall new_data old_data field x y,
             In field compare_fields ->
             num_of (get field new_data) = Some x ->
             num_of (get field old_data) = Some y ->
             tolerance_next
             <= distance (get field new_data) (get field old_data) x y ->
             _has_data_changed new_data (Some old_data) = true).
  { intros new_data old_data field x y Hin Hx Hy Hfar.
    unfold _has_data_changed.
    apply (any_field_changed_true _ _ _ field Hin).
    rewrite (field_changed_numbers _ _ _ _ Hx Hy).
    apply distance_beyond. exact Hfar. }
  assert (Hnear : forall new_data old_data s s',
             differ_only_in_speed new_data old_data ->
             num_of (get "speed" old_data) = Some s ->
             num_of (get "speed" new_data) = Some s' ->
             Qabs s <= inject_Z (2 ^ 36) -> Qabs s' <= inject_Z (2 ^ 36) ->
             Qabs (s' - s) <= 0.00008 ->
             _has_data_changed new_data (Some old_data) = false).
  { intros new_data old_data s s' Honly Hs Hs' Hsize Hsize' Hdelta.
    apply same_snapshot_unchanged. intros field Hin.
    destruct (String.eqb field "speed") eqn:E.
    - apply String.eqb_eq in E. subst field.
      unfold same_field. rewrite Hs, Hs'.
      apply distance_near; assumption.
    - apply String.eqb_neq in E. rewrite (Honly field Hin E).
      apply same_field_refl. }
  assert (Hfar : forall new_data old_data field x y,
             In field compare_fields ->
             num_of (get field new_data) = Some x ->
             num_of (get field old_data) = Some y ->
             Qabs x <= inject_Z (2 ^ 36) -> Qabs y <= inject_Z (2 ^ 36) ->
             0.00012 <= Qabs (x - y) ->
             _has_data_changed new_data (Some old_data) = true).
  { intros new_data old_data field x y Hin Hx Hy Hsize Hsize' Hdelta.
    apply (Hbeyond new_data old_data field x y Hin Hx Hy).
    apply distance_far; assumption. }
  split; [ | split; [ | split; [ | split; [ | split ] ] ] ].
  - exact same_snapshot_unchanged.
  - exact Hbeyond.
  - exact Hnear.
  - exact Hfar.
  - intros env w rows old_data new_data r s s' Hsel _ _ Hid Hr Hdb Hsame
      Honly Hs Hs' Hsize Hsize' Hdelta.
    rewrite (store_after_own_record env w rows old_data new_data r Hsel Hr
               Hid Hdb Hsame).
    rewrite (Hnear new_data old_data s s' Honly Hs Hs' Hsize Hsize' Hdelta).
    destruct (row_of_data new_data); reflexivity.
  - intros env w rows old_data new_data r s s' Hsel Hins _ _ Hbind Hid Hr
      Hdb Hsame Hs Hs' Hsize Hsize' Hdelta.
    destruct (bindable_row new_data Hbind) as [r' Hr'].
    exists r'. split; [ exact Hr' | ].
    rewrite (store_after_own_record env w rows old_data new_data r Hsel Hr
               Hid Hdb Hsame).
    rewrite Hr', Hins.
    rewrite (Hfar new_data old_data "speed" s' s); try assumption.
    + reflexivity.
    + simpl. tauto.
Qed.

Lemma tolerance_bounded_comparison_witness :
  _has_data_changed (snapshot 42 10.00005) (Some (snapshot 42 10)) = false /\
  _has_data_changed (snapshot 42 10.0002) (Some (snapshot 42 10)) = true /\
  db (snd (store_location_data (VDict (snapshot 42 10.00005)) calm
             world_with_row_42)) = [row_42] /\
  db (snd (store_location_data (VDict (snapshot 42 10.0002)) calm
             world_with_row_42)) = [row_42; row_42_faster].
Proof.
  destruct tolerance_bounded_comparison
    as (Hsame & Hbeyond & Hnear & Hfar & Hskip & Hstore).
  assert (Honly : forall speed,
             differ_only_in_speed (snapshot 42 speed) (snapshot 42 10)).
  { intros speed field Hin Hne. simpl in Hin.
    repeat (destruct Hin as [<- | Hin];
            [ first [ reflexivity | exfalso; apply Hne; reflexivity ] | ]).
    contradiction. }
  split; [ | split; [ | split ] ].
  - apply (Hnear _ _ 10 10.00005); [ apply Honly | .. ];
      first [ reflexivity | vm_compute; discriminate ].
  - apply (Hfar _ _ "speed" 10.0002 10);
      first [ reflexivity | vm_compute; discriminate | simpl; tauto ].
  - apply (Hskip calm world_with_row_42 [] (snapshot 42 10)
             (snapshot 42 10.00005) row_42 10 10.00005);
      first [ reflexivity | apply Honly | vm_compute; discriminate ].
  - assert (H : exists r',
               row_of_data (snapshot 42 10.0002) = Some r' /\
               db (snd (store_location_data (VDict (snapshot 42 10.0002))
                          calm world_with_row_42))
               = db world_with_row_42 ++ [r']).
    { apply (Hstore calm world_with_row_42 [] (snapshot 42 10)
               (snapshot 42 10.0002) row_42 10 10.0002);
        first [ reflexivity | vm_compute; discriminate ]. }
    destruct H as (r' & Hr' & Hdb).
    rewrite Hdb. injection Hr' as <-. reflexivity.
Defined.

(** C3 as stated fails at the boundary. The speeds [100.0001] and
    [100.0] differ by the tolerance exactly, as do [77.5946] and
    [77.5945], and the detector reports a change, by the floats of the
    model and by those of the machine: the snapshot is stored. And a
    speed further than [1e-4] from [0.0] by less than the float [0.0001]
    is, is reported unchanged. *)
Lemma boundary_difference_is_reported :
  Qabs (100.0001 - 100) == 1 # 10000 /\
  field_changed (VFloat 100.0001) (VFloat 100) = true /\
  binary64_changed 100.0001%float 100%float = true /\
  Qabs (77.5946 - 77.5945) == 1 # 10000 /\
  field_changed (VFloat 77.5946) (VFloat 77.5945) = true /\
  binary64_changed 77.5946%float 77.5945%float = true /\
  _has_data_changed (snapshot 42 100.0001) (Some (snapshot 42 100)) = true /\
  db (snd (store_location_data (VDict (snapshot 42 100.0001)) calm
             (world_with_rows [row_at_speed 100])))
  = [row_at_speed 100; row_at_speed 100.0001] /\
  1 # 10000 < Qabs (0.00010000000000000001 - 0) /\
  field_changed (VFloat 0.00010000000000000001) (VFloat 0) = false /\
  binary64_changed 0.00010000000000000001%float 0%float = false.
Proof.
  repeat split; vm_compute; reflexivity.
Qed.

(** C4, as the code has it. Without a last record the detector answers
    [True]. So a snapshot of a vehicle that has no record yet, with the
    declared types in its vehicle id and compared fields and values
    that can all be bound, is appended by [store_location_data] when the
    [INSERT] works, and the row holds the snapshot: what is read back
    from it equals the snapshot in the vehicle id and in every compared
    field, and its [other_attributes] are the snapshot's. The turn of
    the vehicle loop that fetched such a snapshot, not an empty one,
    appends it. *)
Theorem first_observation_is_stored :
  (forall new_data, _has_data_changed new_data None = true) /\
  (forall env w d,
     most_recent (get "vehicleId" d) (db w) = None ->
     conforming d = true -> bindable d = true ->
     storage_works env ->
     exists r,
       db (snd (store_location_data (VDict d) env w)) = db w ++ [r] /\
       (forall f, In f (map fst declared_types) ->
          py_eq (get f (dict_of_row r)) (get f d) = true) /\
       other_attributes r
       = AttrJson (get_default "otherAttributes" (VDict []) d)) /\
  (forall env w vehicle_id d,
     fst (fetch_vehicle_location vehicle_id None env w) = Ok (VDict d) ->
     d <> [] ->
     most_recent (get "vehicleId" d) (db w) = None ->
     conforming d = true -> bindable d = true ->
     storage_works env ->
     exists r,
       db (after_vehicle env w vehicle_id) = db w ++ [r] /\
       (forall f, In f (map fst declared_types) ->
          py_eq (get f (dict_of_row r)) (get f d) = true) /\
       other_attributes r
       = AttrJson (get_default "otherAttributes" (VDict []) d)).
Proof.
  assert (Hstore : forall env w d,
             most_recent (get "vehicleId" d) (db w) = None ->
             conforming d = true -> bindable d = true ->
             storage_works env ->
             exists r,
               db (snd (store_location_data (VDict d) env w)) = db w ++ [r] /\
               (forall f, In f (map fst declared_types) ->
                  py_eq (get f (dict_of_row r)) (get f d) = true) /\
               other_attributes r
               = AttrJson (get_default "otherAttributes" (VDict []) d)).
  { intros env w d Hnone _ Hbind Hins.
    destruct (bindable_row d Hbind) as [r Hr].
    exists r. split; [ | exact (row_holds_snapshot d r Hr) ].
    rewrite store_location_data_db, Hr.
    rewrite (most_recent_none_sees_nothing env w _ Hnone).
    rewrite (Hins (S (ticks w))). reflexivity. }
  split; [ reflexivity | split; [ exact Hstore | ] ].
  intros env w vehicle_id d Hfetch Hd Hnone Hconf Hbind Hins.
  unfold after_vehicle.
  destruct (poll_vehicle_run vehicle_id env w) as [data [w1 [Hfetch' ->]]].
  rewrite Hfetch' in Hfetch. cbn [fst] in Hfetch. injection Hfetch as ->.
  assert (Hdb : db w1 = db w).
  { pose proof (fetch_from_db (recursion_limit env) vehicle_id None env w)
      as H.
    rewrite <- fetch_vehicle_location_unfold, Hfetch' in H. exact H. }
  rewrite db_after_sleep.
  destruct d as [ | kv d ]; [ contradiction | ].
  simpl truthy. cbv iota. rewrite <- Hdb in Hnone |- *.
  apply Hstore; assumption.
Qed.

Lemma first_observation_is_stored_witness :
  (exists r,
     db (snd (store_location_data (VDict (snapshot 42 10)) calm fresh_world))
     = [] ++ [r] /\
     py_eq (get "speed" (dict_of_row r)) (VFloat 10) = true) /\
  (exists r,
     db (after_vehicle calm (world_with_token "tok") (VInt 42)) = [] ++ [r] /\
     py_eq (get "speed" (dict_of_row r)) (VFloat 10) = true).
Proof.
  destruct first_observation_is_stored as (_ & Hstore & Hturn).
  split.
  - destruct (Hstore calm fresh_world (snapshot 42 10) eq_refl eq_refl
                eq_refl (fun n => eq_refl))
      as (r & Hdb & Hfields & _).
    exists r. split; [ exact Hdb | ].
    apply (Hfields "speed"). simpl. tauto.
  - assert (Hd : snapshot 42 10 <> []) by discriminate.
    destruct (Hturn calm (world_with_token "tok") (VInt 42) (snapshot 42 10)
                eq_refl Hd eq_refl eq_refl eq_refl (fun n => eq_refl))
      as (r & Hdb & Hfields & _).
    exists r. split; [ exact Hdb | ].
    apply (Hfields "speed"). simpl. tauto.
Defined.

(** C4 as stated fails: the first snapshot fetched for a vehicle
    without a record is not persisted when the [INSERT] raises (the
    error is logged and the transaction rolled back), nor when one of
    its values cannot be bound. *)
Lemma first_fetch_is_not_always_persisted :
  fst (fetch_vehicle_location (VInt 42) None insert_broken
         (world_with_token "tok")) = Ok (VDict (snapshot 42 10)) /\
  most_recent (VInt 42) (db (world_with_token "tok")) = None /\
  db (after_vehicle insert_broken (world_with_token "tok") (VInt 42)) = [] /\
  most_recent (VInt 42) (db fresh_world) = None /\
  db (snd (store_location_data (VDict snapshot_with_list) calm fresh_world))
  = [].
Proof. repeat split; reflexivity. Qed.

(** ** The fetch (C6) *)

(** C6, as the code has it. On an answer that is not 401 or 403
    [fetch_vehicle_location] sends one request, does not log in and
    returns the decoded body of a 200 answer, [None] otherwise: network
    and parse errors are the same [None]. On 401 or 403 it clears the
    token, removes the token file and logs in by itself; a login that
    yields no token gives the same [None], a login that yields one makes
    it call itself with the new token. *)
Theorem fetch_reauthenticates_and_returns_none_on_error :
  (forall env w vehicle_id,
     is_auth_failure (first_answer env w vehicle_id None) = false ->
     fetch_vehicle_location vehicle_id None env w
     = (Ok (fetched (first_answer env w vehicle_id None)),
        log_request (first_request w vehicle_id None) w)) /\
  (forall env w vehicle_id e,
     classify (first_answer env w vehicle_id None) = Some e ->
     e <> AuthError ->
     fst (fetch_vehicle_location vehicle_id None env w) = Ok VNone) /\
  (forall env w vehicle_id,
     is_auth_failure (first_answer env w vehicle_id None) = true ->
     login_succeeds env w = false ->
     fetch_vehicle_location vehicle_id None env w
     = (Ok VNone,
        after_login env (rejected w (first_request w vehicle_id None)))) /\
  (forall env w vehicle_id d,
     is_auth_failure (first_answer env w vehicle_id None) = true ->
     login_succeeds env w = true ->
     recursion_limit env = S d ->
     fetch_vehicle_location vehicle_id None env w
     = fetch_from d vehicle_id (Some (request_time w None)) env
         (after_login env (rejected w (first_request w vehicle_id None)))).
Proof.
  assert (Hplain : forall env w vehicle_id,
             is_auth_failure (first_answer env w vehicle_id None) = false ->
             fetch_vehicle_location vehicle_id None env w
             = (Ok (fetched (first_answer env w vehicle_id None)),
                log_request (first_request w vehicle_id None) w)).
  { intros env w vehicle_id Hauth.
    rewrite fetch_vehicle_location_unfold, fetch_from_unfold.
    apply fetch_body_plain. exact Hauth. }
  split; [ | split; [ | split ] ].
  - exact Hplain.
  - intros env w vehicle_id e Hclass He.
    destruct (classified_error_fetches_none env w vehicle_id e Hclass He)
      as [Hauth Hnone].
    rewrite (Hplain env w vehicle_id Hauth), Hnone. reflexivity.
  - intros env w vehicle_id Hauth Hlogin.
    rewrite fetch_vehicle_location_unfold, fetch_from_unfold.
    rewrite (fetch_body_auth _ env w vehicle_id None Hauth), Hlogin.
    reflexivity.
  - intros env w vehicle_id d Hauth Hlogin Hdepth.
    rewrite fetch_vehicle_location_unfold, fetch_from_unfold, Hdepth.
    rewrite (fetch_body_auth _ env w vehicle_id None Hauth), Hlogin.
    destruct (fetch_from_never_raises d vehicle_id
                (Some (request_time w None)) env
                (after_login env
                   (rejected w (first_request w vehicle_id None))))
      as [a Ha].
    apply (try_except_ok _ _ _ _ a Ha).
Qed.

Lemma fetch_reauthenticates_and_returns_none_on_error_witness :
  fetch_vehicle_location (VInt 1) None calm (world_with_token "tok")
  = (Ok (VDict (snapshot 1 10)),
     log_request (first_request (world_with_token "tok") (VInt 1) None)
       (world_with_token "tok")) /\
  fst (fetch_vehicle_location (VInt 1) None server_down
         (world_with_token "tok")) = Ok VNone /\
  fst (fetch_vehicle_location (VInt 1) None login_broken
         (world_with_token "tok")) = Ok VNone /\
  fetch_vehicle_location (VInt 1) None stale_token (world_with_token "old")
  = fetch_from 999 (VInt 1) (Some 1000000%Z) stale_token
      (after_login stale_token
         (rejected (world_with_token "old")
            (first_request (world_with_token "old") (VInt 1) None))).
Proof.
  destruct fetch_reauthenticates_and_returns_none_on_error
    as (Hplain & Herror & Hlogin & Hretry).
  split; [ | split; [ | split ] ].
  - apply (Hplain calm (world_with_token "tok") (VInt 1)). reflexivity.
  - apply (Herror server_down (world_with_token "tok") (VInt 1)
             NetworkError).
    + reflexivity.
    + discriminate.
  - rewrite (Hlogin login_broken (world_with_token "tok") (VInt 1));
      reflexivity.
  - apply (Hretry stale_token (world_with_token "old") (VInt 1) 999%nat);
      reflexivity.
Defined.
